(** * pyfmt: a shallow embedding of the format-specification engine

    The development follows the Go sources of the repository:
    - [render.go]: the flag state machine ([splitFlags], [parseFlags]) and the
      value renderer ([render], [setupPercent], [transformPercent]);
    - the formatter file with [WriteAlignedString], [doFormat], [splitFormat],
      [getArg], [Fmt], [Must], [Error];
    - the older formatter file with [Format], [FormatMap], [FormatStruct]
      (module [Legacy]).

    Go strings are byte sequences and are modelled by [string] (a list of
    8-bit characters).  String lengths and indices are [nat]; [int64] values
    are [Z] with the wrap-around written out ([wrap64]); a [rune] is a [Z].
    A run-time panic (index or slice out of range, explicit [panic]) is an
    explicit outcome of the [call] type. *)

From Stdlib Require Import List ZArith Lia Bool Arith Ascii String.
From Stdlib Require Import Floats.SpecFloat.
Import ListNotations.
Local Open Scope string_scope.
Local Open Scope bool_scope.

(** ** Outcomes of a Go call *)

(** A call returns normally, panics, or (in the model only) exhausts the
    iteration budget given to a loop whose variant is not structural. *)
Inductive call (A : Type) : Type :=
| Return (a : A)
| Panics (msg : string)
| OutOfFuel.
Arguments Return {A} a.
Arguments Panics {A} msg.
Arguments OutOfFuel {A}.

Definition bind {A B : Type} (c : call A) (k : A -> call B) : call B :=
  match c with
  | Return a => k a
  | Panics msg => Panics msg
  | OutOfFuel => OutOfFuel
  end.

Notation "x <- c ;; k" := (bind c (fun x => k))
  (at level 61, c at next level, right associativity).
Notation "' p <- c ;; k" := (bind c (fun x => let p := x in k))
  (at level 61, p pattern, c at next level, right associativity).

(** Go's [error] values are represented by their message. *)
Definition error := string.

(** The result of a Go function with signature [(T, error)]. *)
Inductive result (T : Type) : Type :=
| Ok (t : T)
| Err (e : error).
Arguments Ok {T} t.
Arguments Err {T} e.

(** ** Strings as byte sequences *)

Fixpoint drop (n : nat) (s : string) : string :=
  match n, s with
  | O, _ => s
  | S n', String _ s' => drop n' s'
  | S _, EmptyString => EmptyString
  end.

Fixpoint take (n : nat) (s : string) : string :=
  match n, s with
  | S n', String c s' => String c (take n' s')
  | _, _ => EmptyString
  end.

(** [s[i]]: panics when [i] is out of range. *)
Definition byteAt (s : string) (i : nat) : call ascii :=
  match get i s with
  | Some c => Return c
  | None => Panics "index out of range"
  end.

(** [s[i:j]]: panics unless [i <= j <= len(s)]. *)
Definition slice (s : string) (i j : nat) : call string :=
  if (i <=? j)%nat && (j <=? length s)%nat
  then Return (take (j - i) (drop i s))
  else Panics "slice bounds out of range".

(** [s[i:]] *)
Definition sliceFrom (s : string) (i : nat) : call string :=
  slice s i (length s).

Definition byteZ (c : ascii) : Z := Z.of_nat (nat_of_ascii c).
Definition byte_of_Z (z : Z) : ascii := ascii_of_nat (Z.to_nat z).
Definition str1 (c : ascii) : string := String c EmptyString.

(** ** int64 *)

Definition maxInt64 : Z := 9223372036854775807.
Definition minInt64 : Z := -9223372036854775808.

(** Two's-complement wrap-around of 64-bit signed arithmetic. *)
Definition wrap64 (z : Z) : Z :=
  ((z + 9223372036854775808) mod 18446744073709551616 - 9223372036854775808)%Z.

(** ** The packages of the Go library used by the sources *)

Definition rune := Z.

Module utf8.

Definition RuneError : rune := 65533%Z.

(** [string(r)]: the UTF-8 encoding of a rune; runes out of range and
    surrogate halves are encoded as [RuneError]. *)
Definition encode_valid (r : rune) : string :=
  if (r <? 128)%Z then str1 (byte_of_Z r)
  else if (r <? 2048)%Z then
    String (byte_of_Z (192 + r / 64))
      (str1 (byte_of_Z (128 + r mod 64)))
  else if (r <? 65536)%Z then
    String (byte_of_Z (224 + r / 4096))
      (String (byte_of_Z (128 + (r / 64) mod 64))
         (str1 (byte_of_Z (128 + r mod 64))))
  else
    String (byte_of_Z (240 + r / 262144))
      (String (byte_of_Z (128 + (r / 4096) mod 64))
         (String (byte_of_Z (128 + (r / 64) mod 64))
            (str1 (byte_of_Z (128 + r mod 64))))).

Definition string_of_rune (r : rune) : string :=
  if (r <? 0)%Z || (1114111 <? r)%Z || ((55296 <=? r)%Z && (r <=? 57343)%Z)
  then encode_valid RuneError
  else encode_valid r.

Definition inRange (lo hi b : Z) : bool := (lo <=? b)%Z && (b <=? hi)%Z.

(** The size of the sequence announced by a leading byte and the range
    accepted for its second byte ([first] and [acceptRanges] of the Go
    package); [None] for ASCII and for bytes that cannot lead. *)
Definition lead (b : Z) : option (nat * (Z * Z)) :=
  if inRange 194 223 b then Some (2, (128, 191)%Z)
  else if (b =? 224)%Z then Some (3, (160, 191)%Z)
  else if inRange 225 236 b then Some (3, (128, 191)%Z)
  else if (b =? 237)%Z then Some (3, (128, 159)%Z)
  else if inRange 238 239 b then Some (3, (128, 191)%Z)
  else if (b =? 240)%Z then Some (4, (144, 191)%Z)
  else if inRange 241 243 b then Some (4, (128, 191)%Z)
  else if (b =? 244)%Z then Some (4, (128, 143)%Z)
  else None.

(** [utf8.DecodeRuneInString]: the first rune of [s] and its width in
    bytes; [(RuneError, 0)] on the empty string and [(RuneError, 1)] on an
    invalid encoding. *)
Definition DecodeRuneInString (s : string) : rune * nat :=
  match s with
  | EmptyString => (RuneError, 0)
  | String c0 t =>
      let s0 := byteZ c0 in
      if (s0 <? 128)%Z then (s0, 1)
      else
        match lead s0 with
        | None => (RuneError, 1)
        | Some (sz, (lo, hi)) =>
            if (length s <? sz)%nat then (RuneError, 1)
            else
              match t with
              | EmptyString => (RuneError, 1)
              | String c1 t1 =>
                  let s1 := byteZ c1 in
                  if negb (inRange lo hi s1) then (RuneError, 1)
                  else if (sz <=? 2)%nat
                  then (((s0 mod 32) * 64 + s1 mod 64)%Z, 2)
                  else
                    match t1 with
                    | EmptyString => (RuneError, 1)
                    | String c2 t2 =>
                        let s2 := byteZ c2 in
                        if negb (inRange 128 191 s2) then (RuneError, 1)
                        else if (sz <=? 3)%nat
                        then (((s0 mod 16) * 4096 + (s1 mod 64) * 64
                               + s2 mod 64)%Z, 3)
                        else
                          match t2 with
                          | EmptyString => (RuneError, 1)
                          | String c3 _ =>
                              let s3 := byteZ c3 in
                              if negb (inRange 128 191 s3)
                              then (RuneError, 1)
                              else (((s0 mod 8) * 262144
                                     + (s1 mod 64) * 4096
                                     + (s2 mod 64) * 64 + s3 mod 64)%Z, 4)
                          end
                    end
              end
        end
  end.

End utf8.

Module strings.

Fixpoint repeat_string (s : string) (n : nat) : string :=
  match n with
  | O => EmptyString
  | S n' => s ++ repeat_string s n'
  end.

(** [strings.Repeat]: panics on a negative count and when the length of
    the result overflows [int].  The allocation of the result, which the
    Go runtime refuses for lengths far below [maxInt64], is not modelled:
    a statement that asserts a return bounds the length. *)
Definition Repeat (s : string) (count : Z) : call string :=
  if (count <? 0)%Z then Panics "strings: negative Repeat count"
  else if (maxInt64 <? Z.of_nat (length s) * count)%Z
  then Panics "strings: Repeat output length overflow"
  else Return (repeat_string s (Z.to_nat count)).

(** [strings.Join(elems, sep)] *)
Definition Join (elems : list string) (sep : string) : string :=
  String.concat sep elems.

(** Position of the first occurrence of the byte [c]. *)
Fixpoint indexByte (c : ascii) (s : string) : option nat :=
  match s with
  | EmptyString => None
  | String d s' =>
      if Ascii.eqb d c then Some 0
      else option_map S (indexByte c s')
  end.

(** [strings.SplitN(s, sep, 2)] for a one-byte separator: at most two
    parts, split at the first separator. *)
Definition SplitN2 (s : string) (sep : ascii) : list string :=
  match indexByte sep s with
  | Some k => [take k s; drop (S k) s]
  | None => [s]
  end.

(** Leading runes of [s] are dropped while they equal [r]; [n] bounds the
    number of runes looked at (each takes at least one byte). *)
Fixpoint trimLeftRune (n : nat) (r : rune) (s : string) : string :=
  match n with
  | O => s
  | S n' =>
      match s with
      | EmptyString => s
      | String _ _ =>
          let '(r0, size) := utf8.DecodeRuneInString s in
          if (r0 =? r)%Z then trimLeftRune n' r (drop size s) else s
      end
  end.

(** [strings.TrimLeft(s, cutset)] for a cutset that holds exactly one
    encoded rune, the only shape the sources pass: [" "] and
    [string(fillChar)]. *)
Definition TrimLeft (s : string) (cutset : string) : string :=
  trimLeftRune (length s) (fst (utf8.DecodeRuneInString cutset)) s.

(** The UTF-8 encodings of the characters of Unicode's White Space
    property, which is what [unicode.IsSpace] accepts. *)
Definition bytes (l : list nat) : string :=
  string_of_list_ascii (map ascii_of_nat l).

Definition spaces : list string :=
  map bytes
    ([[9]; [10]; [11]; [12]; [13]; [32]; [194; 133]; [194; 160];
      [225; 154; 128]]
     ++ map (fun k => [226; 128; 128 + k]) (seq 0 11)
     ++ [[226; 128; 168]; [226; 128; 169]; [226; 128; 175];
         [226; 129; 159]; [227; 128; 128]]).

Fixpoint stripPrefix (p s : string) : option string :=
  match p, s with
  | EmptyString, _ => Some s
  | String a p', String b s' =>
      if Ascii.eqb a b then stripPrefix p' s' else None
  | String _ _, EmptyString => None
  end.

Fixpoint firstSome {A B : Type} (f : A -> option B) (l : list A)
  : option B :=
  match l with
  | [] => None
  | a :: l' =>
      match f a with
      | Some b => Some b
      | None => firstSome f l'
      end
  end.

Fixpoint trimLeftSpace (n : nat) (s : string) : string :=
  match n with
  | O => s
  | S n' =>
      match firstSome (fun p => stripPrefix p s) spaces with
      | Some s' => trimLeftSpace n' s'
      | None => s
      end
  end.

Definition rev_string (s : string) : string :=
  string_of_list_ascii (rev (list_ascii_of_string s)).

Definition stripSuffix (p s : string) : option string :=
  option_map rev_string (stripPrefix (rev_string p) (rev_string s)).

Fixpoint trimRightSpace (n : nat) (s : string) : string :=
  match n with
  | O => s
  | S n' =>
      match firstSome (fun p => stripSuffix p s) spaces with
      | Some s' => trimRightSpace n' s'
      | None => s
      end
  end.

(** [strings.TrimSpace] *)
Definition TrimSpace (s : string) : string :=
  let s' := trimLeftSpace (length s) s in
  trimRightSpace (length s') s'.

End strings.

Definition quoteByte : ascii := ascii_of_nat 34.

Module strconv.

Definition isDecimal (c : ascii) : bool :=
  (48 <=? nat_of_ascii c)%nat && (nat_of_ascii c <=? 57)%nat.

Definition digitValue (c : ascii) : Z := (byteZ c - 48)%Z.

Inductive numError := ErrSyntax | ErrRange.

Definition maxUint64 : Z := 18446744073709551615.

(** The digit loop of [ParseUint] in base 10 for 64 bits: a byte that is
    not a digit is a syntax error, an accumulator that leaves the 64-bit
    range is a range error, whichever comes first. *)
Fixpoint parseUintLoop (n : Z) (s : string) : Z + numError :=
  match s with
  | EmptyString => inl n
  | String c s' =>
      if negb (isDecimal c) then inr ErrSyntax
      else if (maxUint64 / 10 + 1 <=? n)%Z then inr ErrRange
      else
        let n1 := (n * 10 + digitValue c)%Z in
        if (maxUint64 <? n1)%Z then inr ErrRange
        else parseUintLoop n1 s'
  end.

(** [strconv.Quote] on text without bytes that need escaping: a quote,
    a backslash or a byte that is not printable is written as it is here
    and escaped by Go. *)
Definition Quote (s : string) : string :=
  String quoteByte (s ++ str1 quoteByte).

Definition numErrorText (fn : string) (s : string) (e : numError)
  : error :=
  "strconv." ++ fn ++ ": parsing " ++ Quote s ++
  match e with
  | ErrSyntax => ": invalid syntax"
  | ErrRange => ": value out of range"
  end.

Definition parseSigned (fn : string) (s : string) : result Z :=
  match s with
  | EmptyString => Err (numErrorText fn s ErrSyntax)
  | String c t =>
      let neg := Ascii.eqb c "-" in
      let body := if Ascii.eqb c "+" || neg then t else s in
      match body with
      | EmptyString => Err (numErrorText fn s ErrSyntax)
      | String _ _ =>
          match parseUintLoop 0 body with
          | inr e => Err (numErrorText fn s e)
          | inl un =>
              if negb neg && (9223372036854775808 <=? un)%Z
              then Err (numErrorText fn s ErrRange)
              else if neg && (9223372036854775808 <? un)%Z
              then Err (numErrorText fn s ErrRange)
              else Ok (if neg then (- un)%Z else un)
          end
      end
  end.

(** [strconv.ParseInt(s, 10, 64)] *)
Definition ParseInt (s : string) : result Z := parseSigned "ParseInt" s.

(** [strconv.Atoi(s)], with a 64-bit [int]. *)
Definition Atoi (s : string) : result Z := parseSigned "Atoi" s.

Definition digitChar (upper : bool) (d : Z) : ascii :=
  if (d <? 10)%Z then byte_of_Z (48 + d)
  else if upper then byte_of_Z (55 + d) else byte_of_Z (87 + d).

Fixpoint digitsFuel (fuel : nat) (base : Z) (upper : bool) (n : Z)
  (acc : string) : string :=
  match fuel with
  | O => acc
  | S fuel' =>
      let acc' := String (digitChar upper (n mod base)) acc in
      if (n / base =? 0)%Z then acc'
      else digitsFuel fuel' base upper (n / base) acc'
  end.

(** The digits of a natural number in a base between 2 and 16. *)
Definition formatDigits (base : Z) (upper : bool) (n : Z) : string :=
  digitsFuel (S (Z.to_nat (Z.log2 n))) base upper n "".

(** [strconv.FormatUint(n, base)] *)
Definition FormatUint (n : Z) (base : Z) : string :=
  formatDigits base false n.

(** [strconv.Itoa] *)
Definition Itoa (n : Z) : string :=
  (if (n <? 0)%Z then "-" else "") ++ FormatUint (Z.abs n) 10.

End strconv.

Module errors.
(** [errors.New] *)
Definition New (text : string) : error := text.
End errors.

(** ** Dynamic values

    The sources pass [interface{}] values around; the dynamic types that
    occur in this development are strings, integers, floating-point numbers
    (a binary64 value as a [spec_float]), errors, records and the nil
    interface. *)
#[warnings="-register-all"]
Inductive value : Type :=
| VNil
| VString (s : string)
| VInt (n : Z)
| VFloat (x : spec_float)
| VError (e : error)
| VStruct (fields : list (string * value)).

(** [l[n]] on an argument list. *)
Fixpoint nthValue (l : list value) (n : nat) : option value :=
  match l, n with
  | v :: _, O => Some v
  | _ :: l', S n' => nthValue l' n'
  | [], _ => None
  end.

(** ** The aligned buffer writer *)

(** [type buffer []byte] *)
Definition buffer := string.

(** [func (b *buffer) WriteString(s string)] *)
Definition WriteString (b : buffer) (s : string) : buffer := b ++ s.

(** The alignment constants [noAlign .. center]. *)
Inductive alignment := noAlign | left | right | padSign | center.

Definition alignment_eqb (a b : alignment) : bool :=
  match a, b with
  | noAlign, noAlign | left, left | right, right
  | padSign, padSign | center, center => true
  | _, _ => false
  end.

(** The body of [WriteAlignedString]; [self] stands for the method itself in
    the two recursive calls of the [padSign] case. *)
Definition WriteAlignedString_body
  (self : buffer -> string -> alignment -> Z -> rune -> call buffer)
  (b : buffer) (s : string) (align : alignment) (width : Z) (fillChar : rune)
  : call buffer :=
  let length := Z.of_nat (String.length s) in
  if (width <=? length)%Z || alignment_eqb align noAlign
  then Return (WriteString b s)
  else
    let fill :=
      if (fillChar =? 0)%Z then " " else utf8.string_of_rune fillChar in
    match align with
    | right =>
        pad <- strings.Repeat fill (width - length) ;;
        Return (WriteString (WriteString b pad) s)
    | left =>
        let b := WriteString b s in
        pad <- strings.Repeat fill (width - length) ;;
        Return (WriteString b pad)
    | center =>
        let prePad := ((width - length) / 2)%Z in
        pad <- strings.Repeat fill prePad ;;
        let b := WriteString (WriteString b pad) s in
        pad' <- strings.Repeat fill (width - length - prePad) ;;
        Return (WriteString b pad')
    | padSign =>
        s0 <- byteAt s 0 ;;
        if Ascii.eqb s0 "-" || Ascii.eqb s0 "+"
        then
          let b := WriteString b (str1 s0) in
          rest <- sliceFrom s 1 ;;
          self b rest right (wrap64 (width - 1)) fillChar
        else self b s right width fillChar
    | noAlign => Return b
    end.

(** [func (b *buffer) WriteAlignedString(s string, align int, width int64,
    fillChar rune)].  The recursive calls pass [right], whose case does not
    recurse, so two unfoldings of the body are the whole method. *)
Definition WriteAlignedString
  : buffer -> string -> alignment -> Z -> rune -> call buffer :=
  WriteAlignedString_body
    (WriteAlignedString_body (fun _ _ _ _ _ => OutOfFuel)).

(** ** The flag state machine ([render.go]) *)

Record flags : Type := mkFlags {
  fillChar : rune;
  align : alignment;
  sign : string;
  showRadix : bool;
  minWidth : string;
  precision : string;
  renderVerb : string;
  percent : bool
}.

(** [flags{}] *)
Definition zeroFlags : flags :=
  mkFlags 0%Z noAlign "" false "" "" "" false.

(** [type render struct] (named [renderer] here, [render] being its method):
    the buffer pointer [buf] aliases the formatter's buffer, which is passed
    to, and returned by, the methods that write; the embedded [flags] are the
    field [fl]. *)
Record renderer : Type := mkRender {
  val : value;
  fl : flags
}.

(** [func (r *render) clearFlags()] *)
Definition clearFlags (r : renderer) : renderer := mkRender (val r) zeroFlags.

(** Assignments to the fields of the embedded flags. *)
Definition setFillChar (r : renderer) (c : rune) : renderer :=
  let f := fl r in
  mkRender (val r)
    (mkFlags c (align f) (sign f) (showRadix f) (minWidth f) (precision f)
       (renderVerb f) (percent f)).
Definition setAlign (r : renderer) (a : alignment) : renderer :=
  let f := fl r in
  mkRender (val r)
    (mkFlags (fillChar f) a (sign f) (showRadix f) (minWidth f) (precision f)
       (renderVerb f) (percent f)).
Definition setSign (r : renderer) (s : string) : renderer :=
  let f := fl r in
  mkRender (val r)
    (mkFlags (fillChar f) (align f) s (showRadix f) (minWidth f) (precision f)
       (renderVerb f) (percent f)).
Definition setShowRadix (r : renderer) (b : bool) : renderer :=
  let f := fl r in
  mkRender (val r)
    (mkFlags (fillChar f) (align f) (sign f) b (minWidth f) (precision f)
       (renderVerb f) (percent f)).
Definition setMinWidth (r : renderer) (s : string) : renderer :=
  let f := fl r in
  mkRender (val r)
    (mkFlags (fillChar f) (align f) (sign f) (showRadix f) s (precision f)
       (renderVerb f) (percent f)).
Definition setPrecision (r : renderer) (s : string) : renderer :=
  let f := fl r in
  mkRender (val r)
    (mkFlags (fillChar f) (align f) (sign f) (showRadix f) (minWidth f) s
       (renderVerb f) (percent f)).
Definition setRenderVerb (r : renderer) (s : string) : renderer :=
  let f := fl r in
  mkRender (val r)
    (mkFlags (fillChar f) (align f) (sign f) (showRadix f) (minWidth f)
       (precision f) s (percent f)).
Definition setPercent (r : renderer) (b : bool) : renderer :=
  let f := fl r in
  mkRender (val r)
    (mkFlags (fillChar f) (align f) (sign f) (showRadix f) (minWidth f)
       (precision f) (renderVerb f) b).
Definition setVal (r : renderer) (v : value) : renderer := mkRender v (fl r).

Inductive flagState :=
| alignState | signState | radixState | zeroState
| widthState | precisionState | verbState | endState.

Definition memBytes (c : ascii) (set : string) : bool :=
  match strings.indexByte c set with
  | Some _ => true
  | None => false
  end.

(** [validFlags] *)
Definition validFlags (c : ascii) : bool := memBytes c "bdoxXeEfFgGrts%".

(** [isDigit] *)
Definition isDigit (c : ascii) : bool := memBytes c "0123456789".

Definition isAlignByte (c : ascii) : bool := memBytes c "<>=^".

(** The named results of [splitFlags]. *)
Record splitResult : Type := mkSplit {
  ret_align : string;
  ret_sign : string;
  ret_radix : string;
  ret_zeroPad : string;
  ret_minWidth : string;
  ret_precision : string;
  ret_verb : string;
  ret_err : option error
}.

Definition emptySplit : splitResult := mkSplit "" "" "" "" "" "" "" None.

(** [for j = i; j < end; { if isDigit[flags[j]] { j += 1 } else { break } }];
    [n] is the variant [end - j]. *)
Fixpoint scanDigits (flags : string) (n : nat) (j : nat) : call nat :=
  match n with
  | O => Return j
  | S n' =>
      c <- byteAt flags j ;;
      if isDigit c then scanDigits flags n' (S j) else Return j
  end.

(** One iteration of the loop of [splitFlags]: the [switch] on [state]. *)
Definition splitStep (flags : string) (end_ : nat)
  (state : flagState) (i : nat) (ret : splitResult)
  : call (flagState * nat * splitResult) :=
  let '(mkSplit al sg rd zp mw pr vb er) := ret in
  match state with
  | alignState =>
      second <-
        (if (1 <? end_)%nat
         then c <- byteAt flags 1 ;; Return (isAlignByte c)
         else Return false) ;;
      i' <-
        (if second : bool then Return (i + 2)%nat
         else
           c <- byteAt flags i ;;
           Return (if isAlignByte c then (i + 1)%nat else i)) ;;
      a <- slice flags 0 i' ;;
      Return (signState, i', mkSplit a sg rd zp mw pr vb er)
  | signState =>
      c <- byteAt flags i ;;
      if Ascii.eqb c "+" || Ascii.eqb c "-" || Ascii.eqb c " "
      then
        t <- slice flags i (i + 1) ;;
        Return (radixState, (i + 1)%nat, mkSplit al t rd zp mw pr vb er)
      else Return (radixState, i, ret)
  | radixState =>
      c <- byteAt flags i ;;
      if Ascii.eqb c "#"
      then
        t <- slice flags i (i + 1) ;;
        Return (zeroState, (i + 1)%nat, mkSplit al sg t zp mw pr vb er)
      else Return (zeroState, i, ret)
  | zeroState =>
      c <- byteAt flags i ;;
      if Ascii.eqb c "0"
      then
        t <- slice flags i (i + 1) ;;
        Return (widthState, (i + 1)%nat, mkSplit al sg rd t mw pr vb er)
      else Return (widthState, i, ret)
  | widthState =>
      j <- scanDigits flags (end_ - i) i ;;
      t <- slice flags i j ;;
      Return (precisionState, j, mkSplit al sg rd zp t pr vb er)
  | precisionState =>
      c <- byteAt flags i ;;
      if Ascii.eqb c "."
      then
        j <- scanDigits flags (end_ - (i + 1)) (i + 1) ;;
        t <- slice flags i j ;;
        Return (verbState, j, mkSplit al sg rd zp mw t vb er)
      else Return (verbState, i, ret)
  | verbState =>
      c <- byteAt flags i ;;
      if validFlags c
      then
        t <- slice flags i (i + 1) ;;
        Return (endState, (i + 1)%nat, mkSplit al sg rd zp mw pr t er)
      else Return (endState, i, ret)
  | endState =>
      let err :=
        errors.New ("Could not decode format specification: " ++ flags) in
      Return (endState, (end_ + 1)%nat,
              mkSplit al sg rd zp mw pr vb (Some err))
  end.

(** [for i := 0; i < end; { switch state ... }]: every iteration moves to
    the next state and [endState] leaves the loop, so eight iterations
    always suffice ([splitLoop_total] below). *)
Fixpoint splitLoop (fuel : nat) (flags : string) (end_ : nat)
  (state : flagState) (i : nat) (ret : splitResult) : call splitResult :=
  if (i <? end_)%nat then
    match fuel with
    | O => OutOfFuel
    | S fuel' =>
        '(state', i', ret') <- splitStep flags end_ state i ret ;;
        splitLoop fuel' flags end_ state' i' ret'
    end
  else Return ret.

(** [func splitFlags(flags string) (align, sign, radix, zeroPad, minWidth,
    precision, verb string, err error)] *)
Definition splitFlags (flags : string) : call splitResult :=
  let end_ := String.length flags in
  if (end_ =? 0)%nat then Return emptySplit
  else splitLoop 8 flags end_ alignState 0 emptySplit.

(** ** The renderer and the template driver

    [fmt.Sprintf] is the host formatting primitive, and [getElement], the
    argument resolver, is not among the sources: both are parameters of the
    development.  [getElement] has the Go signature
    [(name string, listPos int, args ...interface{}) (interface{}, error)]. *)

(** [len(s) > 0 && s[0] == c] *)
Definition startsWith (s : string) (c : ascii) : bool :=
  match s with
  | String d _ => Ascii.eqb d c
  | EmptyString => false
  end.

Definition isFloatVerb (v : string) : bool :=
  (v =? "f")%string || (v =? "F")%string || (v =? "g")%string
  || (v =? "G")%string || (v =? "e")%string || (v =? "E")%string.

(** [[]interface{}] with the formatter state: [type ff struct]. *)
Record ff : Type := mkFF {
  buf : buffer;
  args : list value;
  listPos : nat;
  r : renderer
}.

Definition setBuf (f : ff) (b : buffer) : ff :=
  mkFF b (args f) (listPos f) (r f).
Definition setR (f : ff) (x : renderer) : ff :=
  mkFF (buf f) (args f) (listPos f) x.

(** [func newFormater() *ff] followed by [f.args = a]. *)
Definition newFormater (a : list value) : ff :=
  mkFF "" a 0 (mkRender VNil zeroFlags).

(** [func splitFormat(field string) (string, string)] *)
Definition splitFormat (field : string) : string * string :=
  match strings.SplitN2 field ":" with
  | [name] => (name, "")
  | name :: spec :: _ => (name, spec)
  | [] => ("", "")
  end.

(** The first inner loop of [doFormat]:
    [for i < end && format[i] != '{' { ... i++ }].  It returns the indices
    [i] and [cachei], the buffer, and the error of the early return. *)
Fixpoint scanOpen (fuel : nat) (format : string) (end_ : nat)
  (i cachei : nat) (b : buffer) : call (nat * nat * buffer * option error) :=
  if (i <? end_)%nat then
    c <- byteAt format i ;;
    if negb (Ascii.eqb c "{") then
      match fuel with
      | O => OutOfFuel
      | S fuel' =>
          if Ascii.eqb c "}" then
            next <-
              (if (i + 1 =? end_)%nat then Return true
               else c' <- byteAt format (i + 1) ;;
                    Return (negb (Ascii.eqb c' "}"))) ;;
            if next : bool then
              Return (i, cachei, b,
                      Some (errors.New
                              "Single '}' encountered in format string"))
            else
              lit <- slice format cachei i ;;
              scanOpen fuel' format end_ (i + 1 + 1) (i + 1)
                (WriteString b lit)
          else scanOpen fuel' format end_ (i + 1) cachei b
      end
    else Return (i, cachei, b, None)
  else Return (i, cachei, b, None).

(** The second inner loop: [for i < end && format[i] != '}' { i++ }];
    [n] is the variant [end - i]. *)
Fixpoint scanClose (format : string) (n : nat) (i : nat) : call nat :=
  match n with
  | O => Return i
  | S n' =>
      c <- byteAt format i ;;
      if negb (Ascii.eqb c "}") then scanClose format n' (i + 1)
      else Return i
  end.

Section Engine.

Variable Sprintf : string -> value -> string.
Variable getElement : string -> nat -> list value -> value * option error.

(** The sources are recursive through [Error] and [Must], which call [Fmt]
    again.  The functions are first written over the two nested entry
    points, then the knot is tied below. *)
Section Layer.

Variable ErrorRec : string -> list value -> call error.
Variable MustRec : string -> list value -> call string.

(** [func (r *render) parseFlags(flags string) error] *)
Definition parseFlags (r : renderer) (flags : string)
  : call (renderer * option error) :=
  let r := setRenderVerb r "v" in
  if (flags =? "")%string then Return (r, None)
  else
    sp <- splitFlags flags ;;
    match ret_err sp with
    | Some err =>
        e <- ErrorRec "Invalid flag pattern: {}, {}"
               [VString flags; VError err] ;;
        Return (r, Some e)
    | None =>
        let align_ := ret_align sp in
        '(r, align_) <-
          (if (1 <? String.length align_)%nat
           then
             let '(c, size) := utf8.DecodeRuneInString align_ in
             a <- sliceFrom align_ size ;;
             Return (setFillChar r c, a)
           else Return (r, align_)) ;;
        r <-
          (if negb (align_ =? "")%string
           then
             if (align_ =? "<")%string then Return (setAlign r left)
             else if (align_ =? ">")%string then Return (setAlign r right)
             else if (align_ =? "=")%string
             then Return (setAlign r padSign)
             else if (align_ =? "^")%string
             then Return (setAlign r center)
             else Panics "Unreachable, this should never happen."
           else Return r) ;;
        let r :=
          if negb (ret_sign sp =? "")%string
          then
            if negb (ret_sign sp =? "-")%string
            then setSign r (ret_sign sp) else r
          else r in
        let r :=
          if (ret_radix sp =? "#")%string
          then setShowRadix r true else r in
        let r :=
          if negb (ret_zeroPad sp =? "")%string
          then
            let r := if (align_ =? "")%string
                     then setAlign r padSign else r in
            if (fillChar (fl r) =? 0)%Z
            then setFillChar r (byteZ "0") else r
          else r in
        let r :=
          if negb (ret_minWidth sp =? "")%string
          then setMinWidth r (ret_minWidth sp) else r in
        let r :=
          if negb (ret_precision sp =? "")%string
          then setPrecision r (ret_precision sp) else r in
        let verb := ret_verb sp in
        r <-
          (if negb (verb =? "")%string
           then
             if existsb (String.eqb verb)
                  ["b"; "o"; "x"; "X"; "e"; "E"; "f"; "F"; "g"; "G"]
             then Return (setRenderVerb r verb)
             else if (verb =? "d")%string
             then Return (setShowRadix (setRenderVerb r verb) false)
             else if (verb =? "%")%string
             then Return (setRenderVerb (setPercent r true) "f")
             else if (verb =? "r")%string
             then Return (setRenderVerb r "#v")
             else if (verb =? "t")%string
             then Return (setRenderVerb r "T")
             else if (verb =? "s")%string
             then Return (setRenderVerb r "+v")
             else Panics "Unreachable, this should never happen. Flag parsing regex is corrupted."
           else Return r) ;;
        Return (r, None)
    end.

(** [func (r *render) setupPercent() error] *)
Definition setupPercent (r : renderer) : call (renderer * option error) :=
  if (precision (fl r) =? "")%string
  then Return (setPrecision r ".8", None)
  else
    digits <- sliceFrom (precision (fl r)) 1 ;;
    match strconv.ParseInt digits with
    | Err err => Return (r, Some err)
    | Ok p =>
        s <- MustRec ".{}" [VInt (wrap64 (p + 2))] ;;
        Return (setPrecision r s, None)
    end.

(** [func transformPercent(p string) (string, error)] *)
Definition transformPercent (p : string) : call (result string) :=
  c <- byteAt p 0 ;;
  '(sign_, p) <-
    (if Ascii.eqb c "-"
     then t <- sliceFrom p 1 ;; Return ("-", t)
     else Return ("", p)) ;;
  match strings.SplitN2 p "." with
  | [part0; part1] =>
      match strconv.ParseInt part0 with
      | Err _ =>
          e <- ErrorRec "Couldn't parse format prefix from: {}"
                 [VString p] ;;
          Return (Err e)
      | Ok prefix =>
          if (prefix =? 0)%Z then
            t <- sliceFrom part1 2 ;;
            let suffix := if negb (t =? "")%string
                          then "." ++ t else "" in
            c0 <- byteAt part1 0 ;;
            if Ascii.eqb c0 "0" then
              d <- slice part1 1 2 ;;
              Return (Ok (strings.Join [sign_; d; suffix; "%"] ""))
            else
              d <- slice part1 0 2 ;;
              Return (Ok (strings.Join [sign_; d; suffix; "%"] ""))
          else if (String.length part0 =? 1)%nat then
            t <- sliceFrom part1 2 ;;
            let suffix := if negb (t =? "")%string
                          then "." ++ t else "" in
            d <- slice part1 0 2 ;;
            Return (Ok (strings.Join [sign_; part0; d; suffix; "%"] ""))
          else
            t <- sliceFrom part1 2 ;;
            let suffix := if negb (t =? "")%string
                          then "." ++ t else "" in
            d <- slice part1 0 2 ;;
            Return (Ok (strings.Join [sign_; part0; d; suffix; "%"] ""))
      end
  | _ =>
      match strconv.ParseInt p with
      | Err _ => Return (Ok (p ++ "%"))
      | Ok _ => Return (Ok (p ++ "00%"))
      end
  end.

(** [func (r *render) render() error], first part (up to the percent
    transform): the text of the value and the width, or the error of an
    early return.  Nothing is written to the buffer in this part. *)
Definition renderText (r : renderer)
  : call (renderer * result (string * Z)) :=
  re <- (if percent (fl r) then setupPercent r else Return (r, None)) ;;
  match re with
  | (r, Some err) => Return (r, Err err)
  | (r, None) =>
      let '(prefix, radix) :=
        if showRadix (fl r) then
          if (renderVerb (fl r) =? "x")%string
             || (renderVerb (fl r) =? "X")%string
          then ("", "#")
          else if (renderVerb (fl r) =? "b")%string then ("0b", "")
          else if (renderVerb (fl r) =? "o")%string then ("0o", "")
          else ("", "")
        else ("", "") in
      w <-
        (if (minWidth (fl r) =? "")%string then Return (Ok 0%Z)
         else
           match strconv.ParseInt (minWidth (fl r)) with
           | Ok w => Return (Ok w)
           | Err _ =>
               e <- ErrorRec "Can't convert width {} to int"
                      [VString (minWidth (fl r))] ;;
               Return (Err e)
           end) ;;
      match w with
      | Err e => Return (r, Err e)
      | Ok width =>
          let r := if negb (isFloatVerb (renderVerb (fl r)))
                   then setMinWidth r "" else r in
          let str :=
            Sprintf ("%" ++ sign (fl r) ++ radix ++ minWidth (fl r)
                     ++ precision (fl r) ++ renderVerb (fl r))
              (val r) in
          let str :=
            if negb (prefix =? "")%string then
              let str := strings.TrimLeft str " " in
              let str :=
                if negb (str =? utf8.string_of_rune (fillChar (fl r)))
                then strings.TrimLeft str
                       (utf8.string_of_rune (fillChar (fl r)))
                else str in
              if startsWith str "-"
              then strings.Join ["-"; prefix; drop 1 str] ""
              else if startsWith str "+"
              then strings.Join ["+"; prefix; drop 1 str] ""
              else if (sign (fl r) =? " ")%string
              then strings.Join [" "; prefix; str] ""
              else strings.Join [prefix; str] ""
            else str in
          str <-
            (if isFloatVerb (renderVerb (fl r)) then
               let str := strings.TrimSpace str in
               if (sign (fl r) =? " ")%string then
                 c <- byteAt str 0 ;;
                 if negb (Ascii.eqb c "-")
                 then Return (" " ++ str) else Return str
               else Return str
             else Return str) ;;
          if percent (fl r) then
            t <- transformPercent str ;;
            match t with
            | Err err => Return (r, Err err)
            | Ok str => Return (r, Ok (str, width))
            end
          else Return (r, Ok (str, width))
      end
  end.

(** [render], second part (from the sign extraction on): the writes to
    the buffer. *)
Definition renderWrite (r : renderer) (str : string) (width : Z)
  (b : buffer) : call buffer :=
  let '(b, str, width) :=
    match str with
    | String c _ =>
        if negb (Ascii.eqb c "(")
           && (alignment_eqb (align (fl r)) left
               || alignment_eqb (align (fl r)) padSign)
        then
          if Ascii.eqb c "-"
          then (WriteString b "-", drop 1 str, wrap64 (width - 1))
          else if Ascii.eqb c "+"
          then (WriteString b "+", drop 1 str, wrap64 (width - 1))
          else if Ascii.eqb c " "
          then (WriteString b " ", drop 1 str, wrap64 (width - 1))
          else (WriteString b (sign (fl r)), str, width)
        else (b, str, width)
    | EmptyString => (b, str, width)
    end in
  if showRadix (fl r) && alignment_eqb (align (fl r)) padSign then
    p <- slice str 0 2 ;;
    let b := WriteString b p in
    rest <- sliceFrom str 2 ;;
    WriteAlignedString b rest (align (fl r)) (wrap64 (width - 2))
      (fillChar (fl r))
  else
    WriteAlignedString b str (align (fl r)) width (fillChar (fl r)).

(** [func (r *render) render() error] *)
Definition render (r : renderer) (b : buffer)
  : call (renderer * buffer * option error) :=
  '(r, t) <- renderText r ;;
  match t with
  | Err err => Return (r, b, Some err)
  | Ok (str, width) =>
      b <- renderWrite r str width b ;;
      Return (r, b, None)
  end.

(** [func (f *ff) getArg(argName string) (interface{}, error)] *)
Definition getArg (f : ff) (argName : string)
  : ff * (value * option error) :=
  let ve := getElement argName (listPos f) (args f) in
  let f := if (argName =? "")%string
           then mkFF (buf f) (args f) (listPos f + 1) (r f) else f in
  (f, ve).

(** The outer loop of [doFormat], [for i := 0; i < end; { ... }].  Every
    iteration that continues has moved [i] forward, so [end - i + 1]
    iterations always suffice ([doFormat_total] below). *)
Fixpoint doFormat_loop (fuel : nat) (format : string) (i : nat) (f : ff)
  : call (ff * option error) :=
  let end_ := String.length format in
  if (i <? end_)%nat then
    match fuel with
    | O => OutOfFuel
    | S fuel' =>
        let cachei := i in
        '(i, cachei, b, e) <-
          scanOpen (end_ - i) format end_ i cachei (buf f) ;;
        let f := setBuf f b in
        match e with
        | Some err => Return (f, Some err)
        | None =>
            lit <-
              (if (cachei <? i)%nat then slice format cachei i
               else Return "") ;;
            let f := if (cachei <? i)%nat
                     then setBuf f (WriteString (buf f) lit) else f in
            if (end_ <=? i)%nat then Return (f, None)
            else
              let i := (i + 1)%nat in
              c <- byteAt format i ;;
              if Ascii.eqb c "{" then
                let f := setBuf f (WriteString (buf f) "{") in
                doFormat_loop fuel' format (i + 1) f
              else
                let cachei := i in
                i <- scanClose format (end_ - i) i ;;
                c <- byteAt format i ;;
                if negb (Ascii.eqb c "}") then
                  Return (f, Some (errors.New
                             "Single '{' encountered in format string"))
                else
                  field <- slice format cachei i ;;
                  let '(name, spec) := splitFormat field in
                  let '(f, (v, e)) := getArg f name in
                  let f := setR f (setVal (r f) v) in
                  match e with
                  | Some err => Return (f, Some err)
                  | None =>
                      let f := setR f (clearFlags (r f)) in
                      '(r', e) <- parseFlags (r f) spec ;;
                      let f := setR f r' in
                      match e with
                      | Some err => Return (f, Some err)
                      | None =>
                          '(r', b, e) <- render (r f) (buf f) ;;
                          let f := setBuf (setR f r') b in
                          match e with
                          | Some err => Return (f, Some err)
                          | None =>
                              doFormat_loop fuel' format (i + 1) f
                          end
                      end
                  end
        end
    end
  else Return (f, None).

(** [func (f *ff) doFormat(format string) error] *)
Definition doFormat (f : ff) (format : string)
  : call (ff * option error) :=
  doFormat_loop (String.length format + 1) format 0 f.

(** The body of [Fmt]: [(string, error)]. *)
Definition Fmt_body (format : string) (a : list value)
  : call (string * option error) :=
  let f := newFormater a in
  '(f, err) <- doFormat f format ;;
  match err with
  | Some e => Return ("", Some e)
  | None => let s := buf f in Return (s, None)
  end.

End Layer.

(** The formatter reached from [Error] and [Must].  Its own nested calls
    are cut off: on the templates that the sources pass to [Error] and
    [Must] they are never reached ([Error_invalid_flag] and the lemmas
    next to it). *)
Definition Fmt_nested : string -> list value -> call (string * option error) :=
  Fmt_body (fun _ _ => OutOfFuel) (fun _ _ => OutOfFuel).

(** [func Error(format string, a ...interface{}) error] *)
Definition Error (format : string) (a : list value) : call error :=
  '(s, err) <- Fmt_nested format a ;;
  match err with
  | Some e =>
      '(s', err') <- Fmt_nested "error formatting {}: {}"
                       [VString s; VError e] ;;
      match err' with
      | Some _ => OutOfFuel
      | None => Return (errors.New s')
      end
  | None => Return (errors.New s)
  end.

(** [func Must(format string, a ...interface{}) string] *)
Definition Must (format : string) (a : list value) : call string :=
  '(s, err) <- Fmt_nested format a ;;
  match err with
  | Some e => Panics e
  | None => Return s
  end.

(** [func Fmt(format string, a ...interface{}) (string, error)] *)
Definition Fmt : string -> list value -> call (string * option error) :=
  Fmt_body Error Must.

End Engine.

(** ** A reference instance of the two parameters

    [Host.Sprintf] covers the part of [fmt.Sprintf] that the scenarios of the
    specification exercise: a single directive
    [%[+| ][#][width][.precision]verb] followed by literal text, with the
    verbs [v], [d], [b], [o], [x], [X] on strings, errors and integers and
    the verbs [f], [F] on binary64 values (correctly rounded, ties to even).
    Outside this part it differs from [fmt.Sprintf]: a width with a zero in
    front is not the zero flag, a precision cuts a string by bytes, and the
    other verbs and values give the marker [unmodelled].
    Every theorem below that depends on the host formatter states the fact
    it needs as a hypothesis; this instance shows those hypotheses hold for
    the formatter the sources run on, and evaluates the scenarios. *)
Module Host.

Record directive : Type := mkDirective {
  d_plus : bool;
  d_space : bool;
  d_sharp : bool;
  d_width : option Z;
  d_prec : option Z;
  d_verb : ascii;
  d_rest : string
}.

Fixpoint spanDigits (acc : Z) (seen : bool) (s : string)
  : option Z * string :=
  match s with
  | String c s' =>
      if strconv.isDecimal c
      then spanDigits (acc * 10 + strconv.digitValue c)%Z true s'
      else (if seen then Some acc else None, s)
  | EmptyString => (if seen then Some acc else None, s)
  end.

Fixpoint parseFlagsChars (n : nat) (plus space sharp : bool) (s : string)
  : bool * bool * bool * string :=
  match n, s with
  | S n', String c s' =>
      if Ascii.eqb c "+" then parseFlagsChars n' true space sharp s'
      else if Ascii.eqb c " " then parseFlagsChars n' plus true sharp s'
      else if Ascii.eqb c "#" then parseFlagsChars n' plus space true s'
      else (plus, space, sharp, s)
  | _, _ => (plus, space, sharp, s)
  end.

Definition parseDirective (format : string) : option directive :=
  match format with
  | String c s =>
      if Ascii.eqb c "%" then
        let '(plus, space, sharp, s) :=
          parseFlagsChars (String.length s) false false false s in
        let '(width, s) := spanDigits 0 false s in
        let '(prec, s) :=
          match s with
          | String d s' =>
              if Ascii.eqb d "."
              then let '(p, s'') := spanDigits 0 false s' in
                   (Some (match p with Some p => p | None => 0%Z end), s'')
              else (None, s)
          | EmptyString => (None, s)
          end in
        match s with
        | String v rest =>
            Some (mkDirective plus space sharp width prec v rest)
        | EmptyString => None
        end
      else None
  | EmptyString => None
  end.

Definition padLeft (width : option Z) (s : string) : string :=
  match width with
  | Some w =>
      strings.repeat_string " "
        (Z.to_nat (w - Z.of_nat (String.length s))) ++ s
  | None => s
  end.

Definition signText (d : directive) (negative : bool) : string :=
  if negative then "-"
  else if d_plus d then "+"
  else if d_space d then " " else "".

Definition formatInteger (d : directive) (base : Z) (upper : bool)
  (marker : string) (n : Z) : string :=
  let digits := strconv.formatDigits base upper (Z.abs n) in
  let digits :=
    match d_prec d with
    | Some p =>
        if (p =? 0)%Z && (n =? 0)%Z then ""
        else strings.repeat_string "0"
               (Z.to_nat (p - Z.of_nat (String.length digits))) ++ digits
    | None => digits
    end in
  signText d (n <? 0)%Z ++ (if d_sharp d then marker else "") ++ digits.

(** [m * 2^e] scaled by [10^prec] and rounded to the nearest integer,
    ties to even. *)
Definition scaledRound (m : positive) (e : Z) (prec : Z) : Z :=
  let num := (Z.pos m * 10 ^ prec * 2 ^ Z.max e 0)%Z in
  let den := (2 ^ Z.max (- e) 0)%Z in
  let q := (num / den)%Z in
  let rem := (num mod den)%Z in
  if (2 * rem <? den)%Z then q
  else if (den <? 2 * rem)%Z then (q + 1)%Z
  else if Z.even q then q else (q + 1)%Z.

Definition fixedDigits (q : Z) (prec : Z) : string :=
  let ds := strconv.formatDigits 10 false q in
  let ds := strings.repeat_string "0"
              (Z.to_nat (prec + 1 - Z.of_nat (String.length ds))) ++ ds in
  let k := (String.length ds - Z.to_nat prec)%nat in
  if (prec =? 0)%Z then ds else take k ds ++ "." ++ drop k ds.

Definition formatFixed (d : directive) (x : spec_float) : string :=
  let prec := match d_prec d with Some p => p | None => 6%Z end in
  match x with
  | S754_zero s => signText d s ++ fixedDigits 0 prec
  | S754_infinity s => (if s then "-" else if d_space d && negb (d_plus d)
                                     then " " else "+") ++ "Inf"
  | S754_nan => (if d_plus d then "+" else if d_space d then " " else "")
                ++ "NaN"
  | S754_finite s m e => signText d s ++ fixedDigits (scaledRound m e prec) prec
  end.

Definition unmodelled : string := "%!(UNMODELLED)".

Definition truncate (prec : option Z) (s : string) : string :=
  match prec with
  | Some p => take (Z.to_nat p) s
  | None => s
  end.

Definition verbIs (d : directive) (s : string) : bool :=
  memBytes (d_verb d) s.

Definition formatValue (d : directive) (v : value) : string :=
  match v with
  | VString s | VError s =>
      if verbIs d "v" && negb (d_sharp d) then truncate (d_prec d) s
      else unmodelled
  | VInt n =>
      if verbIs d "vd" then formatInteger d 10 false "" n
      else if verbIs d "b" then formatInteger d 2 false "0b" n
      else if verbIs d "o" then formatInteger d 8 false "0" n
      else if verbIs d "x" then formatInteger d 16 false "0x" n
      else if verbIs d "X" then formatInteger d 16 true "0X" n
      else unmodelled
  | VFloat x =>
      if verbIs d "fF" then formatFixed d x else unmodelled
  | VNil | VStruct _ => unmodelled
  end.

Definition Sprintf (format : string) (v : value) : string :=
  match parseDirective format with
  | Some d => padLeft (d_width d) (formatValue d v) ++ d_rest d
  | None => unmodelled
  end.

(** The error of an index without an argument: it names the index and
    the number of arguments, in the words of [getArg] of the older
    file. *)
Definition indexError (k : Z) (args : list value) : error :=
  "Format index (" ++ strconv.Itoa k ++ ") out of range ("
  ++ strconv.Itoa (Z.of_nat (List.length args)) ++ ")".

(** Modelled from the spec: [getElement], the argument resolver, is not
    among the sources.  An empty name is the next positional argument, at
    the zero-based cursor; a non-empty name is resolved by index here; an
    argument that does not exist is an error that names the missing index
    and the valid range, or the missing key. *)
Definition getElement (name : string) (listPos : nat) (args : list value)
  : value * option error :=
  if (name =? "")%string then
    match nthValue args listPos with
    | Some v => (v, None)
    | None => (VNil, Some (indexError (Z.of_nat listPos) args))
    end
  else
    match strconv.ParseInt name with
    | Ok k =>
        match (if (k <? 0)%Z then None else nthValue args (Z.to_nat k)) with
        | Some v => (v, None)
        | None => (VNil, Some (indexError k args))
        end
    | Err _ => (VNil, Some ("KeyError: " ++ name))
    end.

Definition Fmt := Fmt Sprintf getElement.

End Host.

(** ** The older formatter file

    [Format], [FormatMap] and [FormatStruct] with their own [ff], [doFormat]
    and [getArg].  This file calls [clearflags] and [render] of a renderer
    that is not among the sources; both are parameters.  The line written to
    standard output by [getArg] in the record case is not part of the state
    modelled here. *)
Module Legacy.

Inductive argSource := useMap | useList | useStruct.

Record ff : Type := mkFF {
  buf : buffer;
  argSrc : argSource;
  argList : list value;
  listPos : nat;
  argMap : string -> option value;
  argStruct : value;
  r : renderer
}.

Definition setBuf (f : ff) (b : buffer) : ff :=
  mkFF b (argSrc f) (argList f) (listPos f) (argMap f) (argStruct f) (r f).
Definition setR (f : ff) (x : renderer) : ff :=
  mkFF (buf f) (argSrc f) (argList f) (listPos f) (argMap f) (argStruct f) x.
Definition setListPos (f : ff) (n : nat) : ff :=
  mkFF (buf f) (argSrc f) (argList f) n (argMap f) (argStruct f) (r f).

(** [func newFormater() *ff] *)
Definition newFormater : ff :=
  mkFF "" useMap [] 0 (fun _ => None) VNil (mkRender VNil zeroFlags).

Fixpoint fieldByName (fields : list (string * value)) (name : string)
  : option value :=
  match fields with
  | [] => None
  | (n, v) :: rest =>
      if (n =? name)%string then Some v else fieldByName rest name
  end.

(** A field is exported when its name starts with an upper-case letter
    (taken among the ASCII letters here; Go takes every upper-case letter
    of Unicode). *)
Definition exported (name : string) : bool :=
  match name with
  | String c _ => (65 <=? nat_of_ascii c)%nat && (nat_of_ascii c <=? 90)%nat
  | EmptyString => false
  end.

(** [func (f *ff) getArg(argName string) (interface{}, error)] *)
Definition getArg (f : ff) (argName : string)
  : call (ff * (value * option error)) :=
  match argSrc f with
  | useList =>
      if (argName =? "")%string then
        match nthValue (argList f) (listPos f) with
        | Some arg => Return (setListPos f (listPos f + 1), (arg, None))
        | None =>
            Return (f, (VNil, Some ("Format index ("
                      ++ strconv.Itoa (Z.of_nat (listPos f))
                      ++ ") out of range ("
                      ++ strconv.Itoa (Z.of_nat (List.length (argList f)))
                      ++ ")")))
        end
      else
        match strconv.Atoi argName with
        | Err err =>
            Return (f, (VNil, Some ("Invalid index: " ++ argName ++ ": "
                                    ++ err)))
        | Ok pos =>
            if (pos <? Z.of_nat (List.length (argList f)))%Z then
              if (pos <? 0)%Z then Panics "index out of range"
              else
                match nthValue (argList f) (Z.to_nat pos) with
                | Some arg => Return (f, (arg, None))
                | None => Panics "index out of range"
                end
            else
              Return (f, (VNil, Some ("Format index ("
                        ++ strconv.Itoa pos ++ ") out of range ("
                        ++ strconv.Itoa (Z.of_nat (List.length (argList f)))
                        ++ ")")))
        end
  | useMap =>
      match argMap f argName with
      | Some arg => Return (f, (arg, None))
      | None => Return (f, (VNil, Some ("KeyError: " ++ argName)))
      end
  | useStruct =>
      match argStruct f with
      | VStruct fields =>
          match fieldByName fields argName with
          | Some arg =>
              if exported argName then Return (f, (arg, None))
              else Panics "reflect.Value.Interface: cannot return value obtained from unexported field or method"
          | None => Return (f, (VNil, Some ("KeyError: " ++ argName)))
          end
      | _ => Panics "reflect: call of reflect.Value.FieldByName on a value that is not a struct"
      end
  end.

Section Engine.

Variable clearflags : renderer -> renderer.
Variable render : renderer -> buffer -> call (renderer * buffer * option error).

(** The outer loop of [doFormat]. *)
Fixpoint doFormat_loop (fuel : nat) (format : string) (i : nat) (f : ff)
  : call (ff * option error) :=
  let end_ := String.length format in
  if (i <? end_)%nat then
    match fuel with
    | O => OutOfFuel
    | S fuel' =>
        let cachei := i in
        '(i, cachei, b, e) <-
          scanOpen (end_ - i) format end_ i cachei (buf f) ;;
        let f := setBuf f b in
        match e with
        | Some err => Return (f, Some err)
        | None =>
            lit <-
              (if (cachei <? i)%nat then slice format cachei i
               else Return "") ;;
            let f := if (cachei <? i)%nat
                     then setBuf f (WriteString (buf f) lit) else f in
            if (end_ <=? i)%nat then Return (f, None)
            else
              let i := (i + 1)%nat in
              c <- byteAt format i ;;
              if Ascii.eqb c "{" then
                let f := setBuf f (WriteString (buf f) "{") in
                doFormat_loop fuel' format (i + 1) f
              else
                let f := setR f (clearflags (r f)) in
                let cachei := i in
                i <- scanClose format (end_ - i) i ;;
                c <- byteAt format i ;;
                if negb (Ascii.eqb c "}") then
                  Return (f, Some (errors.New
                             "Single '{' encountered in format string"))
                else
                  argName <- slice format cachei i ;;
                  '(f, (v, e)) <- getArg f argName ;;
                  let f := setR f (setVal (r f) v) in
                  match e with
                  | Some err => Return (f, Some err)
                  | None =>
                      '(r', b, e) <- render (r f) (buf f) ;;
                      let f := setBuf (setR f r') b in
                      match e with
                      | Some err => Return (f, Some err)
                      | None => doFormat_loop fuel' format (i + 1) f
                      end
                  end
        end
    end
  else Return (f, None).

(** [func (f *ff) doFormat(format string) error] *)
Definition doFormat (f : ff) (format : string)
  : call (ff * option error) :=
  doFormat_loop (String.length format + 1) format 0 f.

Definition finish (c : call (ff * option error))
  : call (string * option error) :=
  '(f, err) <- c ;;
  match err with
  | Some e => Return ("", Some e)
  | None => let s := buf f in Return (s, None)
  end.

(** [func Format(format string, a ...interface{}) (string, error)] *)
Definition Format (format : string) (a : list value)
  : call (string * option error) :=
  let f := newFormater in
  let f := mkFF (buf f) useList a (listPos f) (argMap f) (argStruct f)
             (r f) in
  finish (doFormat f format).

(** [func FormatMap(format string, a map[string]interface{})
    (string, error)] *)
Definition FormatMap (format : string) (a : string -> option value)
  : call (string * option error) :=
  let f := newFormater in
  let f := mkFF (buf f) useMap (argList f) (listPos f) a (argStruct f)
             (r f) in
  finish (doFormat f format).

(** [func FormatStruct(format string, a interface{}) (string, error)] *)
Definition FormatStruct (format : string) (a : value)
  : call (string * option error) :=
  match a with
  | VStruct _ =>
      let f := newFormater in
      let f := mkFF (buf f) useStruct (argList f) (listPos f) (argMap f)
                 a (r f) in
      finish (doFormat f format)
  | _ =>
      Return ("", Some (errors.New
                          "FormatStruct must be called with a struct"))
  end.

Definition orPanic (c : call (string * option error)) : call string :=
  '(s, err) <- c ;;
  match err with
  | Some e => Panics e
  | None => Return s
  end.

(** [func MustFormat(format string, a ...interface{}) string] *)
Definition MustFormat (format : string) (a : list value) : call string :=
  orPanic (Format format a).

(** [func MustFormatMap(format string, a map[string]interface{}) string] *)
Definition MustFormatMap (format : string) (a : string -> option value)
  : call string :=
  orPanic (FormatMap format a).

(** [func MustFormatStruct(format string, a interface{}) string] *)
Definition MustFormatStruct (format : string) (a : value) : call string :=
  orPanic (FormatStruct format a).

End Engine.

End Legacy.

(** ** The grammar of a format specification, in the words of the
    specification

    Seven stages run left to right over the remaining input; each takes its
    token off the front or takes nothing.  [Grammar.parse] returns the seven
    tokens and the input left over after the verb stage.  [splitFlags] is
    compared with it below ([splitFlags_refines]). *)
Module Grammar.

(** Alignment stage: a fill character followed by one of [< > = ^], or
    one of these alone. *)
Definition takeAlign (s : string) : string * string :=
  match s with
  | String c0 (String c1 t) =>
      if isAlignByte c1 then (String c0 (String c1 ""), t)
      else if isAlignByte c0 then (str1 c0, String c1 t)
      else ("", s)
  | String c0 EmptyString =>
      if isAlignByte c0 then (str1 c0, "") else ("", s)
  | EmptyString => ("", "")
  end.

(** A stage that takes one character satisfying [p]. *)
Definition takeOne (p : ascii -> bool) (s : string) : string * string :=
  match s with
  | String c t => if p c then (str1 c, t) else ("", s)
  | EmptyString => ("", "")
  end.

(** Width stage: the maximal run of decimal digits. *)
Fixpoint takeDigits (s : string) : string * string :=
  match s with
  | String c t =>
      if isDigit c
      then let '(d, rest) := takeDigits t in (String c d, rest)
      else ("", s)
  | EmptyString => ("", "")
  end.

(** Precision stage: a dot and the maximal run of digits after it. *)
Definition takePrecision (s : string) : string * string :=
  match s with
  | String c t =>
      if Ascii.eqb c "."
      then let '(d, rest) := takeDigits t in (String c d, rest)
      else ("", s)
  | EmptyString => ("", "")
  end.

Definition isSignByte (c : ascii) : bool := memBytes c "+- ".

Record tokens : Type := mkTokens {
  t_align : string;
  t_sign : string;
  t_radix : string;
  t_zeroPad : string;
  t_minWidth : string;
  t_precision : string;
  t_verb : string;
  leftover : string
}.

Definition parse (spec : string) : tokens :=
  let '(al, s) := takeAlign spec in
  let '(sg, s) := takeOne isSignByte s in
  let '(rd, s) := takeOne (Ascii.eqb "#") s in
  let '(zp, s) := takeOne (Ascii.eqb "0") s in
  let '(mw, s) := takeDigits s in
  let '(pr, s) := takePrecision s in
  let '(vb, s) := takeOne validFlags s in
  mkTokens al sg rd zp mw pr vb s.

(** The result that the specification asks of the parser: the tokens, and
    an error naming the specification when input is left over. *)
Definition result (spec : string) : splitResult :=
  let t := parse spec in
  mkSplit (t_align t) (t_sign t) (t_radix t) (t_zeroPad t) (t_minWidth t)
    (t_precision t) (t_verb t)
    (if (leftover t =? "")%string then None
     else Some ("Could not decode format specification: " ++ spec)).

End Grammar.

(** ** Assumptions on the two parameters *)

(** The resolver hands out the positional arguments in order. *)
Definition positional
  (getElement : string -> nat -> list value -> value * option error) : Prop :=
  forall args k v, nthValue args k = Some v ->
    getElement "" k args = (v, None).

(** The host formatter prints strings and errors as they are under the
    default verb. *)
Definition plainText (Sprintf : string -> value -> string) : Prop :=
  (forall s, Sprintf "%v" (VString s) = s)
  /\ (forall e, Sprintf "%v" (VError e) = e).

(** ** Notions used in the statements below *)

(** [tiles parts i s]: the strings [parts] are the consecutive slices of [s]
    that start at index [i] and end at the end of [s]. *)
Fixpoint tiles (parts : list string) (i : nat) (s : string) : Prop :=
  match parts with
  | [] => i = String.length s
  | p :: ps =>
      slice s i (i + String.length p) = Return p
      /\ tiles ps (i + String.length p) s
  end.

(** The seven strings returned by [splitFlags], in order. *)
Definition parts (sp : splitResult) : list string :=
  [ret_align sp; ret_sign sp; ret_radix sp; ret_zeroPad sp;
   ret_minWidth sp; ret_precision sp; ret_verb sp].

(** The values of type [int64]. *)
Definition isInt64 (z : Z) : Prop := (minInt64 <= z <= maxInt64)%Z.

(** A bound on the widths for which padding is asserted to return:
    [math.MaxInt32].  The model of [strings.Repeat] has the two panics of
    the library function but not the failure of the allocation of its
    result, which the Go runtime refuses far below [maxInt64]; below this
    bound the result is at most 2 GiB. *)
Definition maxPadWidth : Z := 2147483647.

(** The fill text of [WriteAlignedString]. *)
Definition fillText (fillChar : rune) : string :=
  if (fillChar =? 0)%Z then " " else utf8.string_of_rune fillChar.

(** The minimum width a directive asks for, as [render] reads it. *)
Definition requestedWidth (f : flags) : result Z :=
  if (minWidth f =? "")%string then Ok 0%Z
  else strconv.ParseInt (minWidth f).

(** Two directives that differ at most in [minWidth] and [precision]. *)
Definition sameLayout (f g : flags) : Prop :=
  fillChar f = fillChar g /\ align f = align g /\ sign f = sign g
  /\ showRadix f = showRadix g.

(** The error of [splitFlags]. *)
Definition decodeError (flags : string) : error :=
  "Could not decode format specification: " ++ flags.

(** The directive of a field with an empty specification. *)
Definition defaultFlags : flags :=
  mkFlags 0%Z noAlign "" false "" "" "v" false.

(** The host formatter prints integers in decimal under the default
    verb. *)
Definition decimalInts (Sprintf : string -> value -> string) : Prop :=
  forall n, Sprintf "%v" (VInt n) = strconv.Itoa n.

(** The binary64 values 0.5, -0.5 and the one nearest to 0.005. *)
Definition float_half : spec_float :=
  S754_finite false 4503599627370496 (-53).
Definition float_neg_half : spec_float :=
  S754_finite true 4503599627370496 (-53).
Definition float_0_005 : spec_float :=
  S754_finite false 5764607523034235 (-60).

(** The binary64 value 2^63, the least one whose integer part is beyond
    [int64]. *)
Definition float_two63 : spec_float :=
  S754_finite false 4503599627370496 11.

(** The percent transform in the words of the specification, on the text
    [ip.d1 d2 t] with integer part [ip] of value [n]: the point moves two
    places to the right; an integer part that is zero is dropped, and so is
    a zero left in front of the shifted digits; the point is dropped when no
    digit is left after it. *)
Definition shiftPoint (ip : string) (n : Z) (d1 d2 : ascii) (t : string)
  : string :=
  (if (n =? 0)%Z
   then if Ascii.eqb d1 "0" then str1 d2 else String d1 (str1 d2)
   else ip ++ String d1 (str1 d2))
  ++ (if (t =? "")%string then "" else "." ++ t) ++ "%".

(** ** Templates as sequences of segments

    The reading of a template that [doFormat] implements with its index
    loops, written as data: literal text, the two escapes [{{] and [}}],
    and replacement fields [{body}]; a template ends at its end, or breaks
    off at a closing brace that stands alone or at an opening brace that
    is never closed. *)
Inductive segment : Type :=
| Lit (s : string)
| OpenEsc
| CloseEsc
| Field (body : string).

Inductive terminal : Type :=
| Complete
| Stray (tail : string)
| Unclosed (body : string).

Definition segmentText (g : segment) : string :=
  match g with
  | Lit s => s
  | OpenEsc => "{{"
  | CloseEsc => "}}"
  | Field body => "{" ++ body ++ "}"
  end.

Definition terminalText (t : terminal) : string :=
  match t with
  | Complete => ""
  | Stray tail => "}" ++ tail
  | Unclosed body => "{" ++ body
  end.

Fixpoint assemble (segs : list segment) : string :=
  match segs with
  | [] => ""
  | g :: rest => segmentText g ++ assemble rest
  end.

(** Literal text holds no brace; the body of a field holds no closing
    brace and does not start with an opening one. *)
Definition wellFormed (g : segment) : bool :=
  match g with
  | Lit s => negb (memBytes "{" s) && negb (memBytes "}" s)
  | Field body => negb (memBytes "}" body) && negb (startsWith body "{")
  | OpenEsc | CloseEsc => true
  end.

(** A closing brace stands alone when no second one follows it. *)
Definition wellFormedEnd (t : terminal) : bool :=
  match t with
  | Complete => true
  | Stray tail => negb (startsWith tail "}")
  | Unclosed body => negb (memBytes "}" body) && negb (startsWith body "{")
  end.

(** The text that the leading literal segments and [}}] escapes of a
    template stand for, and the segments after them. *)
Fixpoint litText (segs : list segment) : string :=
  match segs with
  | Lit s :: rest => s ++ litText rest
  | CloseEsc :: rest => "}" ++ litText rest
  | _ => ""
  end.

Fixpoint afterLit (segs : list segment) : list segment :=
  match segs with
  | Lit _ :: rest | CloseEsc :: rest => afterLit rest
  | _ => segs
  end.

Section Segments.

Variable Sprintf : string -> value -> string.
Variable getElement : string -> nat -> list value -> value * option error.
Variable ErrorRec : string -> list value -> call error.
Variable MustRec : string -> list value -> call string.

(** What [doFormat] does with the text between the braces of a field:
    lines 124 to 137 of the formatter file. *)
Definition fieldStep (f : ff) (field : string) : call (ff * option error) :=
  let '(name, spec) := splitFormat field in
  let '(f, (v, e)) := getArg getElement f name in
  let f := setR f (setVal (r f) v) in
  match e with
  | Some err => Return (f, Some err)
  | None =>
      let f := setR f (clearFlags (r f)) in
      '(r', e) <- parseFlags ErrorRec (r f) spec ;;
      let f := setR f r' in
      match e with
      | Some err => Return (f, Some err)
      | None =>
          '(r', b, e) <- render Sprintf ErrorRec MustRec (r f) (buf f) ;;
          Return (setBuf (setR f r') b, e)
      end
  end.

(** The expansion of a sequence of segments, left to right; the first
    error ends it. *)
Fixpoint expand (segs : list segment) (f : ff) : call (ff * option error) :=
  match segs with
  | [] => Return (f, None)
  | Lit s :: rest => expand rest (setBuf f (WriteString (buf f) s))
  | OpenEsc :: rest => expand rest (setBuf f (WriteString (buf f) "{"))
  | CloseEsc :: rest => expand rest (setBuf f (WriteString (buf f) "}"))
  | Field body :: rest =>
      '(f, e) <- fieldStep f body ;;
      match e with
      | Some err => Return (f, Some err)
      | None => expand rest f
      end
  end.

End Segments.

(** What [Fmt] returns for the state in which [doFormat] ends. *)
Definition project (c : call (ff * option error))
  : call (string * option error) :=
  '(f, err) <- c ;;
  match err with
  | Some e => Return ("", Some e)
  | None => Return (buf f, None)
  end.

(** The result of a template whose segments expand as [c] and which ends
    as [t]. *)
Definition finishWith (t : terminal) (c : call (ff * option error))
  : call (string * option error) :=
  '(f, err) <- c ;;
  match err with
  | Some e => Return ("", Some e)
  | None =>
      match t with
      | Complete => Return (buf f, None)
      | Stray _ =>
          Return ("", Some "Single '}' encountered in format string")
      | Unclosed _ => Panics "index out of range"
      end
  end.

(** The segments of a template, read off its text; [n] bounds the number
    of segments. *)
Fixpoint tokenize (n : nat) (s : string) : list segment * terminal :=
  match n with
  | O => ([], Complete)
  | S n' =>
      match s with
      | EmptyString => ([], Complete)
      | String c t =>
          if Ascii.eqb c "{" then
            if startsWith t "{"
            then let '(segs, e) := tokenize n' (drop 1 t) in
                 (OpenEsc :: segs, e)
            else
              match strings.indexByte "}" t with
              | Some k =>
                  let '(segs, e) := tokenize n' (drop (S k) t) in
                  (Field (take k t) :: segs, e)
              | None => ([], Unclosed t)
              end
          else if Ascii.eqb c "}" then
            if startsWith t "}"
            then let '(segs, e) := tokenize n' (drop 1 t) in
                 (CloseEsc :: segs, e)
            else ([], Stray t)
          else let '(segs, e) := tokenize n' t in (Lit (str1 c) :: segs, e)
      end
  end.

(** Every brace doubled: the way to write a text as a template. *)
Fixpoint escape (s : string) : string :=
  match s with
  | EmptyString => ""
  | String c t =>
      (if Ascii.eqb c "{" then "{{"
       else if Ascii.eqb c "}" then "}}" else str1 c) ++ escape t
  end.

(** The template of literal texts separated by plain fields [{}], and the
    text expected from it: each field replaced by the default rendering of
    the next argument. *)
Fixpoint plainTemplate (lits : list string) (last : string) : string :=
  match lits with
  | [] => last
  | l :: rest => l ++ "{}" ++ plainTemplate rest last
  end.

Fixpoint plainOutput (Sprintf : string -> value -> string)
  (lits : list string) (vals : list value) (last : string) : string :=
  match lits, vals with
  | l :: ls, v :: vs => l ++ Sprintf "%v" v ++ plainOutput Sprintf ls vs last
  | _, _ => last
  end.

(** A text without braces. *)
Definition braceFree (s : string) : bool :=
  negb (memBytes "{" s) && negb (memBytes "}" s).

(** The segments of [plainTemplate]. *)
Fixpoint plainSegments (lits : list string) (last : string) : list segment :=
  match lits with
  | [] => [Lit last]
  | l :: rest => Lit l :: Field "" :: plainSegments rest last
  end.

(** ** The directive of a specification, from its tokens *)

(** The alignment named by the last byte of the alignment token. *)
Definition alignOf (al : string) : alignment :=
  match al with
  | EmptyString => noAlign
  | String c EmptyString | String _ (String c _) =>
      if Ascii.eqb c "<" then left
      else if Ascii.eqb c ">" then right
      else if Ascii.eqb c "=" then padSign
      else center
  end.

(** The fill character of an alignment token of two bytes: its first
    byte when that is ASCII, and the replacement character otherwise. *)
Definition fillOf (al : string) : rune :=
  match al with
  | String c0 (String _ _) =>
      if (byteZ c0 <? 128)%Z then byteZ c0 else utf8.RuneError
  | _ => 0%Z
  end.

(** The verb handed to the host formatter. *)
Definition verbOf (vb : string) : string :=
  if (vb =? "")%string then "v"
  else if (vb =? "%")%string then "f"
  else if (vb =? "r")%string then "#v"
  else if (vb =? "t")%string then "T"
  else if (vb =? "s")%string then "+v"
  else vb.

(** The directive that the tokens of a specification stand for. *)
Definition directive (tk : Grammar.tokens) : flags :=
  let al := Grammar.t_align tk in
  let zero := negb (Grammar.t_zeroPad tk =? "")%string in
  mkFlags
    (if zero && (fillOf al =? 0)%Z then byteZ "0" else fillOf al)
    (if zero && (al =? "")%string then padSign else alignOf al)
    (if (Grammar.t_sign tk =? "-")%string then "" else Grammar.t_sign tk)
    ((Grammar.t_radix tk =? "#")%string
     && negb (Grammar.t_verb tk =? "d")%string)
    (Grammar.t_minWidth tk)
    (Grammar.t_precision tk)
    (verbOf (Grammar.t_verb tk))
    (Grammar.t_verb tk =? "%")%string.

(** The updates that [parseFlags] makes to the renderer for the tokens of
    a specification, in its order: lines 153 to 214 of [render.go] without
    the two branches that the tokens of the grammar never reach. *)
Definition applyTokens (r : renderer) (tk : Grammar.tokens) : renderer :=
  let al := Grammar.t_align tk in
  let '(r, a) :=
    if (1 <? String.length al)%nat
    then (setFillChar r (fst (utf8.DecodeRuneInString al)),
          drop (snd (utf8.DecodeRuneInString al)) al)
    else (r, al) in
  let r := if negb (a =? "")%string then setAlign r (alignOf a) else r in
  let r :=
    if negb (Grammar.t_sign tk =? "")%string
    then
      if negb (Grammar.t_sign tk =? "-")%string
      then setSign r (Grammar.t_sign tk) else r
    else r in
  let r :=
    if (Grammar.t_radix tk =? "#")%string then setShowRadix r true else r in
  let r :=
    if negb (Grammar.t_zeroPad tk =? "")%string
    then
      let r := if (a =? "")%string then setAlign r padSign else r in
      if (fillChar (fl r) =? 0)%Z then setFillChar r (byteZ "0") else r
    else r in
  let r :=
    if negb (Grammar.t_minWidth tk =? "")%string
    then setMinWidth r (Grammar.t_minWidth tk) else r in
  let r :=
    if negb (Grammar.t_precision tk =? "")%string
    then setPrecision r (Grammar.t_precision tk) else r in
  let vb := Grammar.t_verb tk in
  if (vb =? "")%string then r
  else if (vb =? "d")%string then setShowRadix (setRenderVerb r vb) false
  else if (vb =? "%")%string then setRenderVerb (setPercent r true) "f"
  else if (vb =? "r")%string then setRenderVerb r "#v"
  else if (vb =? "t")%string then setRenderVerb r "T"
  else if (vb =? "s")%string then setRenderVerb r "+v"
  else setRenderVerb r vb.

(** ** The older formatter on segments

    The same reading of a template for [doFormat] of the older file: the
    text between the braces of a field is the name of the argument as a
    whole, and the renderer has no flags to parse. *)
Module LegacySegments.

Section Segments.

Variable clearflags : renderer -> renderer.
Variable render : renderer -> buffer
                  -> call (renderer * buffer * option error).

(** What [doFormat] does with the name of a field: lines 87 and 94 to
    103 of the older file. *)
Definition fieldStep (f : Legacy.ff) (argName : string)
  : call (Legacy.ff * option error) :=
  let f := Legacy.setR f (clearflags (Legacy.r f)) in
  '(f, (v, e)) <- Legacy.getArg f argName ;;
  let f := Legacy.setR f (setVal (Legacy.r f) v) in
  match e with
  | Some err => Return (f, Some err)
  | None =>
      '(r', b, e) <- render (Legacy.r f) (Legacy.buf f) ;;
      Return (Legacy.setBuf (Legacy.setR f r') b, e)
  end.

Fixpoint expand (segs : list segment) (f : Legacy.ff)
  : call (Legacy.ff * option error) :=
  match segs with
  | [] => Return (f, None)
  | Lit s :: rest =>
      expand rest (Legacy.setBuf f (WriteString (Legacy.buf f) s))
  | OpenEsc :: rest =>
      expand rest (Legacy.setBuf f (WriteString (Legacy.buf f) "{"))
  | CloseEsc :: rest =>
      expand rest (Legacy.setBuf f (WriteString (Legacy.buf f) "}"))
  | Field body :: rest =>
      '(f, e) <- fieldStep f body ;;
      match e with
      | Some err => Return (f, Some err)
      | None => expand rest f
      end
  end.

End Segments.

(** The result of a template whose segments expand as [c] and which ends
    as [t]. *)
Definition finishWith (t : terminal) (c : call (Legacy.ff * option error))
  : call (string * option error) :=
  '(f, err) <- c ;;
  match err with
  | Some e => Return ("", Some e)
  | None =>
      match t with
      | Complete => Return (Legacy.buf f, None)
      | Stray _ =>
          Return ("", Some "Single '}' encountered in format string")
      | Unclosed _ => Panics "index out of range"
      end
  end.

(** The states in which the three entry points start [doFormat]. *)
Definition listState (a : list value) : Legacy.ff :=
  Legacy.mkFF "" Legacy.useList a 0 (fun _ => None) VNil
    (mkRender VNil zeroFlags).
Definition mapState (m : string -> option value) : Legacy.ff :=
  Legacy.mkFF "" Legacy.useMap [] 0 m VNil (mkRender VNil zeroFlags).
Definition structState (a : value) : Legacy.ff :=
  Legacy.mkFF "" Legacy.useStruct [] 0 (fun _ => None) a
    (mkRender VNil zeroFlags).

End LegacySegments.

(** A state of the formatter with [p] put in front of its buffer. *)
Definition inFront (p : string) (f : ff) : ff := setBuf f (p ++ buf f).

(** * Properties *)

(** * Properties *)

(** ** Byte sequences *)

Lemma length_append (a b : string) :
  String.length (a ++ b) = String.length a + String.length b.
Proof. induction a as [|c a IH]; simpl; [reflexivity | now rewrite IH]. Qed.

Lemma append_nil_r (a : string) : a ++ "" = a.
Proof. induction a as [|c a IH]; simpl; [reflexivity | now rewrite IH]. Qed.

Lemma append_assoc (a b c : string) : (a ++ b) ++ c = a ++ b ++ c.
Proof. induction a as [|x a IH]; simpl; [reflexivity | now rewrite IH]. Qed.

Lemma drop_append (a b : string) : drop (String.length a) (a ++ b) = b.
Proof. induction a as [|c a IH]; simpl; [reflexivity | exact IH]. Qed.

Lemma take_append (a b : string) : take (String.length a) (a ++ b) = a.
Proof.
  induction a as [|c a IH]; simpl.
  - destruct b; reflexivity.
  - now rewrite IH.
Qed.

Lemma take_all (a : string) : take (String.length a) a = a.
Proof. rewrite <- (append_nil_r a) at 2. apply take_append. Qed.

Lemma drop_0 (a : string) : drop 0 a = a.
Proof. reflexivity. Qed.

Lemma get_append (a : string) (c : ascii) (b : string) :
  get (String.length a) (a ++ String c b) = Some c.
Proof. induction a as [|x a IH]; simpl; [reflexivity | exact IH]. Qed.

Lemma get_none (a : string) (n : nat) :
  String.length a <= n -> get n a = None.
Proof.
  revert n; induction a as [|x a IH]; intros n H; simpl in *.
  - reflexivity.
  - destruct n as [|n]; [lia | apply IH; lia].
Qed.

Lemma byteAt_append (a : string) (c : ascii) (b : string) :
  byteAt (a ++ String c b) (String.length a) = Return c.
Proof. unfold byteAt. now rewrite get_append. Qed.

Lemma byteAt_end (a : string) (n : nat) :
  String.length a <= n -> byteAt a n = Panics "index out of range".
Proof. intros H. unfold byteAt. now rewrite get_none. Qed.

Lemma slice_append (a t b : string) :
  slice (a ++ t ++ b) (String.length a) (String.length a + String.length t)
  = Return t.
Proof.
  unfold slice. rewrite !length_append.
  replace (String.length a <=? String.length a + String.length t)%nat
    with true by (symmetry; apply Nat.leb_le; lia).
  replace (String.length a + String.length t
           <=? String.length a + (String.length t + String.length b))%nat
    with true by (symmetry; apply Nat.leb_le; lia).
  simpl. rewrite drop_append.
  replace (String.length a + String.length t - String.length a)
    with (String.length t) by lia.
  now rewrite take_append.
Qed.

Lemma slice_prefix (t b : string) :
  slice (t ++ b) 0 (String.length t) = Return t.
Proof. exact (slice_append "" t b). Qed.

Lemma sliceFrom_append (a b : string) :
  sliceFrom (a ++ b) (String.length a) = Return b.
Proof.
  unfold sliceFrom. rewrite length_append.
  pose proof (slice_append a b "") as H.
  now rewrite append_nil_r in H.
Qed.

Lemma length_drop (n : nat) (s : string) :
  String.length (drop n s) = String.length s - n.
Proof.
  revert s; induction n as [|n IH]; intros s; simpl; [lia|].
  destruct s as [|c s]; simpl; [reflexivity | apply IH].
Qed.

Lemma length_take (n : nat) (s : string) :
  n <= String.length s -> String.length (take n s) = n.
Proof.
  revert s; induction n as [|n IH]; intros s H; simpl; [reflexivity|].
  destruct s as [|c s]; simpl in *; [lia|].
  rewrite IH; [reflexivity | lia].
Qed.

Lemma slice_length (s : string) (i j : nat) (p : string) :
  slice s i j = Return p -> String.length p = j - i.
Proof.
  unfold slice. destruct (_ && _) eqn:Hb; [|discriminate].
  apply andb_true_iff in Hb. destruct Hb as [Hij Hj].
  apply Nat.leb_le in Hij. apply Nat.leb_le in Hj.
  intros H; inversion H; subst.
  apply length_take. rewrite length_drop. lia.
Qed.

(** ** 64-bit integers *)

Lemma wrap64_id (z : Z) : isInt64 z -> wrap64 z = z.
Proof.
  unfold isInt64, wrap64, minInt64, maxInt64. intros H.
  rewrite Z.mod_small; lia.
Qed.

(** ** The buffer writer *)

Lemma length_repeat_string (s : string) (n : nat) :
  String.length (strings.repeat_string s n) = n * String.length s.
Proof.
  induction n as [|n IH]; simpl; [reflexivity|].
  rewrite length_append, IH. lia.
Qed.

Lemma Repeat_inv (s : string) (n : Z) (p : string) :
  strings.Repeat s n = Return p ->
  (0 <= n)%Z /\ p = strings.repeat_string s (Z.to_nat n).
Proof.
  unfold strings.Repeat.
  destruct (n <? 0)%Z eqn:Hn; [discriminate|].
  destruct (maxInt64 <? _)%Z; [discriminate|].
  intros H; inversion H; subst. split; [lia | reflexivity].
Qed.

Lemma length_encode_valid (c : rune) :
  1 <= String.length (utf8.encode_valid c).
Proof.
  unfold utf8.encode_valid.
  repeat match goal with |- context [if ?b then _ else _] => destruct b end;
    simpl; lia.
Qed.

Lemma length_string_of_rune (c : rune) :
  1 <= String.length (utf8.string_of_rune c).
Proof.
  unfold utf8.string_of_rune.
  destruct (_ || _); apply length_encode_valid.
Qed.

Lemma length_fillText (c : rune) : 1 <= String.length (fillText c).
Proof.
  unfold fillText. destruct (c =? 0)%Z; [simpl; lia|].
  apply length_string_of_rune.
Qed.

Lemma length_pad (c : rune) (n : Z) (p : string) :
  strings.Repeat (fillText c) n = Return p ->
  (n <= Z.of_nat (String.length p))%Z.
Proof.
  intros H. apply Repeat_inv in H. destruct H as [Hn ->].
  rewrite length_repeat_string.
  pose proof (length_fillText c). nia.
Qed.

(** The cases of the method that do not recurse: whatever stands for the
    recursive calls, the output extends the buffer and, with an alignment,
    fills the width. *)
Lemma WriteAlignedString_body_flat self b s a w c b' :
  a <> padSign ->
  WriteAlignedString_body self b s a w c = Return b' ->
  exists out, b' = b ++ out
    /\ (Z.of_nat (String.length s) <= Z.of_nat (String.length out))%Z
    /\ (a <> noAlign -> (w <= Z.of_nat (String.length out))%Z).
Proof.
  intros Hps. unfold WriteAlignedString_body, WriteString.
  fold (fillText c).
  destruct ((w <=? Z.of_nat (String.length s))%Z) eqn:Hw; simpl.
  - intros H; inversion H; subst. exists s. split; [reflexivity|].
    split; [lia|]. intros _. lia.
  - destruct a; simpl; try congruence.
    + intros H; inversion H; subst. exists s. split; [reflexivity|].
      split; [lia|]. intros Hn; congruence.
    + destruct (strings.Repeat _ _) as [pad| |] eqn:Hp; simpl; try discriminate.
      intros H; inversion H; subst. apply length_pad in Hp.
      exists (s ++ pad). rewrite append_assoc. split; [reflexivity|].
      rewrite length_append. split; [lia|]. intros _. lia.
    + destruct (strings.Repeat _ _) as [pad| |] eqn:Hp; simpl; try discriminate.
      intros H; inversion H; subst. apply length_pad in Hp.
      exists (pad ++ s). rewrite append_assoc. split; [reflexivity|].
      rewrite length_append. split; [lia|]. intros _. lia.
    + destruct (strings.Repeat _ ((w - _) / 2)) as [pad| |] eqn:Hp;
        simpl; try discriminate.
      destruct (strings.Repeat _ (w - _ - _)) as [pad'| |] eqn:Hp';
        simpl; try discriminate.
      intros H; inversion H; subst.
      apply length_pad in Hp. apply length_pad in Hp'.
      exists (pad ++ s ++ pad'). rewrite !append_assoc.
      split; [reflexivity|].
      rewrite !length_append. split; [lia|]. intros _. lia.
Qed.

Lemma sliceFrom_cons (c : ascii) (t : string) :
  sliceFrom (String c t) 1 = Return t.
Proof. exact (sliceFrom_append (str1 c) t). Qed.

(** The recursion equation of the method: the model is a fixed point of the
    body of the source. *)
Lemma WriteAlignedString_unfold b s a w c :
  WriteAlignedString b s a w c
  = WriteAlignedString_body WriteAlignedString b s a w c.
Proof.
  unfold WriteAlignedString at 1.
  unfold WriteAlignedString_body at 1.
  unfold WriteAlignedString_body at 3.
  destruct (_ || _); [reflexivity|].
  destruct a; reflexivity.
Qed.

(** What [WriteAlignedString] appends extends the buffer, holds the whole
    text and, with any alignment but [noAlign], is at least [width] bytes
    long. *)
Lemma WriteAlignedString_extends b s a w c b' :
  isInt64 w ->
  WriteAlignedString b s a w c = Return b' ->
  exists out, b' = b ++ out
    /\ (Z.of_nat (String.length s) <= Z.of_nat (String.length out))%Z
    /\ (a <> noAlign -> (w <= Z.of_nat (String.length out))%Z).
Proof.
  intros Hw.
  destruct (alignment_eqb a padSign) eqn:Ha.
  - destruct a; try discriminate. clear Ha.
    unfold WriteAlignedString.
    unfold WriteAlignedString_body at 1. unfold WriteString.
    destruct ((w <=? Z.of_nat (String.length s))%Z) eqn:Hle; simpl.
    + intros H; inversion H; subst. exists s.
      split; [reflexivity|]. split; [lia|]. intros _; lia.
    + destruct s as [|c0 t]; [discriminate|].
      unfold byteAt at 1. simpl get. cbv beta iota. unfold bind at 1.
      assert (Hlt : (Z.of_nat (String.length (String c0 t)) < w)%Z) by lia.
      simpl String.length in Hlt.
      destruct (_ || _).
      * rewrite sliceFrom_cons. unfold bind at 1.
        intros H. apply WriteAlignedString_body_flat in H; [|discriminate].
        destruct H as (out & -> & Hs & Hwd).
        exists (str1 c0 ++ out). rewrite append_assoc.
        split; [reflexivity|].
        rewrite wrap64_id in Hwd
          by (unfold isInt64, minInt64, maxInt64 in *; lia).
        specialize (Hwd ltac:(discriminate)).
        simpl String.length. split; [lia|]. intros _. lia.
      * intros H. apply WriteAlignedString_body_flat in H; [|discriminate].
        destruct H as (out & -> & Hs & Hwd).
        exists out. split; [reflexivity|]. split; [exact Hs|].
        intros _. apply Hwd. discriminate.
  - unfold WriteAlignedString. intros H.
    apply WriteAlignedString_body_flat in H; [exact H|].
    intros ->. discriminate.
Qed.

(** [WriteAlignedString] with [padSign] on the empty text indexes [s[0]]
    whenever a positive width is asked for. *)
Lemma WriteAlignedString_padSign_empty b w c :
  (0 < w)%Z ->
  WriteAlignedString b "" padSign w c = Panics "index out of range".
Proof.
  intros H. unfold WriteAlignedString, WriteAlignedString_body.
  simpl String.length. 
  replace (w <=? Z.of_nat 0)%Z with false
    by (symmetry; apply Z.leb_gt; simpl; lia).
  reflexivity.
Qed.

Lemma length_fillText_le (c : rune) : String.length (fillText c) <= 4.
Proof.
  unfold fillText, utf8.string_of_rune, utf8.encode_valid.
  repeat match goal with |- context [if ?b then _ else _] => destruct b end;
    simpl; lia.
Qed.

Lemma Repeat_returns (c : rune) (n : Z) :
  (0 <= n)%Z -> (4 * n <= maxInt64)%Z ->
  strings.Repeat (fillText c) n
  = Return (strings.repeat_string (fillText c) (Z.to_nat n)).
Proof.
  intros H0 H4. unfold strings.Repeat.
  replace (n <? 0)%Z with false by (symmetry; apply Z.ltb_ge; lia).
  pose proof (length_fillText_le c).
  replace (maxInt64 <? _)%Z with false; [reflexivity|].
  symmetry; apply Z.ltb_ge. nia.
Qed.

Lemma WriteAlignedString_body_flat_returns self b s a w c :
  a <> padSign -> (4 * w <= maxInt64)%Z ->
  exists b', WriteAlignedString_body self b s a w c = Return b'.
Proof.
  intros Hps H4. unfold WriteAlignedString_body. fold (fillText c).
  destruct ((w <=? Z.of_nat (String.length s))%Z) eqn:Hw; simpl;
    [eexists; reflexivity|].
  apply Z.leb_gt in Hw.
  destruct a; simpl; try congruence; try (eexists; reflexivity).
  - rewrite Repeat_returns by lia. simpl. eexists; reflexivity.
  - rewrite Repeat_returns by lia. simpl. eexists; reflexivity.
  - assert (0 <= (w - Z.of_nat (String.length s)) / 2
            <= w - Z.of_nat (String.length s))%Z.
    { split; [apply Z.div_pos; lia|].
      apply Z.div_le_upper_bound; lia. }
    rewrite Repeat_returns by lia. simpl.
    rewrite Repeat_returns by lia. simpl. eexists; reflexivity.
Qed.

(** Apart from the empty text under [padSign], and with a width for which
    the padding fits an [int], the method returns. *)
Lemma WriteAlignedString_returns b s a w c :
  isInt64 w -> (4 * w <= maxInt64)%Z ->
  s <> "" \/ a <> padSign \/ (w <= 0)%Z ->
  exists b', WriteAlignedString b s a w c = Return b'.
Proof.
  intros Hw H4 Hcase.
  destruct (alignment_eqb a padSign) eqn:Ha.
  - destruct a; try discriminate. clear Ha.
    unfold WriteAlignedString.
    unfold WriteAlignedString_body at 1.
    destruct ((w <=? Z.of_nat (String.length s))%Z) eqn:Hle; simpl;
      [eexists; reflexivity|].
    apply Z.leb_gt in Hle.
    destruct s as [|c0 t].
    + simpl in Hle. destruct Hcase as [H|[H|H]]; try congruence. lia.
    + unfold byteAt at 1. simpl get. cbv beta iota. unfold bind at 1.
      destruct (_ || _).
      * rewrite sliceFrom_cons. unfold bind at 1.
        apply WriteAlignedString_body_flat_returns; [discriminate|].
        rewrite wrap64_id
          by (unfold isInt64, minInt64, maxInt64 in *; lia).
        lia.
      * apply WriteAlignedString_body_flat_returns; [discriminate | lia].
  - unfold WriteAlignedString.
    apply WriteAlignedString_body_flat_returns; [|lia].
    intros ->. discriminate.
Qed.

(** ** Integer parsing *)

Lemma digitValue_nonneg (c : ascii) :
  strconv.isDecimal c = true -> (0 <= strconv.digitValue c <= 9)%Z.
Proof.
  unfold strconv.isDecimal, strconv.digitValue, byteZ.
  rewrite andb_true_iff, !Nat.leb_le. lia.
Qed.

Lemma parseUintLoop_nonneg (s : string) : forall n un,
  (0 <= n)%Z -> strconv.parseUintLoop n s = inl un -> (0 <= un)%Z.
Proof.
  induction s as [|c s IH]; simpl; intros n un Hn H.
  - inversion H; subst; exact Hn.
  - destruct (strconv.isDecimal c) eqn:Hc; simpl in H; [|discriminate].
    destruct (_ <=? n)%Z; [discriminate|].
    destruct (_ <? _)%Z; [discriminate|].
    apply IH in H; [exact H|].
    pose proof (digitValue_nonneg c Hc). lia.
Qed.

Lemma parseSigned_range (fn s : string) (w : Z) :
  strconv.parseSigned fn s = Ok w -> isInt64 w.
Proof.
  unfold strconv.parseSigned.
  destruct s as [|c t]; [discriminate|].
  set (neg := Ascii.eqb c "-").
  match goal with
  | |- context [match ?x with EmptyString => _ | String _ _ => _ end] =>
      destruct x as [|c' t'] eqn:Hb; [discriminate|]
  end.
  destruct (strconv.parseUintLoop 0 _) as [un|e] eqn:Hp; [|discriminate].
  apply parseUintLoop_nonneg in Hp; [|lia].
  destruct neg; simpl.
  - destruct (_ <? un)%Z eqn:Hlt; [discriminate|].
    apply Z.ltb_ge in Hlt. intros H; inversion H; subst.
    unfold isInt64, minInt64, maxInt64. lia.
  - destruct (_ <=? un)%Z eqn:Hlt; [discriminate|].
    apply Z.leb_gt in Hlt. intros H; inversion H; subst.
    unfold isInt64, minInt64, maxInt64. lia.
Qed.

Lemma ParseInt_range (s : string) (w : Z) :
  strconv.ParseInt s = Ok w -> isInt64 w.
Proof. apply parseSigned_range. Qed.

(** ** The renderer *)

Lemma sameLayout_refl f : sameLayout f f.
Proof. repeat split. Qed.

Lemma sameLayout_trans f g h :
  sameLayout f g -> sameLayout g h -> sameLayout f h.
Proof.
  unfold sameLayout. intros (?&?&?&?) (?&?&?&?). repeat split; congruence.
Qed.

Ltac step :=
  match goal with
  | |- (bind ?c _ = _) -> _ => destruct c eqn:?; simpl; try discriminate
  | |- (match ?c with _ => _ end = _) -> _ =>
      destruct c eqn:?; simpl; try discriminate
  | |- Return _ = Return _ -> _ =>
      let H := fresh in intros H; inversion H; subst; clear H
  end.

Section Renderer.

Variable Sprintf : string -> value -> string.
Variable ErrorRec : string -> list value -> call error.
Variable MustRec : string -> list value -> call string.

Lemma setupPercent_inv r r' e :
  setupPercent MustRec r = Return (r', e) ->
  sameLayout (fl r) (fl r') /\ minWidth (fl r') = minWidth (fl r).
Proof.
  unfold setupPercent.
  destruct (precision (fl r) =? "")%string.
  - intros H; inversion H; subst. simpl. repeat split.
  - destruct (sliceFrom _ 1); simpl; try discriminate.
    destruct (strconv.ParseInt a).
    + destruct (MustRec _ _); simpl; try discriminate.
      intros H; inversion H; subst. simpl. repeat split.
    + intros H; inversion H; subst. repeat split.
Qed.

Lemma width_read mw w :
  (if (mw =? "")%string then Return (Ok 0%Z)
   else
     match strconv.ParseInt mw with
     | Ok w => Return (Ok w)
     | Err _ =>
         e <- ErrorRec "Can't convert width {} to int" [VString mw] ;;
         Return (Err e)
     end) = Return (Ok w) ->
  (if (mw =? "")%string then Ok 0%Z else strconv.ParseInt mw) = Ok w.
Proof.
  destruct (mw =? "")%string; [intros H; inversion H; reflexivity|].
  destruct (strconv.ParseInt mw); [intros H; inversion H; reflexivity|].
  destruct (ErrorRec _ _); simpl; intros H; inversion H.
Qed.

Lemma renderText_inv r r' str w :
  renderText Sprintf ErrorRec MustRec r = Return (r', Ok (str, w)) ->
  requestedWidth (fl r) = Ok w /\ sameLayout (fl r) (fl r').
Proof.
  unfold renderText.
  destruct (if percent (fl r) then _ else _) as [[r1 e]| |] eqn:Hsp;
    simpl; try discriminate.
  assert (H1 : sameLayout (fl r) (fl r1)
               /\ minWidth (fl r1) = minWidth (fl r)).
  { destruct (percent (fl r)).
    - eapply setupPercent_inv; eauto.
    - inversion Hsp; subst. split; [apply sameLayout_refl | reflexivity]. }
  destruct H1 as [Hl Hm].
  destruct e; [intros H; inversion H|].
  destruct (if showRadix (fl r1) then _ else _) as [prefix radix].
  unfold requestedWidth. rewrite <- Hm.
  set (r2 := if negb _ then setMinWidth r1 "" else r1).
  assert (H2 : sameLayout (fl r) (fl r2)).
  { eapply sameLayout_trans; [exact Hl|].
    subst r2. destruct (negb _); repeat split. }
  clearbody r2.
  repeat step; (split; [eapply width_read; eassumption | assumption]).
Qed.

Lemma render_inv r b r' b' :
  render Sprintf ErrorRec MustRec r b = Return (r', b', None) ->
  exists str w,
    renderText Sprintf ErrorRec MustRec r = Return (r', Ok (str, w))
    /\ renderWrite r' str w b = Return b'.
Proof.
  unfold render. repeat step. eauto.
Qed.

(** The writes of [render]: the output extends the buffer and, with an
    alignment, fills the width. *)
Lemma renderWrite_width r str w b b' :
  isInt64 w ->
  renderWrite r str w b = Return b' ->
  exists out, b' = b ++ out
    /\ (align (fl r) <> noAlign -> (w <= Z.of_nat (String.length out))%Z).
Proof.
  intros Hw. unfold renderWrite.
  assert (Hmain : forall b1 str1 w1 k,
    (w <= w1 + Z.of_nat k)%Z -> isInt64 w1 ->
    (if showRadix (fl r) && alignment_eqb (align (fl r)) padSign
     then p <- slice str1 0 2 ;;
          (let b0 := WriteString b1 p in
           rest <- sliceFrom str1 2 ;;
           WriteAlignedString b0 rest (align (fl r)) (wrap64 (w1 - 2))
             (fillChar (fl r)))
     else WriteAlignedString b1 str1 (align (fl r)) w1 (fillChar (fl r)))
    = Return b' ->
    exists out, b' = b1 ++ out
      /\ (align (fl r) <> noAlign ->
          (w <= Z.of_nat (String.length out) + Z.of_nat k)%Z)).
  { intros b1 s1 w1 k Hk Hw1.
    destruct (showRadix (fl r) && _).
    - destruct (slice s1 0 2) as [p| |] eqn:Hp; simpl; try discriminate.
      apply slice_length in Hp. simpl in Hp.
      destruct (sliceFrom s1 2) as [rest| |]; simpl; try discriminate.
      destruct (Z.eq_dec w1 minInt64) as [->|Hne];
        [|destruct (Z.eq_dec w1 (minInt64 + 1)) as [->|Hne']].
      + intros H. apply WriteAlignedString_extends in H.
        * destruct H as (out & -> & _ & _).
          unfold WriteString. rewrite append_assoc.
          eexists; split; [reflexivity|]. intros _.
          unfold isInt64, minInt64, maxInt64 in *. lia.
        * unfold wrap64, isInt64, minInt64, maxInt64. simpl. lia.
      + intros H. apply WriteAlignedString_extends in H.
        * destruct H as (out & -> & _ & _).
          unfold WriteString. rewrite append_assoc.
          eexists; split; [reflexivity|]. intros _.
          unfold isInt64, minInt64, maxInt64 in *. lia.
        * unfold wrap64, isInt64, minInt64, maxInt64. simpl. lia.
      + assert (Hi : isInt64 (w1 - 2))
          by (unfold isInt64, minInt64, maxInt64 in *; lia).
        rewrite wrap64_id by exact Hi.
        intros H. apply WriteAlignedString_extends in H; [|exact Hi].
        destruct H as (out & -> & _ & Hwd).
        unfold WriteString. rewrite append_assoc.
        eexists; split; [reflexivity|]. intros Hn.
        specialize (Hwd Hn). rewrite length_append, Hp. lia.
    - intros H. apply WriteAlignedString_extends in H; [|exact Hw1].
      destruct H as (out & -> & _ & Hwd).
      eexists; split; [reflexivity|]. intros Hn.
      specialize (Hwd Hn). lia. }
  assert (Hpeel : forall c t (sg : string),
    String.length sg = 1 ->
    (if showRadix (fl r) && alignment_eqb (align (fl r)) padSign
     then p <- slice (drop 1 (String c t)) 0 2 ;;
          (let b0 := WriteString (WriteString b sg) p in
           rest <- sliceFrom (drop 1 (String c t)) 2 ;;
           WriteAlignedString b0 rest (align (fl r))
             (wrap64 (wrap64 (w - 1) - 2)) (fillChar (fl r)))
     else WriteAlignedString (WriteString b sg) (drop 1 (String c t))
            (align (fl r)) (wrap64 (w - 1)) (fillChar (fl r)))
    = Return b' ->
    exists out, b' = b ++ out
      /\ (align (fl r) <> noAlign ->
          (w <= Z.of_nat (String.length out))%Z)).
  { intros c t sg Hsg H.
    destruct (Z.eq_dec w minInt64) as [->|Hne].
    - apply (Hmain _ _ _ 0) in H.
      + destruct H as (out & -> & _). unfold WriteString.
        rewrite append_assoc. eexists; split; [reflexivity|].
        intros _. unfold minInt64. lia.
      + unfold wrap64, minInt64. simpl. lia.
      + unfold wrap64, isInt64, minInt64, maxInt64. simpl. lia.
    - assert (Hi : isInt64 (w - 1))
        by (unfold isInt64, minInt64, maxInt64 in *; lia).
      rewrite (wrap64_id (w - 1)) in H by exact Hi.
      apply (Hmain _ _ _ 1) in H; [|lia|exact Hi].
      destruct H as (out & -> & Hwd). unfold WriteString.
      rewrite append_assoc. eexists; split; [reflexivity|].
      intros Hn. specialize (Hwd Hn). rewrite length_append, Hsg. lia. }
  destruct str as [|c t].
  - intros H. apply (Hmain _ _ _ 0) in H; [|lia|exact Hw].
    destruct H as (out & -> & Hwd). eexists; split; [reflexivity|].
    intros Hn. specialize (Hwd Hn). lia.
  - destruct (negb _ && _).
    + destruct (Ascii.eqb c "-"); [apply (Hpeel c t "-"); reflexivity|].
      destruct (Ascii.eqb c "+"); [apply (Hpeel c t "+"); reflexivity|].
      destruct (Ascii.eqb c " "); [apply (Hpeel c t " "); reflexivity|].
      intros H. apply (Hmain _ _ _ 0) in H; [|lia|exact Hw].
      destruct H as (out & -> & Hwd). unfold WriteString.
      rewrite append_assoc. eexists; split; [reflexivity|].
      intros Hn. specialize (Hwd Hn). rewrite length_append. lia.
    + intros H. apply (Hmain _ _ _ 0) in H; [|lia|exact Hw].
      destruct H as (out & -> & Hwd). eexists; split; [reflexivity|].
      intros Hn. specialize (Hwd Hn). lia.
Qed.

End Renderer.

Lemma WriteAlignedString_prefix b s a w c b' :
  WriteAlignedString b s a w c = Return b' -> exists out, b' = b ++ out.
Proof.
  destruct (alignment_eqb a padSign) eqn:Ha.
  - destruct a; try discriminate. clear Ha.
    unfold WriteAlignedString.
    unfold WriteAlignedString_body at 1. unfold WriteString.
    destruct (_ || _).
    + intros H; inversion H; subst. eauto.
    + destruct (byteAt s 0); simpl; try discriminate.
      destruct (_ || _).
      * destruct (sliceFrom s 1); simpl; try discriminate.
        intros H. apply WriteAlignedString_body_flat in H; [|discriminate].
        destruct H as (out & -> & _). rewrite append_assoc. eauto.
      * intros H. apply WriteAlignedString_body_flat in H; [|discriminate].
        destruct H as (out & -> & _). eauto.
  - unfold WriteAlignedString. intros H.
    apply WriteAlignedString_body_flat in H.
    + destruct H as (out & -> & _). eauto.
    + intros ->. discriminate.
Qed.

(** Under [left] and [padSign] a leading sign character of the text is the
    first byte that [render] writes. *)
Lemma renderWrite_sign_first r c t w b b' :
  align (fl r) = padSign \/ align (fl r) = left ->
  c = "-"%char \/ c = "+"%char \/ c = " "%char ->
  renderWrite r (String c t) w b = Return b' ->
  exists rest, b' = b ++ String c rest.
Proof.
  intros Ha Hc. unfold renderWrite.
  assert (Hcond : negb (Ascii.eqb c "(")
                  && (alignment_eqb (align (fl r)) left
                      || alignment_eqb (align (fl r)) padSign) = true).
  { destruct Ha as [-> | ->]; destruct Hc as [-> | [-> | ->]]; reflexivity. }
  rewrite Hcond.
  assert (Hw : forall w1,
    (if showRadix (fl r) && alignment_eqb (align (fl r)) padSign
     then p <- slice (drop 1 (String c t)) 0 2 ;;
          (let b0 := WriteString (WriteString b (str1 c)) p in
           rest <- sliceFrom (drop 1 (String c t)) 2 ;;
           WriteAlignedString b0 rest (align (fl r)) (wrap64 (w1 - 2))
             (fillChar (fl r)))
     else WriteAlignedString (WriteString b (str1 c)) (drop 1 (String c t))
            (align (fl r)) w1 (fillChar (fl r))) = Return b' ->
    exists rest, b' = b ++ String c rest).
  { intros w1. destruct (showRadix (fl r) && _).
    - destruct (slice _ 0 2) as [p| |]; simpl; try discriminate.
      destruct (sliceFrom _ 2) as [rest| |]; simpl; try discriminate.
      intros H. apply WriteAlignedString_prefix in H.
      destruct H as (out & ->). unfold WriteString, str1.
      rewrite !append_assoc. simpl. eauto.
    - intros H. apply WriteAlignedString_prefix in H.
      destruct H as (out & ->). unfold WriteString, str1.
      rewrite !append_assoc. simpl. eauto. }
  destruct Hc as [-> | [-> | ->]]; simpl Ascii.eqb; cbv iota; apply Hw.
Qed.

(** ** The flag state machine against the grammar *)

Lemma ltb_length_append (pre rest : string) :
  (String.length pre <? String.length (pre ++ rest))%nat
  = negb (rest =? "")%string.
Proof.
  rewrite length_append. destruct rest as [|c t]; simpl.
  - rewrite Nat.add_0_r. apply Nat.ltb_irrefl.
  - apply Nat.ltb_lt. lia.
Qed.

Lemma splitLoop_exit fuel flags end_ st i ret :
  end_ <= i -> splitLoop fuel flags end_ st i ret = Return ret.
Proof.
  intros H. destruct fuel; simpl;
    replace (i <? end_)%nat with false
      by (symmetry; apply Nat.ltb_ge; exact H); reflexivity.
Qed.

Lemma splitLoop_step fuel flags end_ st i ret :
  i < end_ ->
  splitLoop (S fuel) flags end_ st i ret
  = ('(st', i', ret') <- splitStep flags end_ st i ret ;;
     splitLoop fuel flags end_ st' i' ret').
Proof.
  intros H. simpl.
  replace (i <? end_)%nat with true
    by (symmetry; apply Nat.ltb_lt; exact H).
  reflexivity.
Qed.

Lemma bind_Return {A B : Type} (a : A) (k : A -> call B) :
  bind (Return a) k = k a.
Proof. reflexivity. Qed.

Lemma slice_one (pre : string) (c : ascii) (t : string) :
  slice (pre ++ String c t) (String.length pre) (String.length pre + 1)
  = Return (str1 c).
Proof. exact (slice_append pre (str1 c) t). Qed.

Lemma shift_one (pre : string) (c : ascii) (t : string) :
  pre ++ String c t = (pre ++ str1 c) ++ t.
Proof. rewrite append_assoc. reflexivity. Qed.

Lemma length_snoc (pre : string) (c : ascii) :
  String.length (pre ++ str1 c) = String.length pre + 1.
Proof. rewrite length_append. reflexivity. Qed.

Section Machine.

Variables al sg rd zp mw pr vb : string.

Lemma loop_end fuel pre rest :
  splitLoop (S fuel) (pre ++ rest) (String.length (pre ++ rest))
    endState (String.length pre) (mkSplit al sg rd zp mw pr vb None)
  = Return (mkSplit al sg rd zp mw pr vb
              (if (rest =? "")%string then None
               else Some (decodeError (pre ++ rest)))).
Proof.
  destruct rest as [|c t].
  - rewrite splitLoop_exit; [reflexivity|].
    rewrite length_append; simpl; lia.
  - rewrite splitLoop_step by (rewrite length_append; simpl; lia).
    simpl splitStep. rewrite ?bind_Return; cbv beta iota zeta.
    rewrite splitLoop_exit by lia. reflexivity.
Qed.

End Machine.

Lemma loop_verb fuel pre rest al sg rd zp mw pr :
  splitLoop (S (S fuel)) (pre ++ rest) (String.length (pre ++ rest))
    verbState (String.length pre) (mkSplit al sg rd zp mw pr "" None)
  = Return (let '(vb, s) := Grammar.takeOne validFlags rest in
            mkSplit al sg rd zp mw pr vb
              (if (s =? "")%string then None
               else Some (decodeError (pre ++ rest)))).
Proof.
  destruct rest as [|c t].
  - rewrite splitLoop_exit; [reflexivity|].
    rewrite length_append; simpl; lia.
  - rewrite splitLoop_step by (rewrite length_append; simpl; lia).
    unfold splitStep. rewrite byteAt_append. rewrite ?bind_Return; cbv beta iota zeta.
    unfold Grammar.takeOne.
    destruct (validFlags c).
    + rewrite slice_one. rewrite ?bind_Return; cbv beta iota zeta.
      rewrite shift_one, <- (length_snoc pre c). apply loop_end.
    + rewrite ?bind_Return; cbv beta iota zeta. apply loop_end.
Qed.

Lemma takeDigits_split (s : string) :
  fst (Grammar.takeDigits s) ++ snd (Grammar.takeDigits s) = s.
Proof.
  induction s as [|c t IH]; simpl; [reflexivity|].
  destruct (isDigit c); [|reflexivity].
  destruct (Grammar.takeDigits t) as [d rest]; simpl in *.
  now rewrite IH.
Qed.

Lemma scanDigits_run (rest : string) : forall pre,
  scanDigits (pre ++ rest) (String.length rest) (String.length pre)
  = Return (String.length pre
            + String.length (fst (Grammar.takeDigits rest))).
Proof.
  induction rest as [|c t IH]; intros pre; simpl.
  - now rewrite Nat.add_0_r.
  - rewrite byteAt_append. rewrite ?bind_Return; cbv beta iota zeta.
    destruct (isDigit c).
    + rewrite shift_one.
      replace (S (String.length pre)) with (String.length (pre ++ str1 c))
        by (rewrite length_snoc; lia).
      rewrite IH. rewrite length_snoc.
      destruct (Grammar.takeDigits t) as [d rest']; simpl.
      f_equal. lia.
    + simpl. now rewrite Nat.add_0_r.
Qed.

Lemma remaining (pre rest : string) :
  String.length (pre ++ rest) - String.length pre = String.length rest.
Proof. rewrite length_append. lia. Qed.

Lemma loop_precision fuel pre rest al sg rd zp mw :
  splitLoop (S (S (S fuel))) (pre ++ rest) (String.length (pre ++ rest))
    precisionState (String.length pre) (mkSplit al sg rd zp mw "" "" None)
  = Return (let '(pr, s) := Grammar.takePrecision rest in
            let '(vb, s) := Grammar.takeOne validFlags s in
            mkSplit al sg rd zp mw pr vb
              (if (s =? "")%string then None
               else Some (decodeError (pre ++ rest)))).
Proof.
  destruct rest as [|c t].
  - rewrite splitLoop_exit; [reflexivity|].
    rewrite length_append; simpl; lia.
  - rewrite splitLoop_step by (rewrite length_append; simpl; lia).
    unfold splitStep. rewrite byteAt_append. rewrite ?bind_Return; cbv beta iota zeta.
    unfold Grammar.takePrecision.
    destruct (Ascii.eqb c ".") eqn:Hc.
    + pose proof (takeDigits_split t) as Ht.
      pose proof (scanDigits_run t (pre ++ str1 c)) as Hscan.
      rewrite <- shift_one, length_snoc in Hscan.
      replace (String.length (pre ++ String c t) - (String.length pre + 1))
        with (String.length t) by (rewrite length_append; simpl; lia).
      rewrite Hscan. rewrite ?bind_Return; cbv beta iota zeta.
      destruct (Grammar.takeDigits t) as [d rest']; simpl in Ht |- *.
      subst t.
      replace (String.length pre + 1 + String.length d)
        with (String.length pre + String.length (String c d))
        by (simpl; lia).
      change (pre ++ String c (d ++ rest'))
        with (pre ++ String c d ++ rest').
      rewrite slice_append. rewrite ?bind_Return; cbv beta iota zeta.
      rewrite <- append_assoc, <- length_append.
      apply loop_verb.
    + rewrite ?bind_Return; cbv beta iota zeta. apply loop_verb.
Qed.

Lemma loop_width fuel pre rest al sg rd zp :
  splitLoop (S (S (S (S fuel)))) (pre ++ rest)
    (String.length (pre ++ rest))
    widthState (String.length pre) (mkSplit al sg rd zp "" "" "" None)
  = Return (let '(mw, s) := Grammar.takeDigits rest in
            let '(pr, s) := Grammar.takePrecision s in
            let '(vb, s) := Grammar.takeOne validFlags s in
            mkSplit al sg rd zp mw pr vb
              (if (s =? "")%string then None
               else Some (decodeError (pre ++ rest)))).
Proof.
  destruct rest as [|c t].
  - rewrite splitLoop_exit; [reflexivity|].
    rewrite length_append; simpl; lia.
  - rewrite splitLoop_step by (rewrite length_append; simpl; lia).
    unfold splitStep. rewrite remaining, scanDigits_run. rewrite ?bind_Return; cbv beta iota zeta.
    pose proof (takeDigits_split (String c t)) as Ht.
    destruct (Grammar.takeDigits (String c t)) as [d rest'].
    simpl fst in *; simpl snd in *. rewrite <- Ht.
    rewrite slice_append. rewrite ?bind_Return; cbv beta iota zeta.
    rewrite <- append_assoc, <- length_append.
    apply loop_precision.
Qed.

(** The three one-character stages between alignment and width. *)
Lemma loop_zero fuel pre rest al sg rd :
  splitLoop (S (S (S (S (S fuel))))) (pre ++ rest)
    (String.length (pre ++ rest))
    zeroState (String.length pre) (mkSplit al sg rd "" "" "" "" None)
  = Return (let '(zp, s) := Grammar.takeOne (Ascii.eqb "0") rest in
            let '(mw, s) := Grammar.takeDigits s in
            let '(pr, s) := Grammar.takePrecision s in
            let '(vb, s) := Grammar.takeOne validFlags s in
            mkSplit al sg rd zp mw pr vb
              (if (s =? "")%string then None
               else Some (decodeError (pre ++ rest)))).
Proof.
  destruct rest as [|c t].
  - rewrite splitLoop_exit; [reflexivity|].
    rewrite length_append; simpl; lia.
  - rewrite splitLoop_step by (rewrite length_append; simpl; lia).
    unfold splitStep. rewrite byteAt_append. rewrite ?bind_Return; cbv beta iota zeta.
    unfold Grammar.takeOne. rewrite (Ascii.eqb_sym "0" c).
    destruct (Ascii.eqb c "0").
    + rewrite slice_one. rewrite ?bind_Return; cbv beta iota zeta.
      rewrite shift_one, <- (length_snoc pre c). apply loop_width.
    + rewrite ?bind_Return; cbv beta iota zeta. apply loop_width.
Qed.

Lemma loop_radix fuel pre rest al sg :
  splitLoop (S (S (S (S (S (S fuel)))))) (pre ++ rest)
    (String.length (pre ++ rest))
    radixState (String.length pre) (mkSplit al sg "" "" "" "" "" None)
  = Return (let '(rd, s) := Grammar.takeOne (Ascii.eqb "#") rest in
            let '(zp, s) := Grammar.takeOne (Ascii.eqb "0") s in
            let '(mw, s) := Grammar.takeDigits s in
            let '(pr, s) := Grammar.takePrecision s in
            let '(vb, s) := Grammar.takeOne validFlags s in
            mkSplit al sg rd zp mw pr vb
              (if (s =? "")%string then None
               else Some (decodeError (pre ++ rest)))).
Proof.
  destruct rest as [|c t].
  - rewrite splitLoop_exit; [reflexivity|].
    rewrite length_append; simpl; lia.
  - rewrite splitLoop_step by (rewrite length_append; simpl; lia).
    unfold splitStep. rewrite byteAt_append. rewrite ?bind_Return; cbv beta iota zeta.
    unfold Grammar.takeOne at 1. rewrite (Ascii.eqb_sym "#" c).
    destruct (Ascii.eqb c "#").
    + rewrite slice_one. rewrite ?bind_Return; cbv beta iota zeta.
      rewrite shift_one, <- (length_snoc pre c). apply loop_zero.
    + rewrite ?bind_Return; cbv beta iota zeta. apply loop_zero.
Qed.

Lemma isSignByte_spec (c : ascii) :
  Grammar.isSignByte c
  = Ascii.eqb c "+" || Ascii.eqb c "-" || Ascii.eqb c " ".
Proof. destruct c as [[] [] [] [] [] [] [] []]; reflexivity. Qed.

Lemma loop_sign fuel pre rest al :
  splitLoop (S (S (S (S (S (S (S fuel))))))) (pre ++ rest)
    (String.length (pre ++ rest))
    signState (String.length pre) (mkSplit al "" "" "" "" "" "" None)
  = Return (let '(sg, s) := Grammar.takeOne Grammar.isSignByte rest in
            let '(rd, s) := Grammar.takeOne (Ascii.eqb "#") s in
            let '(zp, s) := Grammar.takeOne (Ascii.eqb "0") s in
            let '(mw, s) := Grammar.takeDigits s in
            let '(pr, s) := Grammar.takePrecision s in
            let '(vb, s) := Grammar.takeOne validFlags s in
            mkSplit al sg rd zp mw pr vb
              (if (s =? "")%string then None
               else Some (decodeError (pre ++ rest)))).
Proof.
  destruct rest as [|c t].
  - rewrite splitLoop_exit; [reflexivity|].
    rewrite length_append; simpl; lia.
  - rewrite splitLoop_step by (rewrite length_append; simpl; lia).
    unfold splitStep. rewrite byteAt_append. rewrite ?bind_Return; cbv beta iota zeta.
    unfold Grammar.takeOne at 1. rewrite isSignByte_spec.
    destruct (_ || _).
    + rewrite slice_one. rewrite ?bind_Return; cbv beta iota zeta.
      rewrite shift_one, <- (length_snoc pre c). apply loop_radix.
    + rewrite ?bind_Return; cbv beta iota zeta. apply loop_radix.
Qed.

Lemma result_after_align (flags al rest : string) :
  Grammar.takeAlign flags = (al, rest) ->
  Grammar.result flags
  = (let '(sg, s) := Grammar.takeOne Grammar.isSignByte rest in
     let '(rd, s) := Grammar.takeOne (Ascii.eqb "#") s in
     let '(zp, s) := Grammar.takeOne (Ascii.eqb "0") s in
     let '(mw, s) := Grammar.takeDigits s in
     let '(pr, s) := Grammar.takePrecision s in
     let '(vb, s) := Grammar.takeOne validFlags s in
     mkSplit al sg rd zp mw pr vb
       (if (s =? "")%string then None else Some (decodeError flags))).
Proof.
  intros H. unfold Grammar.result, Grammar.parse. rewrite H.
  destruct (Grammar.takeOne Grammar.isSignByte rest) as [sg s1].
  destruct (Grammar.takeOne (Ascii.eqb "#") s1) as [rd s2].
  destruct (Grammar.takeOne (Ascii.eqb "0") s2) as [zp s3].
  destruct (Grammar.takeDigits s3) as [mw s4].
  destruct (Grammar.takePrecision s4) as [pr s5].
  destruct (Grammar.takeOne validFlags s5) as [vb s6].
  reflexivity.
Qed.

Lemma takeAlign_split (s : string) :
  fst (Grammar.takeAlign s) ++ snd (Grammar.takeAlign s) = s.
Proof.
  destruct s as [|c0 [|c1 t]]; simpl; try reflexivity.
  - destruct (isAlignByte c0); reflexivity.
  - destruct (isAlignByte c1); [reflexivity|].
    destruct (isAlignByte c0); reflexivity.
Qed.

(** The alignment stage of the machine: one iteration from the initial
    state. *)
Lemma step_align (flags : string) :
  flags <> "" ->
  splitStep flags (String.length flags) alignState 0 emptySplit
  = Return (signState, String.length (fst (Grammar.takeAlign flags)),
            mkSplit (fst (Grammar.takeAlign flags)) "" "" "" "" "" "" None).
Proof.
  intros Hne. destruct flags as [|c0 [|c1 t]]; [congruence| |].
  - unfold splitStep, emptySplit. simpl.
    destruct (isAlignByte c0); reflexivity.
  - unfold splitStep, emptySplit, byteAt, slice. simpl.
    destruct (isAlignByte c1); simpl; [reflexivity|].
    destruct (isAlignByte c0); reflexivity.
Qed.

(** The loop of [splitFlags] computes the result of the grammar, with eight
    iterations or more. *)
Lemma splitLoop_total (k : nat) (flags : string) :
  flags <> "" ->
  splitLoop (8 + k) flags (String.length flags) alignState 0 emptySplit
  = Return (Grammar.result flags).
Proof.
  intros Hne.
  change (8 + k) with (S (S (S (S (S (S (S (S k)))))))).
  rewrite splitLoop_step
    by (destruct flags; [congruence | simpl; lia]).
  rewrite (step_align flags Hne), bind_Return. cbv beta iota zeta.
  pose proof (takeAlign_split flags) as Hsplit.
  destruct (Grammar.takeAlign flags) as [al rest] eqn:Hal.
  simpl fst in *; simpl snd in *.
  rewrite (result_after_align _ _ _ Hal).
  clear Hal Hne. subst flags.
  apply loop_sign.
Qed.

(** [splitFlags] returns, and returns what the grammar of the specification
    prescribes. *)
Lemma splitFlags_refines (flags : string) :
  splitFlags flags = Return (Grammar.result flags).
Proof.
  unfold splitFlags. destruct flags as [|c t]; [reflexivity|].
  simpl Nat.eqb. cbv iota.
  apply (splitLoop_total 0). discriminate.
Qed.

(** ** Fields without a specification, and the nested calls *)

Section Nested.

Variable Sprintf : string -> value -> string.
Variable getElement : string -> nat -> list value -> value * option error.

(** A field with the default directive is written as the host prints it
    under [%v], whatever the nested entry points are. *)
Lemma render_default ErrorRec MustRec (v : value) (b : buffer) :
  render Sprintf ErrorRec MustRec (mkRender v defaultFlags) b
  = Return (mkRender v defaultFlags, b ++ Sprintf "%v" v, None).
Proof.
  unfold render, renderText, defaultFlags. simpl.
  unfold renderWrite. simpl.
  destruct (Sprintf "%v" v) as [|c t]; simpl.
  - reflexivity.
  - rewrite ?andb_false_r. reflexivity.
Qed.

Hypothesis Hpos : positional getElement.

Ltac run :=
  repeat (cbv -[render append];
          first [ rewrite render_default
                | match goal with
                  | |- context [getElement "" ?k ?l] =>
                      rewrite (Hpos l k _ eq_refl)
                  end ]);
  cbv -[render append]; rewrite ?append_assoc; try reflexivity.

(** The four templates that the sources pass to [Error] and [Must]: the
    formatter writes the literal text and the arguments under [%v], and
    never reaches its own nested entry points. *)
Lemma Fmt_invalid_flag ErrorRec MustRec (a b : value) :
  Fmt_body Sprintf getElement ErrorRec MustRec
    "Invalid flag pattern: {}, {}" [a; b]
  = Return ("Invalid flag pattern: " ++ Sprintf "%v" a ++ ", "
            ++ Sprintf "%v" b, None).
Proof. unfold Fmt_body, doFormat. run. Qed.

Lemma Fmt_bad_width ErrorRec MustRec (a : value) :
  Fmt_body Sprintf getElement ErrorRec MustRec
    "Can't convert width {} to int" [a]
  = Return ("Can't convert width " ++ Sprintf "%v" a ++ " to int", None).
Proof. unfold Fmt_body, doFormat. run. Qed.

Lemma Fmt_bad_prefix ErrorRec MustRec (a : value) :
  Fmt_body Sprintf getElement ErrorRec MustRec
    "Couldn't parse format prefix from: {}" [a]
  = Return ("Couldn't parse format prefix from: " ++ Sprintf "%v" a, None).
Proof. unfold Fmt_body, doFormat. run. Qed.

Lemma Fmt_precision ErrorRec MustRec (a : value) :
  Fmt_body Sprintf getElement ErrorRec MustRec ".{}" [a]
  = Return ("." ++ Sprintf "%v" a, None).
Proof. unfold Fmt_body, doFormat. run. Qed.

Lemma Error_invalid_flag (a b : value) :
  Error Sprintf getElement "Invalid flag pattern: {}, {}" [a; b]
  = Return ("Invalid flag pattern: " ++ Sprintf "%v" a ++ ", "
            ++ Sprintf "%v" b).
Proof. unfold Error, Fmt_nested. now rewrite Fmt_invalid_flag. Qed.

Lemma Error_bad_width (a : value) :
  Error Sprintf getElement "Can't convert width {} to int" [a]
  = Return ("Can't convert width " ++ Sprintf "%v" a ++ " to int").
Proof. unfold Error, Fmt_nested. now rewrite Fmt_bad_width. Qed.

Lemma Error_bad_prefix (a : value) :
  Error Sprintf getElement "Couldn't parse format prefix from: {}" [a]
  = Return ("Couldn't parse format prefix from: " ++ Sprintf "%v" a).
Proof. unfold Error, Fmt_nested. now rewrite Fmt_bad_prefix. Qed.

Lemma Must_precision (a : value) :
  Must Sprintf getElement ".{}" [a] = Return ("." ++ Sprintf "%v" a).
Proof. unfold Must, Fmt_nested. now rewrite Fmt_precision. Qed.

End Nested.

(** ** The partition of a specification *)

Lemma takeOne_split (p : ascii -> bool) (s : string) :
  fst (Grammar.takeOne p s) ++ snd (Grammar.takeOne p s) = s.
Proof.
  destruct s as [|c t]; simpl; [reflexivity|].
  destruct (p c); reflexivity.
Qed.

Lemma takePrecision_split (s : string) :
  fst (Grammar.takePrecision s) ++ snd (Grammar.takePrecision s) = s.
Proof.
  destruct s as [|c t]; simpl; [reflexivity|].
  destruct (Ascii.eqb c "."); [|reflexivity].
  pose proof (takeDigits_split t) as H.
  destruct (Grammar.takeDigits t) as [d rest]; simpl in *.
  now rewrite H.
Qed.

(** The tokens of the grammar and the input left over make up the
    specification. *)
Lemma parse_split (spec : string) :
  let t := Grammar.parse spec in
  Grammar.t_align t ++ Grammar.t_sign t ++ Grammar.t_radix t
  ++ Grammar.t_zeroPad t ++ Grammar.t_minWidth t ++ Grammar.t_precision t
  ++ Grammar.t_verb t ++ Grammar.leftover t = spec.
Proof.
  unfold Grammar.parse.
  pose proof (takeAlign_split spec) as H1.
  destruct (Grammar.takeAlign spec) as [al s1].
  pose proof (takeOne_split Grammar.isSignByte s1) as H2.
  destruct (Grammar.takeOne Grammar.isSignByte s1) as [sg s2].
  pose proof (takeOne_split (Ascii.eqb "#") s2) as H3.
  destruct (Grammar.takeOne (Ascii.eqb "#") s2) as [rd s3].
  pose proof (takeOne_split (Ascii.eqb "0") s3) as H4.
  destruct (Grammar.takeOne (Ascii.eqb "0") s3) as [zp s4].
  pose proof (takeDigits_split s4) as H5.
  destruct (Grammar.takeDigits s4) as [mw s5].
  pose proof (takePrecision_split s5) as H6.
  destruct (Grammar.takePrecision s5) as [pr s6].
  pose proof (takeOne_split validFlags s6) as H7.
  destruct (Grammar.takeOne validFlags s6) as [vb s7].
  simpl in *. congruence.
Qed.

Lemma tiles_concat (ps : list string) : forall pre,
  tiles ps (String.length pre) (pre ++ String.concat "" ps).
Proof.
  induction ps as [|p ps IH]; intros pre.
  - simpl. rewrite append_nil_r. reflexivity.
  - assert (Hc : String.concat "" (p :: ps) = p ++ String.concat "" ps).
    { destruct ps; simpl; [now rewrite append_nil_r | reflexivity]. }
    rewrite Hc. cbn [tiles]. split.
    + apply slice_append.
    + rewrite <- append_assoc, <- length_append. apply IH.
Qed.

Lemma concat_parts (a b c d e f g : string) :
  String.concat "" [a; b; c; d; e; f; g]
  = a ++ b ++ c ++ d ++ e ++ f ++ g.
Proof. reflexivity. Qed.

(** C9. Whenever [splitFlags] returns without an error, the seven strings it
    returns are consecutive slices of the specification, taken left to right
    from index 0 to its end, and so their concatenation in that order is the
    specification itself. *)
Theorem splitFlags_partition (flags : string) (sp : splitResult) :
  splitFlags flags = Return sp ->
  ret_err sp = None ->
  tiles (parts sp) 0 flags
  /\ ret_align sp ++ ret_sign sp ++ ret_radix sp ++ ret_zeroPad sp
     ++ ret_minWidth sp ++ ret_precision sp ++ ret_verb sp = flags.
Proof.
  rewrite splitFlags_refines. intros H Herr. inversion H; subst sp. clear H.
  pose proof (parse_split flags) as Hs. cbv zeta in Hs.
  unfold Grammar.result in *. simpl in Herr.
  destruct (Grammar.leftover (Grammar.parse flags) =? "") eqn:Hl;
    [|discriminate].
  apply String.eqb_eq in Hl. rewrite Hl in Hs.
  rewrite append_nil_r in Hs.
  unfold parts. simpl ret_align; simpl ret_sign; simpl ret_radix;
    simpl ret_zeroPad; simpl ret_minWidth; simpl ret_precision;
    simpl ret_verb.
  split; [|exact Hs].
  pose proof (tiles_concat
                [Grammar.t_align (Grammar.parse flags);
                 Grammar.t_sign (Grammar.parse flags);
                 Grammar.t_radix (Grammar.parse flags);
                 Grammar.t_zeroPad (Grammar.parse flags);
                 Grammar.t_minWidth (Grammar.parse flags);
                 Grammar.t_precision (Grammar.parse flags);
                 Grammar.t_verb (Grammar.parse flags)] "") as Ht.
  rewrite concat_parts in Ht. simpl append at 1 in Ht.
  rewrite Hs in Ht. exact Ht.
Qed.

(** The partition is of a specification that parses: the width directive
    of scenario 3. *)
Lemma splitFlags_partition_witness :
  tiles (parts (mkSplit ">" "" "" "" "10" "" "" None)) 0 ">10"
  /\ ">" ++ "" ++ "" ++ "" ++ "10" ++ "" ++ "" = ">10".
Proof.
  exact (splitFlags_partition ">10" (mkSplit ">" "" "" "" "10" "" "" None)
           eq_refl eq_refl).
Defined.

(** ** The reference instance satisfies the assumptions *)

Lemma Host_plainText : plainText Host.Sprintf.
Proof.
  split; intros s; unfold Host.Sprintf; simpl; apply append_nil_r.
Qed.

Lemma Host_positional : positional Host.getElement.
Proof.
  intros args k v H. unfold Host.getElement. simpl. now rewrite H.
Qed.

(** ** Specifications with input left over *)

Section SyntaxError.

Variable Sprintf : string -> value -> string.
Variable getElement : string -> nat -> list value -> value * option error.
Hypothesis Hplain : plainText Sprintf.
Hypothesis Hpos : positional getElement.

Lemma parseFlags_leftover (r : renderer) (flags : string) :
  Grammar.leftover (Grammar.parse flags) <> "" ->
  parseFlags (Error Sprintf getElement) r flags
  = Return (setRenderVerb r "v",
            Some ("Invalid flag pattern: " ++ flags
                  ++ ", Could not decode format specification: "
                  ++ flags)).
Proof.
  intros Hl. unfold parseFlags.
  destruct (flags =? "") eqn:He.
  - apply String.eqb_eq in He. subst flags. now elim Hl.
  - rewrite splitFlags_refines, bind_Return.
    unfold Grammar.result. cbn [ret_err].
    destruct (Grammar.leftover (Grammar.parse flags) =? "") eqn:Hl'.
    + apply String.eqb_eq in Hl'. contradiction.
    + rewrite (Error_invalid_flag Sprintf getElement Hpos).
      rewrite bind_Return.
      destruct Hplain as [Hs He']. rewrite Hs, He'. reflexivity.
Qed.

End SyntaxError.

(** C7. A specification in which input is left over after the seven stages
    of the grammar makes [splitFlags] return the error "Could not decode
    format specification: " followed by the specification, and makes
    [parseFlags] return an error whose message holds the specification; in
    particular expanding ["{:q}"] against 1 returns the empty string and an
    error that names [q]. *)
Theorem leftover_is_syntax_error
  (Sprintf : string -> value -> string)
  (getElement : string -> nat -> list value -> value * option error) :
  plainText Sprintf -> positional getElement ->
  (forall flags, Grammar.leftover (Grammar.parse flags) <> "" ->
     (exists sp, splitFlags flags = Return sp
        /\ ret_err sp
           = Some ("Could not decode format specification: " ++ flags))
     /\ (forall r, parseFlags (Error Sprintf getElement) r flags
           = Return (setRenderVerb r "v",
                     Some ("Invalid flag pattern: " ++ flags
                           ++ ", Could not decode format specification: "
                           ++ flags))))
  /\ Fmt Sprintf getElement "{:q}" [VInt 1]
     = Return ("", Some "Invalid flag pattern: q, Could not decode format specification: q").
Proof.
  intros Hplain Hpos. split.
  - intros flags Hl. split.
    + exists (Grammar.result flags). split; [apply splitFlags_refines|].
      unfold Grammar.result. cbn [ret_err].
      destruct (Grammar.leftover (Grammar.parse flags) =? "") eqn:Hl'.
      * apply String.eqb_eq in Hl'. contradiction.
      * reflexivity.
    + intros r. now apply parseFlags_leftover.
  - unfold Fmt, Fmt_body, doFormat.
    cbv -[parseFlags render append Error Must].
    rewrite (Hpos [VInt 1] 0 (VInt 1) eq_refl).
    cbv -[parseFlags render append Error Must].
    rewrite (parseFlags_leftover Sprintf getElement Hplain Hpos)
      by (vm_compute; discriminate).
    reflexivity.
Qed.

(** The theorem at the reference instance and at the specification [q]. *)
Lemma leftover_is_syntax_error_witness :
  Grammar.leftover (Grammar.parse "q") <> ""
  /\ (exists sp, splitFlags "q" = Return sp
        /\ ret_err sp = Some "Could not decode format specification: q")
  /\ Host.Fmt "{:q}" [VInt 1]
     = Return ("", Some "Invalid flag pattern: q, Could not decode format specification: q").
Proof.
  assert (Hq : Grammar.leftover (Grammar.parse "q") <> "")
    by (vm_compute; discriminate).
  pose proof (leftover_is_syntax_error Host.Sprintf Host.getElement
                Host_plainText Host_positional) as [Hall Hfmt].
  split; [exact Hq|]. split; [exact (proj1 (Hall "q" Hq)) | exact Hfmt].
Defined.

(** ** Claims on the buffer writer and the renderer *)

(** C10. [WriteAlignedString] is not total: with [padSign], the empty text
    and a positive width it indexes [s[0]] and panics, whatever the buffer
    and the fill character.  The renderer reaches this call, for instance on
    the empty string under the specification [=5]. *)
Theorem WriteAlignedString_padSign_empty_panics :
  (forall (b : buffer) (w : Z) (c : rune),
     (0 < w)%Z ->
     WriteAlignedString b "" padSign w c = Panics "index out of range")
  /\ Host.Fmt "{:=5}" [VString ""] = Panics "index out of range".
Proof.
  split.
  - intros b w c Hw. now apply WriteAlignedString_padSign_empty.
  - reflexivity.
Qed.

Lemma WriteAlignedString_padSign_empty_panics_witness :
  WriteAlignedString "" "" padSign 1%Z 0%Z = Panics "index out of range".
Proof.
  apply (proj1 WriteAlignedString_padSign_empty_panics). reflexivity.
Defined.

(** C3, as stated, fails: the expansion is not [" ab   "]. *)
Lemma center_scenario_counterexample :
  Host.Fmt "{:^6}" [VString "ab"] <> Return (" ab   ", None).
Proof. vm_compute. discriminate. Qed.

(** C3, amended. Expanding ["{:^6}"] against the string ["ab"] returns
    ["  ab  "]: two fill spaces on the left of [ab] and two on the right. *)
Theorem center_scenario
  (Sprintf : string -> value -> string)
  (getElement : string -> nat -> list value -> value * option error) :
  Sprintf "%v" (VString "ab") = "ab" ->
  getElement "" 0 [VString "ab"] = (VString "ab", None) ->
  Fmt Sprintf getElement "{:^6}" [VString "ab"] = Return ("  ab  ", None).
Proof.
  intros Hs Hg. unfold Fmt, Fmt_body, doFormat.
  cbv -[parseFlags render append Error Must].
  rewrite Hg.
  cbv -[Error Must].
  rewrite Hs. reflexivity.
Qed.

Lemma center_scenario_witness :
  Host.Fmt "{:^6}" [VString "ab"] = Return ("  ab  ", None).
Proof.
  exact (center_scenario Host.Sprintf Host.getElement eq_refl eq_refl).
Defined.

(** C2, as stated, fails: without an alignment the field is written as it
    is, whatever the width.  The directive of ["{:10}"] asks for 10 bytes,
    the text ["ab"] has 2, and the output is ["ab"]. *)
Lemma width_counterexample :
  parseFlags (Error Host.Sprintf Host.getElement)
    (mkRender (VString "ab") zeroFlags) "10"
  = Return (mkRender (VString "ab")
              (mkFlags 0%Z noAlign "" false "10" "" "v" false), None)
  /\ requestedWidth (mkFlags 0%Z noAlign "" false "10" "" "v" false) = Ok 10%Z
  /\ render Host.Sprintf (Error Host.Sprintf Host.getElement)
       (Must Host.Sprintf Host.getElement)
       (mkRender (VString "ab")
          (mkFlags 0%Z noAlign "" false "10" "" "v" false)) ""
     = Return (mkRender (VString "ab")
                 (mkFlags 0%Z noAlign "" false "" "" "v" false), "ab", None)
  /\ Host.Fmt "{:10}" [VString "ab"] = Return ("ab", None)
  /\ (Z.of_nat (String.length "ab") < 10)%Z.
Proof. repeat split. Qed.

(** C2, amended. For every rendered field whose directive has an alignment
    (left, right, pad-after-sign or center), the output of the field is at
    least as long, in bytes, as the minimum width the directive asks for;
    with no alignment the text is written unpadded. *)
Theorem render_fills_width
  (Sprintf : string -> value -> string)
  (ErrorRec : string -> list value -> call error)
  (MustRec : string -> list value -> call string)
  (r r' : renderer) (b b' : buffer) (w : Z) :
  align (fl r) <> noAlign ->
  requestedWidth (fl r) = Ok w ->
  render Sprintf ErrorRec MustRec r b = Return (r', b', None) ->
  exists out, b' = b ++ out /\ (w <= Z.of_nat (String.length out))%Z.
Proof.
  intros Ha Hw Hr.
  apply render_inv in Hr. destruct Hr as (str & w0 & Ht & Hwr).
  apply renderText_inv in Ht. destruct Ht as [Hw0 Hl].
  rewrite Hw in Hw0. inversion Hw0; subst w0. clear Hw0.
  assert (Hi : isInt64 w).
  { unfold requestedWidth in Hw.
    destruct (minWidth (fl r) =? "").
    - inversion Hw; subst. unfold isInt64, minInt64, maxInt64. lia.
    - eapply ParseInt_range; eauto. }
  apply renderWrite_width in Hwr; [|exact Hi].
  destruct Hwr as (out & -> & Hout).
  exists out. split; [reflexivity|]. apply Hout.
  destruct Hl as (_ & Hal & _). congruence.
Qed.

Lemma render_fills_width_witness :
  exists out, "        42" = "" ++ out
    /\ (10 <= Z.of_nat (String.length out))%Z.
Proof.
  apply (render_fills_width Host.Sprintf
           (Error Host.Sprintf Host.getElement)
           (Must Host.Sprintf Host.getElement)
           (mkRender (VInt 42) (mkFlags 0%Z right "" false "10" "" "v" false))
           (mkRender (VInt 42) (mkFlags 0%Z right "" false "" "" "v" false))
           "" "        42" 10%Z).
  - discriminate.
  - reflexivity.
  - reflexivity.
Defined.

(** C6. For every field rendered with pad-after-sign alignment whose text
    starts with a sign character (minus, plus or the space sign), that
    character is the first byte of the output of the field, whatever the
    width and the fill character: no fill precedes it. *)
Theorem padSign_sign_first
  (Sprintf : string -> value -> string)
  (ErrorRec : string -> list value -> call error)
  (MustRec : string -> list value -> call string)
  (r r1 r2 : renderer) (b b' : buffer) (str : string) (w : Z) (c : ascii) :
  align (fl r) = padSign ->
  renderText Sprintf ErrorRec MustRec r = Return (r1, Ok (str, w)) ->
  startsWith str c = true ->
  c = "-"%char \/ c = "+"%char \/ c = " "%char ->
  render Sprintf ErrorRec MustRec r b = Return (r2, b', None) ->
  exists rest, b' = b ++ String c rest.
Proof.
  intros Ha Ht Hs Hc Hr.
  apply render_inv in Hr. destruct Hr as (str' & w' & Ht' & Hwr).
  rewrite Ht in Ht'. inversion Ht'; subst r2 str' w'. clear Ht'.
  apply renderText_inv in Ht. destruct Ht as [_ (_ & Hal & _)].
  destruct str as [|d t]; [discriminate|].
  simpl in Hs. apply Ascii.eqb_eq in Hs. subst d.
  apply (renderWrite_sign_first r1 c t w b b');
    [left; congruence | exact Hc | exact Hwr].
Qed.

Lemma padSign_sign_first_witness :
  exists rest, "-**42" = "" ++ String "-" rest.
Proof.
  apply (padSign_sign_first Host.Sprintf
           (Error Host.Sprintf Host.getElement)
           (Must Host.Sprintf Host.getElement)
           (mkRender (VInt (-42))
              (mkFlags 42%Z padSign "" false "5" "" "v" false))
           (mkRender (VInt (-42))
              (mkFlags 42%Z padSign "" false "" "" "v" false))
           (mkRender (VInt (-42))
              (mkFlags 42%Z padSign "" false "" "" "v" false))
           "" "-**42" "-42" 5%Z "-"%char).
  - reflexivity.
  - reflexivity.
  - reflexivity.
  - left; reflexivity.
  - reflexivity.
Defined.

(** ** Radix markers *)

Lemma byteZ_byte_of_Z (z : Z) :
  (0 <= z < 256)%Z -> byteZ (byte_of_Z z) = z.
Proof.
  intros H. unfold byteZ, byte_of_Z.
  rewrite nat_ascii_embedding by lia. lia.
Qed.

(** Trimming a text by an ASCII character that is not its first byte
    leaves it as it is. *)
Lemma TrimLeft_other (c : ascii) (t : string) (fill : rune) :
  (byteZ c < 128)%Z -> (0 <= fill < 128)%Z -> fill <> byteZ c ->
  strings.TrimLeft (String c t) (utf8.string_of_rune fill) = String c t.
Proof.
  intros Hc Hf Hne. unfold strings.TrimLeft.
  assert (Hd : fst (utf8.DecodeRuneInString (utf8.string_of_rune fill))
               = fill).
  { unfold utf8.string_of_rune, utf8.encode_valid.
    replace (fill <? 0)%Z with false by (symmetry; apply Z.ltb_ge; lia).
    replace (1114111 <? fill)%Z with false
      by (symmetry; apply Z.ltb_ge; lia).
    replace (55296 <=? fill)%Z with false
      by (symmetry; apply Z.leb_gt; lia).
    simpl orb. cbv iota.
    replace (fill <? 128)%Z with true by (symmetry; apply Z.ltb_lt; lia).
    unfold str1, utf8.DecodeRuneInString.
    rewrite byteZ_byte_of_Z by lia.
    replace (fill <? 128)%Z with true by (symmetry; apply Z.ltb_lt; lia).
    reflexivity. }
  rewrite Hd. simpl String.length. cbn [strings.trimLeftRune].
  unfold utf8.DecodeRuneInString.
  replace (byteZ c <? 128)%Z with true by (symmetry; apply Z.ltb_lt; lia).
  replace (byteZ c =? fill)%Z with false
    by (symmetry; apply Z.eqb_neq; congruence).
  reflexivity.
Qed.

Lemma TrimLeft_space_sign (c : ascii) (t : string) :
  c = "-"%char \/ c = "+"%char ->
  strings.TrimLeft (String c t) " " = String c t.
Proof. intros [-> | ->]; reflexivity. Qed.

Section Radix.

Variable Sprintf : string -> value -> string.
Variable ErrorRec : string -> list value -> call error.
Variable MustRec : string -> list value -> call string.

(** With [showRadix] and the verb [b] or [o], a text of the host that
    starts with a sign gets the marker spliced in after the sign. *)
Lemma renderText_marker_after_sign (r : renderer) (c : ascii)
  (digits : string) (w : Z) :
  showRadix (fl r) = true -> percent (fl r) = false ->
  renderVerb (fl r) = "b" \/ renderVerb (fl r) = "o" ->
  (0 <= fillChar (fl r) < 128)%Z -> fillChar (fl r) <> byteZ c ->
  requestedWidth (fl r) = Ok w ->
  c = "-"%char \/ c = "+"%char ->
  Sprintf ("%" ++ sign (fl r) ++ precision (fl r) ++ renderVerb (fl r))
    (val r) = String c digits ->
  renderText Sprintf ErrorRec MustRec r
  = Return (setMinWidth r "",
            Ok (String c ("0" ++ renderVerb (fl r) ++ digits), w)).
Proof.
  intros Hsr Hpc Hv Hf Hne Hw Hc Hs.
  unfold renderText. rewrite Hpc. rewrite bind_Return.
  cbv beta iota zeta. rewrite Hsr.
  unfold requestedWidth in Hw.
  assert (Hwidth :
    (if minWidth (fl r) =? ""
     then Return (Ok 0%Z)
     else match strconv.ParseInt (minWidth (fl r)) with
          | Ok w => Return (Ok w)
          | Err _ =>
              e <- ErrorRec "Can't convert width {} to int"
                     [VString (minWidth (fl r))] ;;
              Return (Err e)
          end) = Return (Ok w)).
  { destruct (minWidth (fl r) =? ""); [now inversion Hw|].
    now rewrite Hw. }
  assert (Hnf : isFloatVerb (renderVerb (fl r)) = false)
    by (destruct Hv as [-> | ->]; reflexivity).
  assert (Hpre :
    (if (renderVerb (fl r) =? "x") || (renderVerb (fl r) =? "X")
     then ("", "#")
     else if renderVerb (fl r) =? "b" then ("0b", "")
     else if renderVerb (fl r) =? "o" then ("0o", "") else ("", ""))
    = ("0" ++ renderVerb (fl r), "")).
  { destruct Hv as [-> | ->]; reflexivity. }
  rewrite Hpre, Hwidth, bind_Return. cbv beta iota zeta.
  rewrite Hnf. cbn [negb].
  assert (Hne0 : negb ("0" ++ renderVerb (fl r) =? "") = true)
    by reflexivity.
  rewrite Hne0.
  assert (Hsame : forall x, fl (setMinWidth r x)
            = mkFlags (fillChar (fl r)) (align (fl r)) (sign (fl r))
                (showRadix (fl r)) x (precision (fl r))
                (renderVerb (fl r)) (percent (fl r))) by reflexivity.
  rewrite !Hsame. cbn [sign minWidth precision renderVerb percent
                       fillChar val setMinWidth].
  change ("%" ++ sign (fl r) ++ "" ++ "" ++ precision (fl r)
          ++ renderVerb (fl r))
    with ("%" ++ sign (fl r) ++ precision (fl r) ++ renderVerb (fl r)).
  rewrite Hs.
  rewrite (TrimLeft_space_sign c digits Hc).
  assert (Hcz : (byteZ c < 128)%Z)
    by (destruct Hc as [-> | ->]; vm_compute; reflexivity).
  rewrite (TrimLeft_other c digits (fillChar (fl r)) Hcz Hf Hne).
  match goal with
  | |- context [if negb ?b then String c digits else String c digits] =>
      replace (if negb b then String c digits else String c digits)
        with (String c digits) by (destruct b; reflexivity)
  end.
  rewrite ?Hnf. cbv iota.
  rewrite bind_Return. rewrite ?Hpc.
  destruct Hc as [-> | ->]; reflexivity.
Qed.

End Radix.

Lemma Host_binary (n : Z) :
  (n < 0)%Z ->
  Host.Sprintf "%b" (VInt n) = "-" ++ strconv.FormatUint (- n) 2.
Proof.
  intros H. unfold Host.Sprintf. simpl.
  unfold Host.formatInteger, Host.signText. simpl.
  replace (n <? 0)%Z with true by (symmetry; apply Z.ltb_lt; lia).
  rewrite append_nil_r. unfold strconv.FormatUint.
  replace (Z.abs n) with (- n)%Z by lia. reflexivity.
Qed.

(** C5. With [showRadix] and a radix verb the marker comes after the leading
    sign of the number, never before it.  For every negative integer [n],
    expanding ["{:#b}"] against [n] gives ["-0b"] followed by the binary
    digits of [|n|], the host printing [n] under [%b] as a minus sign and
    these digits; and expanding ["{:#x}"] against [-10] gives ["-0xa"], which
    is what the host prints under [%#x]. *)
Theorem radix_after_sign
  (Sprintf : string -> value -> string)
  (getElement : string -> nat -> list value -> value * option error) :
  positional getElement ->
  (forall n, (n < 0)%Z ->
     Sprintf "%b" (VInt n) = "-" ++ strconv.FormatUint (- n) 2 ->
     Fmt Sprintf getElement "{:#b}" [VInt n]
     = Return ("-0b" ++ strconv.FormatUint (- n) 2, None))
  /\ (Sprintf "%#x" (VInt (-10)) = "-0xa" ->
      Fmt Sprintf getElement "{:#x}" [VInt (-10)] = Return ("-0xa", None)).
Proof.
  intros Hpos. split.
  - intros n Hn Hs.
    revert Hs. generalize (strconv.FormatUint (- n) 2). intros D Hs.
    unfold Fmt, Fmt_body, doFormat.
    cbv -[parseFlags render append Error Must].
    rewrite (Hpos [VInt n] 0 (VInt n) eq_refl).
    cbv -[render append Error Must].
    unfold render.
    rewrite (renderText_marker_after_sign Sprintf _ _ _ "-"%char D 0%Z).
    2: reflexivity. 2: reflexivity. 2: (left; reflexivity).
    2: (cbn; lia). 2: (cbn; discriminate). 2: reflexivity.
    2: (left; reflexivity). 2: exact Hs.
    rewrite bind_Return. cbv beta iota zeta.
    unfold renderWrite. cbn -[append].
    reflexivity.
  - intros Hs.
    unfold Fmt, Fmt_body, doFormat.
    cbv -[parseFlags render append Error Must].
    rewrite (Hpos [VInt (-10)] 0 (VInt (-10)) eq_refl).
    cbv -[Error Must].
    rewrite Hs. reflexivity.
Qed.

Lemma radix_after_sign_witness :
  (-5 < 0)%Z
  /\ Host.Fmt "{:#b}" [VInt (-5)] = Return ("-0b101", None)
  /\ Host.Fmt "{:#x}" [VInt (-10)] = Return ("-0xa", None).
Proof.
  pose proof (radix_after_sign Host.Sprintf Host.getElement Host_positional)
    as [Hb Hx].
  split; [reflexivity|]. split.
  - exact (Hb (-5)%Z eq_refl eq_refl).
  - exact (Hx eq_refl).
Defined.

(** ** The template driver *)

(** The first inner loop runs over literal text without braces and stops at
    the opening brace that follows it, leaving the buffer as it was. *)
Lemma scanOpen_literal (pre rest : string) :
  strings.indexByte "{" pre = None ->
  strings.indexByte "}" pre = None ->
  forall (done : string) (fuel cachei : nat) (b : buffer),
    String.length pre <= fuel ->
    scanOpen fuel (done ++ pre ++ String "{" rest)
      (String.length (done ++ pre ++ String "{" rest))
      (String.length done) cachei b
    = Return (String.length done + String.length pre, cachei, b, None).
Proof.
  induction pre as [|c pre IH]; intros Ho Hc done fuel cachei b Hf.
  - simpl append.
    destruct fuel; simpl;
      rewrite ltb_length_append; simpl; rewrite byteAt_append; simpl;
      rewrite Nat.add_0_r; reflexivity.
  - simpl in Ho, Hc.
    destruct (Ascii.eqb c "{") eqn:Eo; [discriminate|].
    destruct (Ascii.eqb c "}") eqn:Ec; [discriminate|].
    destruct (strings.indexByte "{" pre) eqn:Ho'; [discriminate|].
    destruct (strings.indexByte "}" pre) eqn:Hc'; [discriminate|].
    destruct fuel as [|fuel]; [simpl in Hf; lia|].
    simpl append. simpl scanOpen.
    rewrite ltb_length_append. simpl negb. cbv iota.
    rewrite byteAt_append. rewrite bind_Return. rewrite Eo, Ec. simpl negb.
    cbv iota.
    rewrite (shift_one done c). rewrite <- (length_snoc done c).
    rewrite (IH eq_refl eq_refl (done ++ str1 c) fuel cachei b)
      by (simpl in Hf; lia).
    rewrite length_snoc. simpl. f_equal. f_equal. f_equal. f_equal. lia.
Qed.

(** The second inner loop runs to the end of a template that has no
    closing brace left. *)
Lemma scanClose_run (body : string) :
  strings.indexByte "}" body = None ->
  forall done : string,
    scanClose (done ++ body) (String.length body) (String.length done)
    = Return (String.length done + String.length body).
Proof.
  induction body as [|c body IH]; intros Hc done.
  - simpl. now rewrite Nat.add_0_r.
  - simpl in Hc. destruct (Ascii.eqb c "}") eqn:Ec; [discriminate|].
    destruct (strings.indexByte "}" body) eqn:Hc'; [discriminate|].
    simpl scanClose. rewrite byteAt_append. rewrite bind_Return.
    rewrite Ec. simpl negb. cbv iota.
    rewrite (shift_one done c). rewrite <- (length_snoc done c).
    rewrite (IH eq_refl (done ++ str1 c)).
    rewrite length_snoc. simpl. f_equal. lia.
Qed.

(** What the driver meets on a template [pre ++ "{" ++ body] whose literal
    text [pre] has no brace and whose [body] has no closing brace. *)
Lemma unmatched_facts (pre body : string) (b : buffer) :
  strings.indexByte "{" pre = None ->
  strings.indexByte "}" pre = None ->
  strings.indexByte "}" body = None ->
  let format := pre ++ String "{" body in
  (0 <? String.length format)%nat = true
  /\ scanOpen (String.length format - 0) format (String.length format) 0 0 b
     = Return (String.length pre, 0, b, None)
  /\ slice format 0 (String.length pre) = Return pre
  /\ (String.length format <=? String.length pre)%nat = false
  /\ byteAt format (String.length pre + 1)
     = match body with
       | EmptyString => Panics "index out of range"
       | String c _ => Return c
       end
  /\ scanClose format (String.length format - (String.length pre + 1))
       (String.length pre + 1) = Return (String.length format)
  /\ byteAt format (String.length format) = Panics "index out of range".
Proof.
  intros Ho Hc Hb format.
  assert (Hlen : String.length format
                 = String.length pre + S (String.length body)).
  { unfold format. now rewrite length_append. }
  repeat split.
  - apply Nat.ltb_lt. lia.
  - apply (scanOpen_literal pre body Ho Hc "" _ 0 b). fold format. lia.
  - apply slice_prefix.
  - apply Nat.leb_gt. lia.
  - unfold format. destruct body as [|c t].
    + apply byteAt_end. rewrite length_append. simpl. lia.
    + rewrite (shift_one pre "{"), <- (length_snoc pre "{").
      apply byteAt_append.
  - replace (String.length format - (String.length pre + 1))
      with (String.length body) by lia.
    unfold format. rewrite (shift_one pre "{"), <- (length_snoc pre "{").
    rewrite (scanClose_run body Hb). f_equal.
    now rewrite !length_append.
  - apply byteAt_end. lia.
Qed.

Section Unmatched.

Variable Sprintf : string -> value -> string.
Variable getElement : string -> nat -> list value -> value * option error.
Variable ErrorRec : string -> list value -> call error.
Variable MustRec : string -> list value -> call string.
Variable clearflags : renderer -> renderer.
Variable render_ : renderer -> buffer -> call (renderer * buffer * option error).

Variables pre body : string.
Hypothesis Ho : strings.indexByte "{" pre = None.
Hypothesis Hc : strings.indexByte "}" pre = None.
Hypothesis Hs : startsWith body "{" = false.
Hypothesis Hb : strings.indexByte "}" body = None.

Ltac unmatched Hs H0 Hscan Hlit Hend Hat Hclose Hlast :=
  rewrite H0, Hscan; rewrite bind_Return; cbv beta iota zeta;
  destruct (0 <? String.length pre)%nat;
  rewrite ?Hlit, ?bind_Return, Hend, Hat;
  (destruct body as [|c t]; [reflexivity|]);
  simpl in Hs; rewrite bind_Return, Hs, Hclose, bind_Return, Hlast;
  reflexivity.

(** [doFormat] of the formatter file. *)
Lemma doFormat_unmatched (f : ff) :
  doFormat Sprintf getElement ErrorRec MustRec f (pre ++ String "{" body)
  = Panics "index out of range".
Proof.
  destruct (unmatched_facts pre body (buf f) Ho Hc Hb)
    as (H0 & Hscan & Hlit & Hend & Hat & Hclose & Hlast).
  unfold doFormat.
  remember (pre ++ String "{" body) as format eqn:Hf.
  rewrite Nat.add_1_r. cbn [doFormat_loop].
  unmatched Hs H0 Hscan Hlit Hend Hat Hclose Hlast.
Qed.

(** [doFormat] of the older formatter file. *)
Lemma Legacy_doFormat_unmatched (f : Legacy.ff) :
  Legacy.doFormat clearflags render_ f (pre ++ String "{" body)
  = Panics "index out of range".
Proof.
  destruct (unmatched_facts pre body (Legacy.buf f) Ho Hc Hb)
    as (H0 & Hscan & Hlit & Hend & Hat & Hclose & Hlast).
  unfold Legacy.doFormat.
  remember (pre ++ String "{" body) as format eqn:Hf.
  rewrite Nat.add_1_r. cbn [Legacy.doFormat_loop].
  unmatched Hs H0 Hscan Hlit Hend Hat Hclose Hlast.
Qed.

End Unmatched.

(** C1. A template [pre ++ "{" ++ body], where the literal text [pre] has
    no brace and [body] has no closing brace and does not start with an
    opening brace, has an unmatched opening brace.  On every such template
    [Fmt], [Format], [FormatMap] and [FormatStruct] panic with an index out
    of range, at [format[i]] after the opening brace or after the scan for
    the closing brace; the error for a single opening brace is not
    returned. *)
Theorem unmatched_open_brace_panics
  (Sprintf : string -> value -> string)
  (getElement : string -> nat -> list value -> value * option error)
  (clearflags : renderer -> renderer)
  (render_ : renderer -> buffer -> call (renderer * buffer * option error))
  (pre body : string) (a : list value) (m : string -> option value)
  (fields : list (string * value)) :
  strings.indexByte "{" pre = None ->
  strings.indexByte "}" pre = None ->
  startsWith body "{" = false ->
  strings.indexByte "}" body = None ->
  Fmt Sprintf getElement (pre ++ "{" ++ body) a
  = Panics "index out of range"
  /\ Legacy.Format clearflags render_ (pre ++ "{" ++ body) a
     = Panics "index out of range"
  /\ Legacy.FormatMap clearflags render_ (pre ++ "{" ++ body) m
     = Panics "index out of range"
  /\ Legacy.FormatStruct clearflags render_ (pre ++ "{" ++ body)
       (VStruct fields)
     = Panics "index out of range".
Proof.
  intros Ho Hc Hs Hb. simpl append.
  unfold Fmt, Fmt_body, Legacy.Format, Legacy.FormatMap, Legacy.FormatStruct,
    Legacy.finish.
  rewrite doFormat_unmatched by assumption.
  rewrite !Legacy_doFormat_unmatched by assumption.
  repeat split.
Qed.

Lemma unmatched_open_brace_panics_witness :
  Host.Fmt "{" [] = Panics "index out of range"
  /\ Host.Fmt "ab{cd" [VInt 1] = Panics "index out of range"
  /\ Legacy.Format clearFlags
       (render Host.Sprintf (Error Host.Sprintf Host.getElement)
          (Must Host.Sprintf Host.getElement))
       "ab{cd" [VInt 1]
     = Panics "index out of range".
Proof.
  split; [|split].
  - exact (proj1 (unmatched_open_brace_panics Host.Sprintf Host.getElement
             clearFlags (fun r b => Return (r, b, None)) "" "" []
             (fun _ => None) [] eq_refl eq_refl eq_refl eq_refl)).
  - exact (proj1 (unmatched_open_brace_panics Host.Sprintf Host.getElement
             clearFlags (fun r b => Return (r, b, None)) "ab" "cd" [VInt 1]
             (fun _ => None) [] eq_refl eq_refl eq_refl eq_refl)).
  - exact (proj1 (proj2 (unmatched_open_brace_panics Host.Sprintf
             Host.getElement clearFlags
             (render Host.Sprintf (Error Host.Sprintf Host.getElement)
                (Must Host.Sprintf Host.getElement))
             "ab" "cd" [VInt 1] (fun _ => None) [] eq_refl eq_refl eq_refl
             eq_refl))).
Defined.

(** ** The percent verb *)

Lemma Host_decimalInts : decimalInts Host.Sprintf.
Proof.
  intros n. unfold Host.Sprintf. simpl.
  unfold Host.formatInteger, Host.signText, strconv.Itoa, strconv.FormatUint.
  simpl. rewrite append_nil_r. reflexivity.
Qed.

Lemma decimal_not_dot (c : ascii) :
  strconv.isDecimal c = true -> Ascii.eqb c "." = false.
Proof.
  intros H. destruct (Ascii.eqb c ".") eqn:E; [|reflexivity].
  apply Ascii.eqb_eq in E. subst c. discriminate.
Qed.

Lemma parseUintLoop_no_dot (s : string) : forall n un,
  strconv.parseUintLoop n s = inl un -> strings.indexByte "." s = None.
Proof.
  induction s as [|c s IH]; simpl; intros n un H; [reflexivity|].
  destruct (strconv.isDecimal c) eqn:Hc; simpl in H; [|discriminate].
  rewrite (decimal_not_dot c Hc).
  destruct (_ <=? n)%Z; [discriminate|].
  destruct (_ <? _)%Z; [discriminate|].
  now rewrite (IH _ _ H).
Qed.

Lemma ParseInt_no_dot (s : string) (n : Z) :
  strconv.ParseInt s = Ok n -> strings.indexByte "." s = None.
Proof.
  unfold strconv.ParseInt, strconv.parseSigned.
  destruct s as [|c t]; [discriminate|].
  destruct (Ascii.eqb c "+" || Ascii.eqb c "-") eqn:Hsg.
  - destruct t as [|c' t']; [discriminate|].
    destruct (strconv.parseUintLoop 0 _) as [un|e] eqn:Hp; [|discriminate].
    intros _. apply parseUintLoop_no_dot in Hp.
    cbn [strings.indexByte]. cbn [strings.indexByte] in Hp.
    destruct (Ascii.eqb c ".") eqn:E.
    + apply Ascii.eqb_eq in E. subst c. discriminate.
    + now rewrite Hp.
  - destruct (strconv.parseUintLoop 0 _) as [un|e] eqn:Hp; [|discriminate].
    intros _. now apply parseUintLoop_no_dot in Hp.
Qed.

Lemma indexByte_append (c : ascii) (a b : string) :
  strings.indexByte c a = None ->
  strings.indexByte c (a ++ String c b) = Some (String.length a).
Proof.
  induction a as [|x a IH]; simpl; intros H.
  - now rewrite Ascii.eqb_refl.
  - destruct (Ascii.eqb x c); [discriminate|].
    destruct (strings.indexByte c a); [discriminate|].
    now rewrite IH.
Qed.

Lemma drop_past (a : string) (c : ascii) (b : string) :
  drop (S (String.length a)) (a ++ String c b) = b.
Proof. induction a as [|x a IH]; simpl; [reflexivity | exact IH]. Qed.

Lemma SplitN2_at (c : ascii) (a b : string) :
  strings.indexByte c a = None ->
  strings.SplitN2 (a ++ String c b) c = [a; b].
Proof.
  intros H. unfold strings.SplitN2. rewrite (indexByte_append c a b H).
  now rewrite take_append, drop_past.
Qed.

Lemma sliceFrom_two (d1 d2 : ascii) (t : string) :
  sliceFrom (String d1 (String d2 t)) 2 = Return t.
Proof.
  exact (sliceFrom_append (String d1 (str1 d2)) t).
Qed.

Lemma slice_two (d1 d2 : ascii) (t : string) :
  slice (String d1 (String d2 t)) 0 2 = Return (String d1 (str1 d2)).
Proof. exact (slice_prefix (String d1 (str1 d2)) t). Qed.

Lemma slice_second (d1 d2 : ascii) (t : string) :
  slice (String d1 (String d2 t)) 1 2 = Return (str1 d2).
Proof. exact (slice_append (str1 d1) (str1 d2) t). Qed.

Section Percent.

Variable ErrorRec : string -> list value -> call error.

(** The transform on a text without sign: an integer part, the point and
    at least two digits. *)
Lemma transformPercent_unsigned (ip : string) (n : Z) (d1 d2 : ascii)
  (t : string) :
  startsWith ip "-" = false ->
  strconv.ParseInt ip = Ok n ->
  transformPercent ErrorRec (ip ++ String "." (String d1 (String d2 t)))
  = Return (Ok (shiftPoint ip n d1 d2 t)).
Proof.
  intros Hs Hp. pose proof (ParseInt_no_dot ip n Hp) as Hd.
  unfold transformPercent.
  destruct ip as [|c ip']; [discriminate|].
  simpl in Hs. cbn [append]. unfold byteAt at 1. cbn [get].
  rewrite bind_Return, Hs, bind_Return. cbv beta iota zeta.
  change (String c (ip' ++ String "." (String d1 (String d2 t))))
    with (String c ip' ++ String "." (String d1 (String d2 t))).
  rewrite (SplitN2_at "." _ _ Hd). rewrite Hp.
  rewrite sliceFrom_two, slice_two, slice_second.
  unfold shiftPoint, strings.Join, byteAt. cbn [get bind].
  destruct (n =? 0)%Z.
  - destruct (Ascii.eqb d1 "0"); destruct t; reflexivity.
  - destruct (_ =? 1)%nat; destruct t; simpl;
      rewrite ?append_assoc; reflexivity.
Qed.

(** The transform on a text with a leading minus sign. *)
Lemma transformPercent_negative (ip : string) (n : Z) (d1 d2 : ascii)
  (t : string) :
  startsWith ip "-" = false ->
  strconv.ParseInt ip = Ok n ->
  transformPercent ErrorRec
    (String "-" (ip ++ String "." (String d1 (String d2 t))))
  = Return (Ok (String "-" (shiftPoint ip n d1 d2 t))).
Proof.
  intros Hs Hp. pose proof (ParseInt_no_dot ip n Hp) as Hd.
  unfold transformPercent.
  unfold byteAt at 1. cbn [get]. rewrite bind_Return.
  change (Ascii.eqb "-" "-") with true. cbv iota.
  rewrite sliceFrom_cons, !bind_Return. cbv beta iota zeta.
  rewrite (SplitN2_at "." _ _ Hd). rewrite Hp.
  rewrite sliceFrom_two, slice_two, slice_second.
  unfold shiftPoint, strings.Join, byteAt. cbn [get bind].
  destruct (n =? 0)%Z.
  - destruct (Ascii.eqb d1 "0"); destruct t; reflexivity.
  - destruct (_ =? 1)%nat; destruct t; simpl;
      rewrite ?append_assoc; reflexivity.
Qed.

(** A text without a decimal point gets [%] appended, after [00] when
    it is an integer.  On this path the minus sign taken off the front is
    not put back: the text of negative infinity loses it. *)
Lemma transformPercent_no_point (p : string) :
  startsWith p "-" = false ->
  strings.indexByte "." p = None ->
  p <> "" ->
  transformPercent ErrorRec p
  = Return (Ok (match strconv.ParseInt p with
                | Ok _ => p ++ "00%"
                | Err _ => p ++ "%"
                end))
  /\ transformPercent ErrorRec (String "-" p)
     = Return (Ok (match strconv.ParseInt p with
                   | Ok _ => p ++ "00%"
                   | Err _ => p ++ "%"
                   end)).
Proof.
  intros Hs Hd Hne. unfold transformPercent. split.
  - destruct p as [|c t]; [congruence|].
    unfold byteAt at 1. cbn [get]. rewrite bind_Return.
    simpl in Hs. rewrite Hs, bind_Return. cbv beta iota zeta.
    unfold strings.SplitN2. rewrite Hd.
    destruct (strconv.ParseInt _); reflexivity.
  - unfold byteAt at 1. cbn [get]. rewrite bind_Return.
    change (Ascii.eqb "-" "-") with true. cbv iota.
    rewrite sliceFrom_cons, !bind_Return. cbv beta iota zeta.
    unfold strings.SplitN2. rewrite Hd.
    destruct (strconv.ParseInt _); reflexivity.
Qed.

(** An integer part that is not parsed ends the transform with the
    error that names the text, without its minus sign. *)
Lemma transformPercent_bad_prefix (ip rest : string) (e : error) :
  startsWith ip "-" = false ->
  strings.indexByte "." ip = None ->
  strconv.ParseInt ip = Err e ->
  transformPercent ErrorRec (ip ++ String "." rest)
  = (x <- ErrorRec "Couldn't parse format prefix from: {}"
            [VString (ip ++ String "." rest)] ;;
     Return (Err x))
  /\ transformPercent ErrorRec (String "-" (ip ++ String "." rest))
     = (x <- ErrorRec "Couldn't parse format prefix from: {}"
               [VString (ip ++ String "." rest)] ;;
        Return (Err x)).
Proof.
  intros Hs Hd Hp. unfold transformPercent. split.
  - assert (Hc : exists c t, ip ++ String "." rest = String c t
                             /\ Ascii.eqb c "-" = false).
    { destruct ip as [|c ip'].
      - exists "."%char, rest. split; reflexivity.
      - exists c, (ip' ++ String "." rest). split; [reflexivity|].
        exact Hs. }
    destruct Hc as (c & t & Hc & Hm).
    rewrite Hc at 1. unfold byteAt at 1. cbn [get].
    rewrite bind_Return, Hm, bind_Return. cbv beta iota zeta.
    rewrite (SplitN2_at "." _ _ Hd), Hp. reflexivity.
  - unfold byteAt at 1. cbn [get]. rewrite bind_Return.
    change (Ascii.eqb "-" "-") with true. cbv iota.
    rewrite sliceFrom_cons, !bind_Return. cbv beta iota zeta.
    rewrite (SplitN2_at "." _ _ Hd), Hp. reflexivity.
Qed.

End Percent.

Section PercentSetup.

Variable Sprintf : string -> value -> string.
Variable getElement : string -> nat -> list value -> value * option error.
Variable ErrorRec : string -> list value -> call error.
Hypothesis Hpos : positional getElement.
Hypothesis Hdec : decimalInts Sprintf.

Lemma setupPercent_default (r : renderer) :
  precision (fl r) = "" ->
  setupPercent (Must Sprintf getElement) r
  = Return (setPrecision r ".8", None).
Proof. intros H. unfold setupPercent. now rewrite H. Qed.

Lemma setupPercent_plus_two (r : renderer) (ds : string) (p : Z) :
  precision (fl r) = String "." ds ->
  strconv.ParseInt ds = Ok p ->
  (p + 2 <= maxInt64)%Z ->
  setupPercent (Must Sprintf getElement) r
  = Return (setPrecision r (String "." (strconv.Itoa (p + 2))), None).
Proof.
  intros H Hp Hmax. unfold setupPercent. rewrite H.
  cbn [String.eqb]. rewrite sliceFrom_cons, bind_Return, Hp.
  rewrite wrap64_id.
  - rewrite (Must_precision Sprintf getElement Hpos), bind_Return, Hdec.
    reflexivity.
  - pose proof (ParseInt_range ds p Hp) as Hr.
    unfold isInt64, minInt64, maxInt64 in *. lia.
Qed.

(** The text and the width of a field under the percent verb, without
    sign, radix or width flags. *)
Lemma renderText_percent (r : renderer) (ds : string) (p : Z)
  (str out : string) :
  percent (fl r) = true ->
  showRadix (fl r) = false ->
  minWidth (fl r) = "" ->
  sign (fl r) = "" ->
  renderVerb (fl r) = "f" ->
  precision (fl r) = String "." ds ->
  strconv.ParseInt ds = Ok p ->
  (p + 2 <= maxInt64)%Z ->
  strings.TrimSpace
    (Sprintf ("%." ++ strconv.Itoa (p + 2) ++ "f") (val r)) = str ->
  transformPercent ErrorRec str = Return (Ok out) ->
  renderText Sprintf ErrorRec (Must Sprintf getElement) r
  = Return (setPrecision r (String "." (strconv.Itoa (p + 2))),
            Ok (out, 0%Z)).
Proof.
  intros Hpc Hrad Hmw Hsg Hv Hpr Hp Hmax Hstr Hout.
  unfold renderText. rewrite Hpc.
  rewrite (setupPercent_plus_two r ds p Hpr Hp Hmax).
  rewrite bind_Return. cbv beta iota zeta.
  cbn [setPrecision fl showRadix minWidth sign renderVerb precision
       percent val].
  rewrite Hrad, Hmw, Hv.
  change (isFloatVerb "f") with true. cbn [negb].
  cbv beta iota zeta.
  cbn [setPrecision fl showRadix minWidth sign renderVerb precision
       percent val String.eqb bind].
  rewrite Hsg, Hpc, Hmw, ?Hv.
  change (isFloatVerb "f") with true.
  cbn [negb String.eqb append]. cbv iota.
  cbn [append] in Hstr. rewrite Hstr, bind_Return, Hout.
  reflexivity.
Qed.

(** The same field when the transform returns an error. *)
Lemma renderText_percent_error (r : renderer) (ds : string) (p : Z)
  (str : string) (e : error) :
  percent (fl r) = true ->
  showRadix (fl r) = false ->
  minWidth (fl r) = "" ->
  sign (fl r) = "" ->
  renderVerb (fl r) = "f" ->
  precision (fl r) = String "." ds ->
  strconv.ParseInt ds = Ok p ->
  (p + 2 <= maxInt64)%Z ->
  strings.TrimSpace
    (Sprintf ("%." ++ strconv.Itoa (p + 2) ++ "f") (val r)) = str ->
  transformPercent ErrorRec str = Return (Err e) ->
  renderText Sprintf ErrorRec (Must Sprintf getElement) r
  = Return (setPrecision r (String "." (strconv.Itoa (p + 2))), Err e).
Proof.
  intros Hpc Hrad Hmw Hsg Hv Hpr Hp Hmax Hstr Hout.
  unfold renderText. rewrite Hpc.
  rewrite (setupPercent_plus_two r ds p Hpr Hp Hmax).
  rewrite bind_Return. cbv beta iota zeta.
  cbn [setPrecision fl showRadix minWidth sign renderVerb precision
       percent val].
  rewrite Hrad, Hmw, Hv.
  change (isFloatVerb "f") with true. cbn [negb].
  cbv beta iota zeta.
  cbn [setPrecision fl showRadix minWidth sign renderVerb precision
       percent val String.eqb bind].
  rewrite Hsg, Hpc, Hmw, ?Hv.
  change (isFloatVerb "f") with true.
  cbn [negb String.eqb append]. cbv iota.
  cbn [append] in Hstr. rewrite Hstr, bind_Return, Hout.
  reflexivity.
Qed.

End PercentSetup.

Section PercentScenarios.

Variable Sprintf : string -> value -> string.
Variable getElement : string -> nat -> list value -> value * option error.
Hypothesis Hpos : positional getElement.
Hypothesis Hdec : decimalInts Sprintf.

Ltac percent_run ds p str out Hs :=
  intros Hs; unfold Fmt, Fmt_body, doFormat;
  cbv -[parseFlags render append Error Must];
  rewrite (Hpos [VFloat _] 0 _ eq_refl);
  cbv -[render append Error Must];
  unfold render;
  match goal with
  | |- context [renderText _ _ _ ?r] =>
      rewrite (renderText_percent Sprintf getElement
                 (Error Sprintf getElement) Hpos Hdec r ds p str out);
      try reflexivity
  end;
  [ unfold maxInt64; lia | exact (f_equal strings.TrimSpace Hs) ].

Lemma percent_half :
  Sprintf "%.2f" (VFloat float_half) = "0.50" ->
  Fmt Sprintf getElement "{:.0%}" [VFloat float_half]
  = Return ("50%", None).
Proof.
  unfold float_half. percent_run "0" 0%Z "0.50" "50%" Hs.
Qed.

Lemma percent_small :
  Sprintf "%.4f" (VFloat float_0_005) = "0.0050" ->
  Fmt Sprintf getElement "{:.2%}" [VFloat float_0_005]
  = Return ("0.50%", None).
Proof.
  unfold float_0_005. percent_run "2" 2%Z "0.0050" "0.50%" Hs.
Qed.

Lemma percent_negative :
  Sprintf "%.2f" (VFloat float_neg_half) = "-0.50" ->
  Fmt Sprintf getElement "{:.0%}" [VFloat float_neg_half]
  = Return ("-50%", None).
Proof.
  unfold float_neg_half. percent_run "0" 0%Z "-0.50" "-50%" Hs.
Qed.

(** A value whose integer part is beyond [int64]: the transform does not
    parse it, and the field ends with the error. *)
Lemma percent_overflow :
  plainText Sprintf ->
  Sprintf "%.2f" (VFloat float_two63) = "9223372036854775808.00" ->
  Fmt Sprintf getElement "{:.0%}" [VFloat float_two63]
  = Return ("", Some "Couldn't parse format prefix from: 9223372036854775808.00").
Proof.
  intros [Hplain _] Hs. unfold float_two63 in *.
  assert (Ht : transformPercent (Error Sprintf getElement)
                 "9223372036854775808.00"
               = Return (Err "Couldn't parse format prefix from: 9223372036854775808.00")).
  { destruct (transformPercent_bad_prefix (Error Sprintf getElement)
                "9223372036854775808" "00"
                (strconv.numErrorText "ParseInt" "9223372036854775808"
                   strconv.ErrRange) eq_refl eq_refl eq_refl) as [H _].
    cbn [append] in H. rewrite H.
    rewrite (Error_bad_prefix Sprintf getElement Hpos), Hplain.
    reflexivity. }
  unfold Fmt, Fmt_body, doFormat.
  cbv -[parseFlags render append Error Must].
  rewrite (Hpos [VFloat _] 0 _ eq_refl).
  cbv -[render append Error Must].
  unfold render.
  match goal with
  | |- context [renderText _ _ _ ?r] =>
      rewrite (renderText_percent_error Sprintf getElement
                 (Error Sprintf getElement) Hpos Hdec r "0" 0%Z
                 "9223372036854775808.00"
                 "Couldn't parse format prefix from: 9223372036854775808.00");
      try reflexivity
  end;
  [ unfold maxInt64; lia | exact (f_equal strings.TrimSpace Hs)
  | exact Ht ].
Qed.

End PercentScenarios.

(** C4, as stated, fails: the decimal point is not shifted on every
    value.  The integer part of the rendered text is read with
    [strconv.ParseInt], and when it is not parsed the field ends with the
    error "Couldn't parse format prefix from: ...": 2^63 with precision 0 is
    printed by the host as [9223372036854775808.00] and gives this error,
    not [922337203685477580800%]. *)
Lemma percent_counterexample :
  Host.Sprintf "%.2f" (VFloat float_two63) = "9223372036854775808.00"
  /\ transformPercent (Error Host.Sprintf Host.getElement)
       "9223372036854775808.00"
     = Return (Err "Couldn't parse format prefix from: 9223372036854775808.00")
  /\ Host.Fmt "{:.0%}" [VFloat float_two63]
     = Return ("", Some "Couldn't parse format prefix from: 9223372036854775808.00")
  /\ Host.Fmt "{:.0%}" [VFloat float_two63]
     <> Return ("922337203685477580800%", None).
Proof.
  split; [vm_compute; reflexivity|].
  split; [vm_compute; reflexivity|].
  assert (H : Host.Fmt "{:.0%}" [VFloat float_two63]
              = Return ("", Some "Couldn't parse format prefix from: 9223372036854775808.00"))
    by (vm_compute; reflexivity).
  split; [exact H|]. rewrite H. discriminate.
Qed.

(** C4, amended. Under the percent verb the precision handed to the host
    formatter is [".8"] when the directive has none, and otherwise the
    directive's precision plus 2, when this sum is an [int64].  On a
    rendered text made of an integer part that [strconv.ParseInt] reads, the
    point and at least two digits, the transform moves the decimal point two
    places to the right and appends [%], keeping a leading minus sign in
    front; when the integer part is not read (a value of 2^63 or more, a
    text with a space in front), the transform returns the error "Couldn't
    parse format prefix from: " followed by the text, and so does the field.
    With a host that prints 0.5 under [%.2f] as [0.50], 0.005 under [%.4f]
    as [0.0050], -0.5 under [%.2f] as [-0.50] and 2^63 under [%.2f] as
    [9223372036854775808.00]: 0.5 with precision 0 gives [50%], 0.005 with
    precision 2 gives [0.50%], -0.5 with precision 0 gives [-50%], and 2^63
    with precision 0 gives the error. *)
Theorem percent_rendering
  (Sprintf : string -> value -> string)
  (getElement : string -> nat -> list value -> value * option error) :
  positional getElement ->
  decimalInts Sprintf ->
  (forall r, precision (fl r) = "" ->
     setupPercent (Must Sprintf getElement) r
     = Return (setPrecision r ".8", None))
  /\ (forall r ds p,
        precision (fl r) = "." ++ ds ->
        strconv.ParseInt ds = Ok p ->
        (p + 2 <= maxInt64)%Z ->
        setupPercent (Must Sprintf getElement) r
        = Return (setPrecision r ("." ++ strconv.Itoa (p + 2)), None))
  /\ (forall ip n d1 d2 t,
        startsWith ip "-" = false ->
        strconv.ParseInt ip = Ok n ->
        transformPercent (Error Sprintf getElement)
          (ip ++ "." ++ String d1 (String d2 t))
        = Return (Ok (shiftPoint ip n d1 d2 t))
        /\ transformPercent (Error Sprintf getElement)
             ("-" ++ ip ++ "." ++ String d1 (String d2 t))
           = Return (Ok ("-" ++ shiftPoint ip n d1 d2 t)))
  /\ (Sprintf "%.2f" (VFloat float_half) = "0.50" ->
      Fmt Sprintf getElement "{:.0%}" [VFloat float_half]
      = Return ("50%", None))
  /\ (Sprintf "%.4f" (VFloat float_0_005) = "0.0050" ->
      Fmt Sprintf getElement "{:.2%}" [VFloat float_0_005]
      = Return ("0.50%", None))
  /\ (Sprintf "%.2f" (VFloat float_neg_half) = "-0.50" ->
      Fmt Sprintf getElement "{:.0%}" [VFloat float_neg_half]
      = Return ("-50%", None))
  /\ (plainText Sprintf ->
      forall ip rest e,
        startsWith ip "-" = false ->
        strings.indexByte "." ip = None ->
        strconv.ParseInt ip = Err e ->
        transformPercent (Error Sprintf getElement) (ip ++ "." ++ rest)
        = Return (Err ("Couldn't parse format prefix from: "
                       ++ ip ++ "." ++ rest))
        /\ transformPercent (Error Sprintf getElement)
             ("-" ++ ip ++ "." ++ rest)
           = Return (Err ("Couldn't parse format prefix from: "
                          ++ ip ++ "." ++ rest)))
  /\ (plainText Sprintf ->
      Sprintf "%.2f" (VFloat float_two63) = "9223372036854775808.00" ->
      Fmt Sprintf getElement "{:.0%}" [VFloat float_two63]
      = Return ("", Some "Couldn't parse format prefix from: 9223372036854775808.00")).
Proof.
  intros Hpos Hdec. repeat split.
  - now apply setupPercent_default.
  - intros r ds p. now apply setupPercent_plus_two.
  - now apply transformPercent_unsigned.
  - now apply transformPercent_negative.
  - now apply percent_half.
  - now apply percent_small.
  - now apply percent_negative.
  - destruct (transformPercent_bad_prefix (Error Sprintf getElement)
                ip rest e H0 H1 H2) as [Hu _].
    cbn [append]. rewrite Hu.
    rewrite (Error_bad_prefix Sprintf getElement Hpos).
    destruct H as [Hplain _]. rewrite Hplain. reflexivity.
  - destruct (transformPercent_bad_prefix (Error Sprintf getElement)
                ip rest e H0 H1 H2) as [_ Hn].
    cbn [append]. cbn [append] in Hn. rewrite Hn.
    rewrite (Error_bad_prefix Sprintf getElement Hpos).
    destruct H as [Hplain _]. rewrite Hplain. reflexivity.
  - now apply percent_overflow.
Qed.

Lemma percent_rendering_witness :
  Host.Fmt "{:.0%}" [VFloat float_half] = Return ("50%", None)
  /\ Host.Fmt "{:.2%}" [VFloat float_0_005] = Return ("0.50%", None)
  /\ Host.Fmt "{:.0%}" [VFloat float_neg_half] = Return ("-50%", None)
  /\ transformPercent (Error Host.Sprintf Host.getElement) "12.3456"
     = Return (Ok "1234.56%")
  /\ transformPercent (Error Host.Sprintf Host.getElement) " 0.50"
     = Return (Err "Couldn't parse format prefix from:  0.50")
  /\ Host.Fmt "{:.0%}" [VFloat float_two63]
     = Return ("", Some "Couldn't parse format prefix from: 9223372036854775808.00").
Proof.
  pose proof (percent_rendering Host.Sprintf Host.getElement
                Host_positional Host_decimalInts)
    as (_ & _ & Hshift & Hhalf & Hsmall & Hneg & Hbad & Hover).
  split; [exact (Hhalf eq_refl)|].
  split; [exact (Hsmall eq_refl)|].
  split; [exact (Hneg eq_refl)|].
  split;
    [exact (proj1 (Hshift "12" 12%Z "3"%char "4"%char "56" eq_refl eq_refl))|].
  split;
    [exact (proj1 (Hbad Host_plainText " 0" "50"
                     (strconv.numErrorText "ParseInt" " 0" strconv.ErrSyntax)
                     eq_refl eq_refl eq_refl))|].
  apply (Hover Host_plainText). vm_compute. reflexivity.
Defined.

(** ** The iteration budgets of the template driver *)

Lemma slice_fuel (s : string) (i j : nat) : slice s i j <> OutOfFuel.
Proof. unfold slice. destruct (_ && _); discriminate. Qed.

Lemma byteAt_fuel (s : string) (i : nat) : byteAt s i <> OutOfFuel.
Proof. unfold byteAt. destruct (get i s); discriminate. Qed.

(** One step of a proof that a call is not [OutOfFuel]: split on the
    scrutinee at the head of the call. *)
Ltac split_call :=
  match goal with
  | H : slice _ _ _ = OutOfFuel |- _ => now apply slice_fuel in H
  | H : sliceFrom _ _ = OutOfFuel |- _ => now apply slice_fuel in H
  | H : byteAt _ _ = OutOfFuel |- _ => now apply byteAt_fuel in H
  | H : (if ?x then _ else _) = OutOfFuel |- _ =>
      destruct x; try discriminate H
  | H : (match ?x with _ => _ end) = OutOfFuel |- _ =>
      destruct x; try discriminate H
  | H : bind ?c _ = OutOfFuel |- _ =>
      destruct c eqn:?; cbn [bind] in H; try discriminate H
  | |- Return _ <> OutOfFuel => discriminate
  | |- Panics _ <> OutOfFuel => discriminate
  | |- bind ?c _ <> OutOfFuel => destruct c eqn:?; cbn [bind]
  | |- (if ?x then _ else _) <> OutOfFuel => destruct x eqn:?
  | |- (match ?x with _ => _ end) <> OutOfFuel => destruct x eqn:?
  end.

Lemma scanOpen_fuel (format : string) (end_ : nat) : forall fuel i cachei b,
  end_ - i <= fuel -> scanOpen fuel format end_ i cachei b <> OutOfFuel.
Proof.
  induction fuel as [|fuel IH]; intros i cachei b Hf; cbn [scanOpen].
  - replace (i <? end_)%nat with false
      by (symmetry; apply Nat.ltb_ge; lia).
    discriminate.
  - destruct (i <? end_)%nat eqn:Hi; [|discriminate].
    apply Nat.ltb_lt in Hi.
    repeat split_call; apply IH; lia.
Qed.

Lemma scanOpen_bounds (format : string) (end_ : nat) :
  forall fuel i cachei b i' cachei' b' e,
    scanOpen fuel format end_ i cachei b = Return (i', cachei', b', e) ->
    i <= i'.
Proof.
  induction fuel as [|fuel IH]; intros i cachei b i' cachei' b' e;
    cbn [scanOpen].
  - destruct (i <? end_)%nat; [|intros H; inversion H; lia].
    destruct (byteAt format i) as [c| |]; cbn [bind]; try discriminate.
    destruct (negb _); [discriminate|]. intros H; inversion H; lia.
  - destruct (i <? end_)%nat; [|intros H; inversion H; lia].
    destruct (byteAt format i) as [c| |]; cbn [bind]; try discriminate.
    destruct (negb _); [|intros H; inversion H; lia].
    destruct (Ascii.eqb c "}").
    + match goal with
      | |- bind ?c _ = _ -> _ => destruct c as [[]| |]; cbn [bind];
                                   try discriminate
      end.
      * intros H; inversion H; lia.
      * destruct (slice format cachei i); cbn [bind]; try discriminate.
        intros H. apply IH in H. lia.
    + intros H. apply IH in H. lia.
Qed.

Lemma scanClose_bounds (format : string) : forall n i i',
  scanClose format n i = Return i' -> i <= i'.
Proof.
  induction n as [|n IH]; intros i i'; cbn [scanClose].
  - intros H; inversion H; lia.
  - destruct (byteAt format i) as [c| |]; cbn [bind]; try discriminate.
    destruct (negb _).
    + intros H. apply IH in H. lia.
    + intros H; inversion H; lia.
Qed.

Lemma scanClose_fuel (format : string) : forall n i,
  scanClose format n i <> OutOfFuel.
Proof.
  induction n as [|n IH]; intros i; cbn [scanClose]; [discriminate|].
  repeat split_call. apply IH.
Qed.

Ltac loop_bounds :=
  repeat match goal with
    | H : scanOpen _ _ _ _ _ _ = Return _ |- _ =>
        apply scanOpen_bounds in H
    | H : scanClose _ _ _ = Return _ |- _ => apply scanClose_bounds in H
    | H : (_ <? _)%nat = true |- _ => apply Nat.ltb_lt in H
    end.

Section Budget.

Variable Sprintf : string -> value -> string.
Variable getElement : string -> nat -> list value -> value * option error.
Variable ErrorRec : string -> list value -> call error.
Variable MustRec : string -> list value -> call string.

Hypothesis parseFlags_returns :
  forall r flags, parseFlags ErrorRec r flags <> OutOfFuel.
Hypothesis render_returns :
  forall r b, render Sprintf ErrorRec MustRec r b <> OutOfFuel.

Lemma doFormat_loop_fuel : forall fuel format i f,
  String.length format - i < fuel ->
  doFormat_loop Sprintf getElement ErrorRec MustRec fuel format i f
  <> OutOfFuel.
Proof.
  induction fuel as [|fuel IH]; intros format i f Hf; [lia|].
  cbn [doFormat_loop].
  destruct (i <? String.length format)%nat eqn:Hi; [|discriminate].
  destruct (scanOpen _ _ _ _ _ _) as [[[[i1 c1] b1] e1]| |] eqn:Hso;
    cbn [bind]; [|discriminate|].
  2: { exfalso. revert Hso. apply scanOpen_fuel. lia. }
  cbv beta iota zeta.
  destruct e1; [discriminate|].
  repeat split_call;
    try (exfalso;
         match goal with
         | H : parseFlags _ _ _ = OutOfFuel |- _ =>
             exact (parseFlags_returns _ _ H)
         | H : render _ _ _ _ _ = OutOfFuel |- _ =>
             exact (render_returns _ _ H)
         | H : scanClose _ _ _ = OutOfFuel |- _ =>
             exact (scanClose_fuel _ _ _ H)
         end);
    apply IH; loop_bounds; lia.
Qed.

(** The budget that [doFormat] gives to its loop is never exhausted by
    the loop itself. *)
Lemma doFormat_total (f : ff) (format : string) :
  doFormat Sprintf getElement ErrorRec MustRec f format <> OutOfFuel.
Proof. unfold doFormat. apply doFormat_loop_fuel. lia. Qed.

End Budget.

Section LegacyBudget.

Variable clearflags : renderer -> renderer.
Variable render_ :
  renderer -> buffer -> call (renderer * buffer * option error).

Hypothesis render_returns : forall r b, render_ r b <> OutOfFuel.

Lemma getArg_fuel (f : Legacy.ff) (name : string) :
  Legacy.getArg f name <> OutOfFuel.
Proof. unfold Legacy.getArg. repeat split_call. Qed.

Lemma Legacy_doFormat_loop_fuel : forall fuel format i f,
  String.length format - i < fuel ->
  Legacy.doFormat_loop clearflags render_ fuel format i f <> OutOfFuel.
Proof.
  induction fuel as [|fuel IH]; intros format i f Hf; [lia|].
  cbn [Legacy.doFormat_loop].
  destruct (i <? String.length format)%nat eqn:Hi; [|discriminate].
  destruct (scanOpen _ _ _ _ _ _) as [[[[i1 c1] b1] e1]| |] eqn:Hso;
    cbn [bind]; [|discriminate|].
  2: { exfalso. revert Hso. apply scanOpen_fuel. lia. }
  cbv beta iota zeta.
  destruct e1; [discriminate|].
  repeat split_call;
    try (exfalso;
         match goal with
         | H : Legacy.getArg _ _ = OutOfFuel |- _ =>
             exact (getArg_fuel _ _ H)
         | H : render_ _ _ = OutOfFuel |- _ =>
             exact (render_returns _ _ H)
         | H : scanClose _ _ _ = OutOfFuel |- _ =>
             exact (scanClose_fuel _ _ _ H)
         end);
    apply IH; loop_bounds; lia.
Qed.

Lemma Legacy_doFormat_total (f : Legacy.ff) (format : string) :
  Legacy.doFormat clearflags render_ f format <> OutOfFuel.
Proof. unfold Legacy.doFormat. apply Legacy_doFormat_loop_fuel. lia. Qed.

End LegacyBudget.

Lemma Repeat_fuel (s : string) (n : Z) : strings.Repeat s n <> OutOfFuel.
Proof. unfold strings.Repeat. repeat split_call. Qed.

Lemma WriteAlignedString_fuel b s a w c :
  WriteAlignedString b s a w c <> OutOfFuel.
Proof.
  assert (Hflat : forall self b s a w c, a <> padSign ->
            WriteAlignedString_body self b s a w c <> OutOfFuel).
  { intros self b0 s0 a0 w0 c0 Ha. unfold WriteAlignedString_body.
    destruct (_ || _); [discriminate|].
    destruct a0; try congruence; repeat split_call;
      match goal with
      | H : strings.Repeat _ _ = OutOfFuel |- _ =>
          now apply Repeat_fuel in H
      end. }
  unfold WriteAlignedString. unfold WriteAlignedString_body at 1.
  destruct (_ || _); [discriminate|].
  destruct a; try discriminate; repeat split_call;
    try match goal with
      | H : strings.Repeat _ _ = OutOfFuel |- _ =>
          now apply Repeat_fuel in H
      end;
    apply Hflat; discriminate.
Qed.

Section Total.

Variable Sprintf : string -> value -> string.
Variable getElement : string -> nat -> list value -> value * option error.
Hypothesis Hpos : positional getElement.

Ltac nested_call :=
  match goal with
  | H : Error _ _ "Invalid flag pattern: {}, {}" _ = OutOfFuel |- _ =>
      rewrite (Error_invalid_flag Sprintf getElement Hpos) in H
  | H : Error _ _ "Can't convert width {} to int" _ = OutOfFuel |- _ =>
      rewrite (Error_bad_width Sprintf getElement Hpos) in H
  | H : Error _ _ "Couldn't parse format prefix from: {}" _ = OutOfFuel
    |- _ =>
      rewrite (Error_bad_prefix Sprintf getElement Hpos) in H
  | H : Must _ _ ".{}" _ = OutOfFuel |- _ =>
      rewrite (Must_precision Sprintf getElement Hpos) in H
  end; discriminate.

Lemma parseFlags_total (r : renderer) (flags : string) :
  parseFlags (Error Sprintf getElement) r flags <> OutOfFuel.
Proof.
  unfold parseFlags. destruct (flags =? ""); [discriminate|].
  rewrite splitFlags_refines, bind_Return.
  repeat split_call; nested_call.
Qed.

Lemma setupPercent_total (r : renderer) :
  setupPercent (Must Sprintf getElement) r <> OutOfFuel.
Proof. unfold setupPercent. repeat split_call; nested_call. Qed.

Lemma transformPercent_total (p : string) :
  transformPercent (Error Sprintf getElement) p <> OutOfFuel.
Proof. unfold transformPercent. repeat split_call; nested_call. Qed.

Lemma renderText_total (r : renderer) :
  renderText Sprintf (Error Sprintf getElement) (Must Sprintf getElement) r
  <> OutOfFuel.
Proof.
  unfold renderText.
  destruct (if percent (fl r) then _ else _) as [[r0 [e|]]| |] eqn:Hs;
    cbn [bind]; try discriminate.
  - repeat split_call;
      try nested_call;
      match goal with
      | H : transformPercent _ _ = OutOfFuel |- _ =>
          now apply transformPercent_total in H
      end.
  - destruct (percent (fl r)); [|discriminate].
    now apply setupPercent_total in Hs.
Qed.

Lemma renderWrite_total (r : renderer) (str : string) (w : Z)
  (b : buffer) :
  renderWrite r str w b <> OutOfFuel.
Proof.
  unfold renderWrite. repeat split_call; apply WriteAlignedString_fuel.
Qed.

Lemma render_total (r : renderer) (b : buffer) :
  render Sprintf (Error Sprintf getElement) (Must Sprintf getElement) r b
  <> OutOfFuel.
Proof.
  unfold render.
  destruct (renderText _ _ _ _) as [[r0 [[str w]|e]]| |] eqn:Ht;
    cbn [bind]; try discriminate.
  - destruct (renderWrite r0 str w b) eqn:Hw; cbn [bind];
      try discriminate.
    now apply renderWrite_total in Hw.
  - now apply renderText_total in Ht.
Qed.

(** With a resolver that hands out the positional arguments, [Fmt]
    returns or panics on every template and argument list: no loop of the
    model runs out of its budget, and the nested calls of [Error] and
    [Must] return. *)
Lemma Fmt_total (format : string) (a : list value) :
  Fmt Sprintf getElement format a <> OutOfFuel.
Proof.
  unfold Fmt, Fmt_body.
  destruct (doFormat _ _ _ _ _ _) as [[f [e|]]| |] eqn:Hd; cbn [bind];
    try discriminate.
  exfalso.
  exact (doFormat_total Sprintf getElement _ _ parseFlags_total
           render_total _ _ Hd).
Qed.

End Total.

(** ** Errors and the buffer *)

(** The epilogue shared by [Format], [FormatMap] and [FormatStruct]
    returns the empty string with an error. *)
Lemma finish_error (c : call (Legacy.ff * option error)) (s : string)
  (e : error) :
  Legacy.finish c = Return (s, Some e) ->
  s = "" /\ exists f, c = Return (f, Some e).
Proof.
  unfold Legacy.finish.
  destruct c as [[f [e'|]]| |]; simpl; intros H; inversion H; subst.
  split; [reflexivity | now exists f].
Qed.

(** The epilogue returns the buffer, or the empty string with an error,
    or passes a panic on. *)
Lemma finish_cases (c : call (Legacy.ff * option error)) :
  c <> OutOfFuel ->
  (exists s, Legacy.finish c = Return (s, None))
  \/ (exists e, Legacy.finish c = Return ("", Some e))
  \/ (exists msg, Legacy.finish c = Panics msg).
Proof.
  unfold Legacy.finish. destruct c as [[f [e|]]|msg|]; simpl; intros H.
  - right. left. now exists e.
  - left. now exists (Legacy.buf f).
  - right. right. now exists msg.
  - congruence.
Qed.

Lemma Fmt_cases
  (Sprintf : string -> value -> string)
  (getElement : string -> nat -> list value -> value * option error)
  (format : string) (a : list value) :
  positional getElement ->
  (exists s, Fmt Sprintf getElement format a = Return (s, None))
  \/ (exists e, Fmt Sprintf getElement format a = Return ("", Some e))
  \/ (exists msg, Fmt Sprintf getElement format a = Panics msg).
Proof.
  intros Hpos.
  pose proof (Fmt_total Sprintf getElement Hpos format a) as Ht.
  revert Ht. unfold Fmt, Fmt_body.
  destruct (doFormat _ _ _ _ _ _) as [[f [e|]]|msg|]; simpl; intros H.
  - right. left. now exists e.
  - left. now exists (buf f).
  - right. right. now exists msg.
  - congruence.
Qed.

(** C8. When [doFormat] returns an error, [Fmt] returns the empty string
    with that error, whatever the buffer holds at that point; a result of
    [Fmt], [Format], [FormatMap] or [FormatStruct] that carries an error
    carries the empty string; and each of these calls returns the buffer
    without an error, or the empty string with an error, or panics. *)
Theorem all_or_nothing
  (Sprintf : string -> value -> string)
  (getElement : string -> nat -> list value -> value * option error)
  (clearflags : renderer -> renderer)
  (render_ : renderer -> buffer -> call (renderer * buffer * option error))
  (format : string) :
  positional getElement ->
  (forall r b, render_ r b <> OutOfFuel) ->
  (forall a f e,
     doFormat Sprintf getElement (Error Sprintf getElement)
       (Must Sprintf getElement) (newFormater a) format
     = Return (f, Some e) ->
     Fmt Sprintf getElement format a = Return ("", Some e))
  /\ (forall a s e,
        Fmt Sprintf getElement format a = Return (s, Some e) -> s = "")
  /\ (forall a s e,
        Legacy.Format clearflags render_ format a = Return (s, Some e) ->
        s = "")
  /\ (forall m s e,
        Legacy.FormatMap clearflags render_ format m = Return (s, Some e) ->
        s = "")
  /\ (forall v s e,
        Legacy.FormatStruct clearflags render_ format v
        = Return (s, Some e) ->
        s = "")
  /\ (forall a,
        (exists s, Fmt Sprintf getElement format a = Return (s, None))
        \/ (exists e, Fmt Sprintf getElement format a = Return ("", Some e))
        \/ (exists msg, Fmt Sprintf getElement format a = Panics msg))
  /\ (forall a,
        (exists s, Legacy.Format clearflags render_ format a
                   = Return (s, None))
        \/ (exists e, Legacy.Format clearflags render_ format a
                      = Return ("", Some e))
        \/ (exists msg, Legacy.Format clearflags render_ format a
                        = Panics msg)).
Proof.
  intros Hpos Hrender. repeat split.
  - intros a f e H. unfold Fmt, Fmt_body. now rewrite H.
  - intros a s e. unfold Fmt, Fmt_body.
    destruct (doFormat _ _ _ _ _ _) as [[f [e'|]]| |]; simpl;
      intros H; now inversion H.
  - intros a s e H. unfold Legacy.Format in H.
    now apply finish_error in H.
  - intros m s e H. unfold Legacy.FormatMap in H.
    now apply finish_error in H.
  - intros v s e H. unfold Legacy.FormatStruct in H.
    destruct v; try (now inversion H).
    now apply finish_error in H.
  - intros a. now apply Fmt_cases.
  - intros a. unfold Legacy.Format. apply finish_cases.
    now apply Legacy_doFormat_total.
Qed.

(** On ["ab{}"] without arguments the literal text is in the buffer when
    the resolver fails, and [Fmt] returns the empty string. *)
Lemma all_or_nothing_witness :
  exists f,
    doFormat Host.Sprintf Host.getElement
      (Error Host.Sprintf Host.getElement)
      (Must Host.Sprintf Host.getElement) (newFormater []) "ab{}"
    = Return (f, Some "Format index (0) out of range (0)")
    /\ buf f = "ab"
    /\ Host.Fmt "ab{}" [] = Return ("", Some "Format index (0) out of range (0)").
Proof.
  eexists. split; [vm_compute; reflexivity|]. split; [reflexivity|].
  eapply (proj1 (all_or_nothing Host.Sprintf Host.getElement clearFlags
                   (fun r b => Return (r, b, None)) "ab{}"
                   Host_positional
                   (fun r b (H : Return (r, b, None) = OutOfFuel) =>
                      eq_ind (Return (r, b, None))
                        (fun c : call (renderer * buffer * option error) =>
                           match c with Return _ => True | _ => False end)
                        I OutOfFuel H))).
  vm_compute. reflexivity.
Defined.

(** ** The template driver against the segments of a template *)

Lemma memBytes_false (c : ascii) (s : string) :
  memBytes c s = false -> strings.indexByte c s = None.
Proof. unfold memBytes. destruct (strings.indexByte c s); congruence. Qed.

Lemma indexByte_head (c d : ascii) (s : string) :
  strings.indexByte c (String d s) = None ->
  Ascii.eqb d c = false /\ strings.indexByte c s = None.
Proof.
  simpl. destruct (Ascii.eqb d c); [discriminate|].
  destruct (strings.indexByte c s); [discriminate|]. now split.
Qed.

Lemma ltb_inside (X tail : string) (c : ascii) :
  (String.length X <? String.length (X ++ String c tail))%nat = true.
Proof. rewrite ltb_length_append. reflexivity. Qed.

(** The first inner loop over literal text without braces. *)
Lemma scanOpen_text (s : string) :
  strings.indexByte "{" s = None ->
  strings.indexByte "}" s = None ->
  forall (X tail : string) (fuel cachei : nat) (b : buffer),
    String.length s <= fuel ->
    scanOpen fuel (X ++ s ++ tail) (String.length (X ++ s ++ tail))
      (String.length X) cachei b
    = scanOpen (fuel - String.length s) (X ++ s ++ tail)
        (String.length (X ++ s ++ tail))
        (String.length X + String.length s) cachei b.
Proof.
  induction s as [|c s IH]; intros Ho Hc X tail fuel cachei b Hf.
  - simpl. now rewrite Nat.add_0_r, Nat.sub_0_r.
  - apply indexByte_head in Ho. destruct Ho as [Eo Ho].
    apply indexByte_head in Hc. destruct Hc as [Ec Hc].
    destruct fuel as [|fuel]; [simpl in Hf; lia|].
    cbn [append]. cbn [scanOpen].
    rewrite ltb_inside, byteAt_append, bind_Return, Eo, Ec.
    cbn [negb]. cbv iota.
    rewrite (shift_one X c). rewrite <- (length_snoc X c).
    rewrite (IH Ho Hc (X ++ str1 c) tail fuel cachei b)
      by (simpl in Hf; lia).
    rewrite length_snoc. cbn [String.length Nat.sub].
    f_equal. lia.
Qed.

(** The first inner loop at the escape of a closing brace. *)
Lemma scanOpen_closeEsc (D P tail : string) (fuel : nat) (b : buffer) :
  scanOpen (S fuel) (D ++ P ++ "}}" ++ tail)
    (String.length (D ++ P ++ "}}" ++ tail))
    (String.length D + String.length P) (String.length D) b
  = scanOpen fuel (D ++ P ++ "}}" ++ tail)
      (String.length (D ++ P ++ "}}" ++ tail))
      (String.length D + String.length P + 1 + 1)
      (String.length D + String.length P + 1) (WriteString b P).
Proof.
  cbn [scanOpen].
  assert (Hlen : String.length (D ++ P ++ "}}" ++ tail)
                 = String.length D + String.length P + 2
                   + String.length tail).
  { rewrite !length_append. simpl. lia. }
  replace (String.length D + String.length P <? _)%nat with true
    by (symmetry; apply Nat.ltb_lt; lia).
  assert (H0 : byteAt (D ++ P ++ "}}" ++ tail)
                 (String.length D + String.length P) = Return "}"%char).
  { rewrite <- length_append, <- append_assoc. apply byteAt_append. }
  assert (H1 : byteAt (D ++ P ++ "}}" ++ tail)
                 (String.length D + String.length P + 1)
               = Return "}"%char).
  { rewrite <- length_append, <- append_assoc.
    cbn [append]. rewrite (shift_one (D ++ P) "}").
    rewrite <- (length_snoc (D ++ P) "}"). apply byteAt_append. }
  rewrite H0, bind_Return. cbn [Ascii.eqb Bool.eqb negb]. cbv iota.
  replace (String.length D + String.length P + 1 =? _)%nat with false
    by (symmetry; apply Nat.eqb_neq; lia).
  rewrite H1, !bind_Return. cbn [Ascii.eqb Bool.eqb negb]. cbv iota.
  rewrite slice_append, bind_Return. reflexivity.
Qed.

(** The first inner loop stops at an opening brace. *)
Lemma scanOpen_stop (X tail : string) (fuel cachei : nat) (b : buffer) :
  scanOpen fuel (X ++ String "{" tail)
    (String.length (X ++ String "{" tail)) (String.length X) cachei b
  = Return (String.length X, cachei, b, None).
Proof.
  destruct fuel; cbn [scanOpen];
    rewrite ltb_inside, byteAt_append, bind_Return; reflexivity.
Qed.

(** It stops at the end of the template. *)
Lemma scanOpen_end (format : string) (fuel cachei : nat) (b : buffer) :
  scanOpen fuel format (String.length format) (String.length format)
    cachei b
  = Return (String.length format, cachei, b, None).
Proof.
  destruct fuel; cbn [scanOpen]; rewrite Nat.ltb_irrefl; reflexivity.
Qed.

(** It returns the error at a closing brace that stands alone. *)
Lemma scanOpen_stray (X tail : string) (fuel cachei : nat) (b : buffer) :
  startsWith tail "}" = false ->
  scanOpen (S fuel) (X ++ String "}" tail)
    (String.length (X ++ String "}" tail)) (String.length X) cachei b
  = Return (String.length X, cachei, b,
            Some "Single '}' encountered in format string").
Proof.
  intros Hs. cbn [scanOpen].
  rewrite ltb_inside, byteAt_append, bind_Return.
  cbn [Ascii.eqb Bool.eqb negb]. cbv iota.
  destruct tail as [|c t].
  - replace (String.length X + 1 =? String.length (X ++ "}"))%nat
      with true
      by (symmetry; apply Nat.eqb_eq; rewrite length_append; simpl; lia).
    reflexivity.
  - replace (String.length X + 1
             =? String.length (X ++ String "}" (String c t)))%nat
      with false
      by (symmetry; apply Nat.eqb_neq; rewrite length_append; simpl; lia).
    rewrite (shift_one X "}"), <- (length_snoc X "}"), byteAt_append.
    rewrite bind_Return. simpl in Hs. rewrite Hs. reflexivity.
Qed.

(** The first inner loop over the leading literal segments and [}}]
    escapes of a template: the text they stand for is written to the
    buffer or is pending between [cachei] and [i]. *)
Lemma scanOpen_run (segs : list segment) :
  forallb wellFormed segs = true ->
  forall (format D P rest : string) (b : buffer) (fuel : nat),
    format = D ++ P ++ assemble segs ++ rest ->
    String.length (assemble segs) <= fuel ->
    exists (D' P' : string) (b' : buffer) (fuel' : nat),
      format = D' ++ P' ++ assemble (afterLit segs) ++ rest
      /\ scanOpen fuel format (String.length format)
           (String.length D + String.length P) (String.length D) b
         = scanOpen fuel' format (String.length format)
             (String.length D' + String.length P') (String.length D') b'
      /\ b' ++ P' = b ++ P ++ litText segs
      /\ fuel + String.length (assemble (afterLit segs))
         <= fuel' + String.length (assemble segs).
Proof.
  induction segs as [|g segs IH]; intros Hwf format D P rest b fuel Hfmt Hf.
  - exists D, P, b, fuel. cbn [afterLit litText assemble].
    rewrite append_nil_r. repeat split; try assumption; lia.
  - cbn [forallb] in Hwf. apply andb_true_iff in Hwf.
    destruct Hwf as [Hg Hwf].
    destruct g as [s| | |body].
    + (* literal text *)
      cbn [wellFormed] in Hg. apply andb_true_iff in Hg.
      destruct Hg as [Ho Hc].
      apply negb_true_iff, memBytes_false in Ho.
      apply negb_true_iff, memBytes_false in Hc.
      cbn [assemble segmentText] in Hfmt, Hf.
      rewrite length_append in Hf.
      assert (Hfmt' : format = D ++ (P ++ s) ++ assemble segs ++ rest).
      { rewrite Hfmt. now rewrite !append_assoc. }
      destruct (IH Hwf format D (P ++ s) rest b (fuel - String.length s)
                  Hfmt' ltac:(lia))
        as (D' & P' & b' & fuel' & Hf1 & Hs1 & Hb1 & Hfu1).
      exists D', P', b', fuel'. cbn [afterLit litText assemble segmentText].
      split; [exact Hf1|]. split; [|split].
      * rewrite <- Hs1. rewrite length_append, Nat.add_assoc.
        assert (Hfmt2 : format
                        = (D ++ P) ++ s ++ (assemble segs ++ rest)).
        { rewrite Hfmt. now rewrite !append_assoc. }
        rewrite <- (length_append D P).
        rewrite Hfmt2 at 1 2 3 4.
        rewrite (scanOpen_text s Ho Hc (D ++ P) _ fuel _ b) by lia.
        rewrite <- Hfmt2. reflexivity.
      * rewrite Hb1. now rewrite !append_assoc.
      * rewrite length_append. lia.
    + (* an opening brace: the loop stops *)
      exists D, P, b, fuel. cbn [afterLit litText].
      rewrite append_nil_r. repeat split; try assumption; lia.
    + (* the escape of a closing brace *)
      cbn [assemble segmentText] in Hfmt, Hf.
      rewrite length_append in Hf. cbn [String.length] in Hf.
      destruct fuel as [|fuel]; [lia|].
      assert (Hfmt' : format
                      = (D ++ P ++ "}") ++ "}" ++ assemble segs ++ rest).
      { rewrite Hfmt. rewrite !append_assoc. reflexivity. }
      destruct (IH Hwf format (D ++ P ++ "}") "}" rest (WriteString b P)
                  fuel Hfmt' ltac:(lia))
        as (D' & P' & b' & fuel' & Hf1 & Hs1 & Hb1 & Hfu1).
      exists D', P', b', fuel'. cbn [afterLit litText assemble segmentText].
      split; [exact Hf1|]. split; [|split].
      * rewrite <- Hs1.
        assert (Hfmt2 : format = D ++ P ++ "}}" ++ (assemble segs ++ rest)).
        { rewrite Hfmt. rewrite !append_assoc. reflexivity. }
        rewrite Hfmt2 at 1 2 3 4. rewrite scanOpen_closeEsc.
        rewrite <- Hfmt2. rewrite !length_append. cbn [String.length].
        f_equal; lia.
      * rewrite Hb1. unfold WriteString. rewrite !append_assoc. reflexivity.
      * rewrite length_append. cbn [String.length]. lia.
    + (* a field: the loop stops *)
      exists D, P, b, fuel. cbn [afterLit litText].
      rewrite append_nil_r. repeat split; try assumption; lia.
Qed.

Lemma length_afterLit (segs : list segment) :
  String.length (assemble (afterLit segs)) <= String.length (assemble segs).
Proof.
  induction segs as [|[s| | |body] segs IH]; cbn [afterLit assemble];
    try lia; rewrite length_append; lia.
Qed.

Lemma afterLit_head (segs : list segment) :
  match afterLit segs with
  | Lit _ :: _ | CloseEsc :: _ => False
  | _ => True
  end.
Proof.
  induction segs as [|[s| | |body] segs IH]; cbn [afterLit];
    try exact I; exact IH.
Qed.

Lemma assemble_empty (segs : list segment) :
  String.length (assemble segs) = 0 ->
  afterLit segs = [] /\ litText segs = "".
Proof.
  induction segs as [|[s| | |body] segs IH]; cbn [afterLit litText assemble];
    intros H.
  - now split.
  - rewrite length_append in H. destruct s; [|simpl in H; lia].
    apply IH. simpl in H. lia.
  - simpl in H. lia.
  - simpl in H. lia.
  - simpl in H. lia.
Qed.

Lemma setBuf_buf (f : ff) : setBuf f (buf f) = f.
Proof. destruct f. reflexivity. Qed.

Lemma wellFormed_afterLit (segs : list segment) :
  forallb wellFormed segs = true ->
  forallb wellFormed (afterLit segs) = true.
Proof.
  induction segs as [|[s| | |body] segs IH]; cbn [afterLit forallb];
    intros H; try exact H; apply andb_true_iff in H; apply IH, H.
Qed.

(** The position after a prefix [X] of the template. *)
Lemma at_stop (format X tail : string) (fuel i cachei : nat) (b : buffer) :
  format = X ++ String "{" tail -> i = String.length X ->
  scanOpen fuel format (String.length format) i cachei b
  = Return (i, cachei, b, None).
Proof. intros -> ->. apply scanOpen_stop. Qed.

Lemma at_end (format : string) (fuel i cachei : nat) (b : buffer) :
  i = String.length format ->
  scanOpen fuel format (String.length format) i cachei b
  = Return (i, cachei, b, None).
Proof. intros ->. apply scanOpen_end. Qed.

Lemma at_stray (format X tail : string) (fuel i cachei : nat) (b : buffer) :
  format = X ++ String "}" tail -> i = String.length X ->
  startsWith tail "}" = false -> 0 < fuel ->
  scanOpen fuel format (String.length format) i cachei b
  = Return (i, cachei, b, Some "Single '}' encountered in format string").
Proof.
  intros -> -> Hs Hf. destruct fuel as [|fuel]; [lia|].
  now apply scanOpen_stray.
Qed.

Lemma byteAt_at (format X tail : string) (c : ascii) (i : nat) :
  format = X ++ String c tail -> i = String.length X ->
  byteAt format i = Return c.
Proof. intros -> ->. apply byteAt_append. Qed.

Lemma byteAt_past (format : string) (i : nat) :
  String.length format <= i -> byteAt format i = Panics "index out of range".
Proof. apply byteAt_end. Qed.

Lemma slice_at (format X t tail : string) (i j : nat) :
  format = X ++ t ++ tail -> i = String.length X ->
  j = String.length X + String.length t ->
  slice format i j = Return t.
Proof. intros -> -> ->. apply slice_append. Qed.

(** The second inner loop stops at the first closing brace. *)
Lemma scanClose_stop (body : string) :
  strings.indexByte "}" body = None ->
  forall (X tail : string) (n : nat),
    String.length body < n ->
    scanClose (X ++ body ++ String "}" tail) n (String.length X)
    = Return (String.length X + String.length body).
Proof.
  induction body as [|c body IH]; intros Hc X tail n Hn.
  - destruct n as [|n]; [simpl in Hn; lia|].
    cbn [append scanClose]. rewrite byteAt_append, bind_Return.
    cbn [Ascii.eqb Bool.eqb negb]. cbv iota. now rewrite Nat.add_0_r.
  - apply indexByte_head in Hc. destruct Hc as [Ec Hc].
    destruct n as [|n]; [simpl in Hn; lia|].
    cbn [append scanClose]. rewrite byteAt_append, bind_Return, Ec.
    cbn [negb]. cbv iota.
    rewrite (shift_one X c), <- (length_snoc X c).
    rewrite (IH Hc (X ++ str1 c) tail n) by (simpl in Hn; lia).
    rewrite length_snoc. cbn [String.length]. f_equal. lia.
Qed.

Lemma close_at (format X body tail : string) (n i : nat) :
  format = X ++ body ++ String "}" tail -> i = String.length X ->
  strings.indexByte "}" body = None ->
  String.length body < n ->
  scanClose format n i = Return (i + String.length body).
Proof. intros -> -> Hc Hn. now apply scanClose_stop. Qed.

Lemma close_to_end (format X body : string) (n i : nat) :
  format = X ++ body -> i = String.length X ->
  strings.indexByte "}" body = None ->
  n = String.length body ->
  scanClose format n i = Return (String.length format).
Proof.
  intros -> -> Hc ->. rewrite (scanClose_run body Hc X).
  now rewrite length_append.
Qed.

Section Driver.

Variable Sprintf : string -> value -> string.
Variable getElement : string -> nat -> list value -> value * option error.
Variable ErrorRec : string -> list value -> call error.
Variable MustRec : string -> list value -> call string.

(** The leading literal segments of a template only add their text to
    the buffer. *)
Lemma expand_litRun (segs : list segment) : forall f,
  expand Sprintf getElement ErrorRec MustRec segs f
  = expand Sprintf getElement ErrorRec MustRec (afterLit segs)
      (setBuf f (buf f ++ litText segs)).
Proof.
  induction segs as [|[s| | |body] segs IH]; intros f;
    cbn [afterLit litText].
  - now rewrite append_nil_r, setBuf_buf.
  - cbn [expand]. rewrite IH. unfold WriteString. cbn [buf setBuf].
    now rewrite append_assoc.
  - now rewrite append_nil_r, setBuf_buf.
  - cbn [expand]. rewrite IH. unfold WriteString. cbn [buf setBuf].
    now rewrite append_assoc.
  - now rewrite append_nil_r, setBuf_buf.
Qed.

Lemma loop_segments : forall (fuel : nat) (segs : list segment)
    (t : terminal) (format D : string) (f : ff),
  forallb wellFormed segs = true ->
  wellFormedEnd t = true ->
  format = D ++ assemble segs ++ terminalText t ->
  String.length (assemble segs ++ terminalText t) < fuel ->
  project (doFormat_loop Sprintf getElement ErrorRec MustRec fuel format
             (String.length D) f)
  = finishWith t (expand Sprintf getElement ErrorRec MustRec segs f).
Proof.
  induction fuel as [|fuel IH];
    intros segs t format D f Hwf Hend Hfmt Hfuel; [lia|].
  assert (Hl : String.length format
               = String.length D + String.length (assemble segs)
                 + String.length (terminalText t)).
  { rewrite Hfmt, !length_append. lia. }
  cbn [doFormat_loop].
  destruct (String.length D <? String.length format)%nat eqn:Hi.
  2: { (* the template is at its end *)
    apply Nat.ltb_ge in Hi.
    destruct (assemble_empty segs ltac:(lia)) as [Ha Ht].
    destruct t; cbn [terminalText append String.length] in Hl; try lia.
    rewrite expand_litRun, Ha, Ht, append_nil_r, setBuf_buf.
    reflexivity. }
  rewrite expand_litRun.
  destruct (scanOpen_run segs Hwf format D "" (terminalText t) (buf f)
              (String.length format - String.length D) Hfmt)
    as (D' & P' & b' & fuel' & Hf1 & Hs1 & Hb1 & Hfu1).
  { lia. }
  cbn [String.length] in Hs1. rewrite Nat.add_0_r in Hs1.
  cbn [append] in Hb1. rewrite <- Hb1. clear Hb1.
  pose proof (afterLit_head segs) as Hhead.
  pose proof (length_afterLit segs) as Hlen.
  assert (Hl' : String.length format
                = String.length D' + String.length P'
                  + String.length (assemble (afterLit segs))
                  + String.length (terminalText t)).
  { rewrite Hf1 at 1. rewrite !length_append. lia. }
  rewrite Hs1. clear Hs1.
  assert (Hsl : slice format (String.length D')
                  (String.length D' + String.length P') = Return P').
  { now apply (slice_at format D' P'
                 (assemble (afterLit segs) ++ terminalText t)). }
  assert (Hwf' := wellFormed_afterLit segs Hwf).
  assert (Hpend : String.length D' + String.length P' <= String.length D'
                  -> P' = "").
  { intros H. destruct P'; [reflexivity|]. simpl in H. lia. }
  destruct (afterLit segs) as [|[s| | |body] rest] eqn:Ha;
    try contradiction.
  - (* no segment is left *)
    cbn [assemble append] in Hf1, Hl'.
    destruct t as [|tail|body];
      cbn [terminalText append String.length] in Hf1, Hl', Hl.
    + (* the end of the template *)
      rewrite at_end by (cbn [String.length] in Hl'; lia).
      rewrite bind_Return. cbv beta iota zeta.
      replace (String.length format <=? _)%nat with true
        by (symmetry; apply Nat.leb_le; cbn [String.length] in Hl'; lia).
      destruct (String.length D' <? String.length D' + String.length P')%nat
        eqn:Hlt.
      * rewrite Hsl. reflexivity.
      * apply Nat.ltb_ge in Hlt.
        rewrite (Hpend Hlt), append_nil_r. reflexivity.
    + (* a closing brace that stands alone *)
      cbn [wellFormedEnd] in Hend. apply negb_true_iff in Hend.
      rewrite (at_stray format (D' ++ P') tail);
        [reflexivity | now rewrite Hf1, append_assoc
        | now rewrite length_append | exact Hend | ].
      cbn [assemble String.length] in Hfu1, Hl'. lia.
    + (* an opening brace that is never closed *)
      cbn [wellFormedEnd] in Hend. apply andb_true_iff in Hend.
      destruct Hend as [Hc Ho].
      apply negb_true_iff, memBytes_false in Hc.
      apply negb_true_iff in Ho.
      rewrite (at_stop format (D' ++ P') body)
        by (rewrite ?length_append, ?append_assoc; auto).
      rewrite bind_Return. cbv beta iota zeta.
      replace (String.length format <=? _)%nat with false
        by (symmetry; apply Nat.leb_gt; lia).
      destruct (String.length D' <? String.length D' + String.length P')%nat;
        [rewrite Hsl|]; rewrite bind_Return; cbv beta iota zeta.
      all: destruct body as [|c body]; cbn [String.length] in Hl';
        [ rewrite byteAt_past by lia; reflexivity | ].
      all: rewrite (byteAt_at format (D' ++ P' ++ "{") body c)
          by (rewrite ?length_append, ?append_assoc;
              cbn [String.length]; auto; lia).
      all: simpl in Ho; rewrite bind_Return, Ho.
      all: rewrite (close_to_end format (D' ++ P' ++ "{") (String c body))
          by (rewrite ?length_append, ?append_assoc;
              cbn [String.length]; auto; lia).
      all: rewrite bind_Return, byteAt_past by lia; reflexivity.
  - (* the escape of an opening brace *)
    cbn [assemble segmentText] in Hf1, Hl', Hlen.
    rewrite length_append in Hl', Hlen, Hfuel.
    cbn [String.length] in Hl', Hlen.
    rewrite (at_stop format (D' ++ P') ("{" ++ assemble rest ++ terminalText t))
      by (rewrite ?length_append, ?append_assoc; auto).
    rewrite bind_Return. cbv beta iota zeta.
    replace (String.length format <=? _)%nat with false
      by (symmetry; apply Nat.leb_gt; lia).
    rewrite (byteAt_at format (D' ++ P' ++ "{")
               (assemble rest ++ terminalText t) "{")
      by (rewrite ?length_append, ?append_assoc;
          cbn [String.length]; auto; lia).
    cbn [expand].
    replace (String.length D' + String.length P' + 1 + 1)
      with (String.length (D' ++ P' ++ "{{"))
      by (rewrite !length_append; cbn [String.length]; lia).
    destruct (String.length D' <? String.length D' + String.length P')%nat
      eqn:Hlt;
      [rewrite Hsl
      |apply Nat.ltb_ge in Hlt; rewrite (Hpend Hlt), ?append_nil_r];
      rewrite !bind_Return; cbv beta iota zeta;
      cbn [Ascii.eqb Bool.eqb]; cbv iota.
    all: apply IH;
      [ now apply andb_true_iff in Hwf'
      | exact Hend
      | rewrite Hf1 at 1; rewrite ?(Hpend Hlt), ?append_assoc; reflexivity
      | rewrite length_append; lia ].
  - (* a field *)
    cbn [assemble segmentText] in Hf1, Hl', Hlen.
    rewrite length_append in Hfuel.
    repeat (rewrite ?length_append in Hl', Hlen;
            cbn [append String.length] in Hl', Hlen).
    cbn [forallb wellFormed] in Hwf'.
    apply andb_true_iff in Hwf'. destruct Hwf' as [Hb Hwf'].
    apply andb_true_iff in Hb. destruct Hb as [Hc Ho].
    apply negb_true_iff, memBytes_false in Hc.
    apply negb_true_iff in Ho.
    assert (Hf2 : format
                  = (D' ++ P' ++ "{") ++ body
                    ++ String "}" (assemble rest ++ terminalText t)).
    { rewrite Hf1. cbn [append]. rewrite !append_assoc. reflexivity. }
    assert (Hf3 : format
                  = (D' ++ P')
                    ++ String "{" (body ++ String "}"
                                     (assemble rest ++ terminalText t))).
    { rewrite Hf2. rewrite !append_assoc. reflexivity. }
    assert (Hf4 : format
                  = ((D' ++ P' ++ "{") ++ body)
                    ++ String "}" (assemble rest ++ terminalText t)).
    { rewrite Hf2. rewrite !append_assoc. reflexivity. }
    assert (Hf5 : format
                  = ((D' ++ P' ++ "{") ++ body ++ "}")
                    ++ assemble rest ++ terminalText t).
    { rewrite Hf2. rewrite !append_assoc. reflexivity. }
    assert (Hx : String.length (D' ++ P' ++ "{")
                 = String.length D' + String.length P' + 1).
    { rewrite !length_append. cbn [String.length]. lia. }
    rewrite (at_stop format (D' ++ P') _ _ _ _ _ Hf3)
      by now rewrite length_append.
    rewrite bind_Return. cbv beta iota zeta.
    replace (String.length format <=? _)%nat with false
      by (symmetry; apply Nat.leb_gt; lia).
    assert (Hfirst : exists c, byteAt format
                       (String.length D' + String.length P' + 1)
                     = Return c /\ Ascii.eqb c "{" = false).
    { destruct body as [|c body].
      - exists "}"%char. split; [|reflexivity].
        apply (byteAt_at format (D' ++ P' ++ "{")
                 (assemble rest ++ terminalText t)); auto.
      - exists c. split; [|exact Ho].
        apply (byteAt_at format (D' ++ P' ++ "{")
                 (body ++ String "}" (assemble rest ++ terminalText t)));
          auto. }
    destruct Hfirst as (c & Hc0 & Hc1).
    cbn [expand]. unfold fieldStep.
    destruct (String.length D' <? String.length D' + String.length P')%nat
      eqn:Hlt;
      [rewrite Hsl
      |apply Nat.ltb_ge in Hlt; pose proof (Hpend Hlt) as HP; subst P';
       rewrite ?append_nil_r];
      rewrite !bind_Return; cbv beta iota zeta.
    1: change (setBuf (setBuf f b') (WriteString (buf (setBuf f b')) P'))
         with (setBuf f (b' ++ P')).
    all: rewrite Hc0, bind_Return, Hc1.
    all: rewrite (close_at format _ body _ _ _ Hf2) by (auto; lia).
    all: rewrite bind_Return.
    all: rewrite (byteAt_at format _ _ "}" _ Hf4)
      by (rewrite length_append; lia).
    all: rewrite bind_Return; cbn [Ascii.eqb Bool.eqb negb]; cbv iota.
    all: rewrite (slice_at format _ body _ _ _ Hf2) by lia.
    all: rewrite bind_Return.
    all: match type of Hf5 with
         | _ = ?X ++ _ =>
             match goal with
             | |- context [doFormat_loop _ _ _ _ _ _ ?n] =>
                 replace n with (String.length X)
                   by (rewrite !length_append; cbn [String.length]; lia)
             end
         end.
    all: destruct (splitFormat body) as [name spec].
    all: match goal with
         | |- context [getArg getElement ?st ?n] =>
             destruct (getArg getElement st n) as [f0 [v [e|]]]
         end; [reflexivity|].
    all: match goal with
         | |- context [parseFlags ErrorRec ?x ?y] =>
             destruct (parseFlags ErrorRec x y) as [[r1 [e|]]|msg|]
         end; cbn [bind]; try reflexivity.
    all: match goal with
         | |- context [render Sprintf ErrorRec MustRec ?x ?y] =>
             destruct (render Sprintf ErrorRec MustRec x y)
               as [[[r2 b2] [e|]]|msg|]
         end; cbn [bind]; try reflexivity.
    all: apply IH;
      [ exact Hwf' | exact Hend | exact Hf5 | rewrite length_append; lia ].
Qed.

End Driver.

(** ** What [Fmt] computes *)

(** [Fmt] on a template given by its segments. *)
Lemma Fmt_segments
  (Sprintf : string -> value -> string)
  (getElement : string -> nat -> list value -> value * option error)
  (segs : list segment) (t : terminal) (a : list value) :
  forallb wellFormed segs = true ->
  wellFormedEnd t = true ->
  Fmt Sprintf getElement (assemble segs ++ terminalText t) a
  = finishWith t
      (expand Sprintf getElement (Error Sprintf getElement)
         (Must Sprintf getElement) segs (newFormater a)).
Proof.
  intros Hwf Hend.
  change (Fmt Sprintf getElement (assemble segs ++ terminalText t) a)
    with (project
            (doFormat_loop Sprintf getElement (Error Sprintf getElement)
               (Must Sprintf getElement)
               (String.length (assemble segs ++ terminalText t) + 1)
               (assemble segs ++ terminalText t) (String.length "")
               (newFormater a))).
  apply loop_segments; [exact Hwf | exact Hend | reflexivity | lia].
Qed.

Lemma startsWith_split (t : string) (c : ascii) :
  startsWith t c = true -> t = String c (drop 1 t).
Proof.
  destruct t as [|d t]; [discriminate|]. simpl.
  intros H. apply Ascii.eqb_eq in H. now subst.
Qed.

Lemma indexByte_split (c : ascii) (t : string) (k : nat) :
  strings.indexByte c t = Some k ->
  t = take k t ++ String c (drop (S k) t)
  /\ strings.indexByte c (take k t) = None
  /\ k < String.length t.
Proof.
  revert k; induction t as [|d t IH]; intros k; simpl; [discriminate|].
  destruct (Ascii.eqb d c) eqn:E.
  - intros H; inversion H; subst. apply Ascii.eqb_eq in E. subst.
    simpl. repeat split. lia.
  - destruct (strings.indexByte c t) as [j|] eqn:Hj; [|discriminate].
    simpl. intros H; inversion H; subst.
    destruct (IH j eq_refl) as (H1 & H2 & H3).
    simpl. rewrite E, H2. simpl. repeat split; [|lia].
    f_equal. exact H1.
Qed.

Lemma startsWith_take (t : string) (c : ascii) (k : nat) :
  startsWith t c = false -> startsWith (take k t) c = false.
Proof. destruct t as [|d t]; destruct k; simpl; auto. Qed.

Lemma memBytes_of_index (c : ascii) (s : string) :
  strings.indexByte c s = None -> memBytes c s = false.
Proof. unfold memBytes. now intros ->. Qed.

(** The segments read off a template are well formed and spell it. *)
Lemma tokenize_sound : forall (n : nat) (s : string),
  String.length s <= n ->
  forallb wellFormed (fst (tokenize n s)) = true
  /\ wellFormedEnd (snd (tokenize n s)) = true
  /\ assemble (fst (tokenize n s)) ++ terminalText (snd (tokenize n s)) = s.
Proof.
  induction n as [|n IH]; intros s Hn.
  - destruct s; [|simpl in Hn; lia]. now repeat split.
  - destruct s as [|c t]; [now repeat split|].
    simpl in Hn. cbn [tokenize].
    destruct (Ascii.eqb c "{") eqn:Eo.
    + apply Ascii.eqb_eq in Eo. subst c.
      destruct (startsWith t "{") eqn:Hs.
      * pose proof (startsWith_split t _ Hs) as Ht.
        assert (Hl : String.length (drop 1 t) <= n)
          by (rewrite length_drop; lia).
        destruct (IH _ Hl) as (H1 & H2 & H3).
        destruct (tokenize n (drop 1 t)) as [segs e].
        cbn [fst snd] in *. cbn [forallb wellFormed assemble segmentText].
        repeat split; try assumption.
        cbn [append]. rewrite H3. now rewrite <- Ht.
      * destruct (strings.indexByte "}" t) as [k|] eqn:Hk.
        -- destruct (indexByte_split _ _ _ Hk) as (Ht & Hnone & Hlt).
           assert (Hl : String.length (drop (S k) t) <= n)
             by (rewrite length_drop; lia).
           destruct (IH _ Hl) as (H1 & H2 & H3).
           destruct (tokenize n (drop (S k) t)) as [segs e].
           cbn [fst snd] in *.
           cbn [forallb wellFormed assemble segmentText].
           rewrite (memBytes_of_index _ _ Hnone).
           rewrite (startsWith_take t "{" k Hs).
           repeat split; try assumption.
           cbn [append]. rewrite !append_assoc. cbn [append].
           rewrite H3. now rewrite <- Ht.
        -- cbn [fst snd forallb wellFormedEnd assemble terminalText].
           rewrite (memBytes_of_index _ _ Hk), Hs. now repeat split.
    + destruct (Ascii.eqb c "}") eqn:Ec.
      * apply Ascii.eqb_eq in Ec. subst c.
        destruct (startsWith t "}") eqn:Hs.
        -- pose proof (startsWith_split t _ Hs) as Ht.
           assert (Hl : String.length (drop 1 t) <= n)
             by (rewrite length_drop; lia).
           destruct (IH _ Hl) as (H1 & H2 & H3).
           destruct (tokenize n (drop 1 t)) as [segs e].
           cbn [fst snd] in *. cbn [forallb wellFormed assemble segmentText].
           repeat split; try assumption.
           cbn [append]. rewrite H3. now rewrite <- Ht.
        -- cbn [fst snd forallb wellFormedEnd assemble terminalText].
           rewrite Hs. now repeat split.
      * assert (Hl : String.length t <= n) by lia.
        destruct (IH _ Hl) as (H1 & H2 & H3).
        destruct (tokenize n t) as [segs e].
        cbn [fst snd] in *. cbn [forallb wellFormed assemble segmentText].
        unfold memBytes. cbn [strings.indexByte str1 option_map].
        rewrite Eo, Ec. cbn [negb andb].
        repeat split; try assumption.
        cbn [append str1]. now rewrite H3.
Qed.

(** X1. On every template and argument list, [Fmt] returns what the
    expansion of the segments of the template returns: literal text and the
    escapes [{{] and [}}] go to the output, each field [{body}] is resolved,
    parsed and rendered in turn, and the first error ends the expansion with
    the empty string; a closing brace that stands alone is the error
    "Single '}' encountered in format string", and an opening brace that is
    never closed is a panic. *)
Theorem Fmt_tokenize
  (Sprintf : string -> value -> string)
  (getElement : string -> nat -> list value -> value * option error)
  (format : string) (a : list value) :
  Fmt Sprintf getElement format a
  = finishWith (snd (tokenize (String.length format) format))
      (expand Sprintf getElement (Error Sprintf getElement)
         (Must Sprintf getElement)
         (fst (tokenize (String.length format) format)) (newFormater a)).
Proof.
  destruct (tokenize_sound (String.length format) format (le_n _))
    as (Hwf & Hend & Hs).
  rewrite <- Hs at 1. now apply Fmt_segments.
Qed.

(** The segments of an escaped text: they are well formed, spell the
    escaped text, and expand to the text. *)
Lemma escape_segments (s : string) :
  exists segs : list segment,
    forallb wellFormed segs = true
    /\ assemble segs = escape s
    /\ forall Sprintf getElement ErrorRec MustRec f,
         expand Sprintf getElement ErrorRec MustRec segs f
         = Return (setBuf f (buf f ++ s), None).
Proof.
  induction s as [|c s (segs & Hwf & Ha & He)].
  - exists []. repeat split. intros. cbn [expand].
    now rewrite append_nil_r, setBuf_buf.
  - cbn [escape].
    destruct (Ascii.eqb c "{") eqn:Eo; [|destruct (Ascii.eqb c "}") eqn:Ec].
    + apply Ascii.eqb_eq in Eo. subst c.
      exists (OpenEsc :: segs). cbn [forallb wellFormed assemble segmentText].
      rewrite Ha. repeat split; [exact Hwf|]. intros. cbn [expand].
      rewrite He. unfold WriteString. cbn [buf setBuf].
      now rewrite append_assoc.
    + apply Ascii.eqb_eq in Ec. subst c.
      exists (CloseEsc :: segs).
      cbn [forallb wellFormed assemble segmentText].
      rewrite Ha. repeat split; [exact Hwf|]. intros. cbn [expand].
      rewrite He. unfold WriteString. cbn [buf setBuf].
      now rewrite append_assoc.
    + exists (Lit (str1 c) :: segs).
      cbn [forallb wellFormed assemble segmentText].
      unfold memBytes. cbn [strings.indexByte str1 option_map].
      rewrite Eo, Ec, Ha. repeat split; [exact Hwf|]. intros. cbn [expand].
      rewrite He. unfold WriteString. cbn [buf setBuf].
      now rewrite append_assoc.
Qed.

(** X2. Escaping is undone by [Fmt]: a text in which every brace is
    doubled expands to the text itself, whatever the arguments are. *)
Theorem Fmt_escape
  (Sprintf : string -> value -> string)
  (getElement : string -> nat -> list value -> value * option error)
  (s : string) (a : list value) :
  Fmt Sprintf getElement (escape s) a = Return (s, None).
Proof.
  destruct (escape_segments s) as (segs & Hwf & Ha & He).
  pose proof (Fmt_segments Sprintf getElement segs Complete a Hwf eq_refl)
    as H.
  cbn [terminalText] in H. rewrite append_nil_r, Ha in H.
  rewrite H, He. reflexivity.
Qed.

(** X3. A closing brace that stands alone is an error: after any text
    written with doubled braces, a single [}] that is not followed by a
    second one makes [Fmt] return the empty string and the error "Single '}'
    encountered in format string", whatever follows and whatever the
    arguments are. *)
Theorem Fmt_stray_close
  (Sprintf : string -> value -> string)
  (getElement : string -> nat -> list value -> value * option error)
  (s tail : string) (a : list value) :
  startsWith tail "}" = false ->
  Fmt Sprintf getElement (escape s ++ "}" ++ tail) a
  = Return ("", Some "Single '}' encountered in format string").
Proof.
  intros Hs.
  destruct (escape_segments s) as (segs & Hwf & Ha & He).
  pose proof (Fmt_segments Sprintf getElement segs (Stray tail) a Hwf) as H.
  cbn [wellFormedEnd terminalText] in H. rewrite Hs, Ha in H.
  rewrite (H eq_refl), He. reflexivity.
Qed.

Lemma Fmt_stray_close_witness :
  Host.Fmt "a}}b}c" [VInt 1]
  = Return ("", Some "Single '}' encountered in format string").
Proof.
  exact (Fmt_stray_close Host.Sprintf Host.getElement "a}b" "c" [VInt 1]
           eq_refl).
Defined.

(** ** Plain fields *)

Section Plain.

Variable Sprintf : string -> value -> string.
Variable getElement : string -> nat -> list value -> value * option error.
Variable ErrorRec : string -> list value -> call error.
Variable MustRec : string -> list value -> call string.

(** A field without name and specification takes the next positional
    argument and writes it as the host prints it under [%v]. *)
Lemma fieldStep_plain (f : ff) (v : value) :
  getElement "" (listPos f) (args f) = (v, None) ->
  fieldStep Sprintf getElement ErrorRec MustRec f ""
  = Return (mkFF (buf f ++ Sprintf "%v" v) (args f) (listPos f + 1)
              (mkRender v defaultFlags), None).
Proof.
  intros H. unfold fieldStep, splitFormat, getArg. cbn [strings.SplitN2
    strings.indexByte String.eqb]. rewrite H.
  cbn [setR setVal clearFlags r buf args listPos val fl].
  unfold parseFlags. cbn [String.eqb]. rewrite bind_Return.
  cbv beta iota zeta. cbn [setR r buf args listPos].
  change (setRenderVerb (clearFlags (setVal (r f) v)) "v")
    with (mkRender v defaultFlags).
  rewrite render_default, bind_Return. reflexivity.
Qed.

Lemma assemble_plain (lits : list string) (last : string) :
  assemble (plainSegments lits last) = plainTemplate lits last.
Proof.
  induction lits as [|l lits IH]; cbn [plainSegments assemble segmentText
    plainTemplate].
  - apply append_nil_r.
  - rewrite IH. reflexivity.
Qed.

Lemma wellFormed_plain (lits : list string) (last : string) :
  forallb braceFree lits = true -> braceFree last = true ->
  forallb wellFormed (plainSegments lits last) = true.
Proof.
  intros Hl Hlast. induction lits as [|l lits IH];
    cbn [plainSegments forallb wellFormed].
  - fold (braceFree last). now rewrite Hlast.
  - cbn [forallb] in Hl. apply andb_true_iff in Hl.
    destruct Hl as [H1 H2]. fold (braceFree l). rewrite H1.
    cbn [memBytes strings.indexByte startsWith negb andb].
    now apply IH.
Qed.

Hypothesis Hpos : positional getElement.

Lemma expand_plain (lits : list string) (last : string) :
  forall (vals : list value) (f : ff),
    List.length lits <= List.length vals ->
    (forall j v, nth_error vals j = Some v ->
                 nthValue (args f) (listPos f + j) = Some v) ->
    exists f',
      expand Sprintf getElement ErrorRec MustRec (plainSegments lits last) f
      = Return (f', None)
      /\ buf f' = buf f ++ plainOutput Sprintf lits vals last.
Proof.
  induction lits as [|l lits IH]; intros vals f Hlen Hargs.
  - cbn [plainSegments expand plainOutput]. eexists. split; reflexivity.
  - destruct vals as [|v vals]; [simpl in Hlen; lia|].
    cbn [plainSegments expand plainOutput].
    assert (Hv : getElement "" (listPos (setBuf f (WriteString (buf f) l)))
                   (args (setBuf f (WriteString (buf f) l)))
                 = (v, None)).
    { cbn [setBuf listPos args]. apply Hpos.
      specialize (Hargs 0 v eq_refl). now rewrite Nat.add_0_r in Hargs. }
    rewrite (fieldStep_plain _ v Hv), bind_Return. cbv beta iota zeta.
    cbn [setBuf buf args listPos WriteString].
    destruct (IH vals
                (mkFF ((buf f ++ l) ++ Sprintf "%v" v) (args f)
                   (listPos f + 1) (mkRender v defaultFlags)))
      as (f' & He & Hb).
    + simpl in Hlen. lia.
    + intros j w Hj. cbn [args listPos].
      specialize (Hargs (S j) w Hj).
      now replace (listPos f + 1 + j) with (listPos f + S j) by lia.
    + exists f'. split; [exact He|]. rewrite Hb. cbn [buf].
      now rewrite !append_assoc.
Qed.

End Plain.

Lemma nthValue_nth_error (l : list value) (n : nat) :
  nthValue l n = nth_error l n.
Proof.
  revert n; induction l as [|v l IH]; intros [|n]; simpl; auto.
Qed.

(** X4. Plain fields are filled in order: on a template of literal texts
    without braces separated by [{}], with at least as many arguments as
    fields and a resolver that hands out the positional arguments, [Fmt]
    returns the literal texts with each [{}] replaced by what the host
    prints for the next argument under [%v]; arguments left over are
    ignored. *)
Theorem Fmt_plain_fields
  (Sprintf : string -> value -> string)
  (getElement : string -> nat -> list value -> value * option error)
  (lits : list string) (last : string) (vals : list value) :
  positional getElement ->
  forallb braceFree lits = true ->
  braceFree last = true ->
  List.length lits <= List.length vals ->
  Fmt Sprintf getElement (plainTemplate lits last) vals
  = Return (plainOutput Sprintf lits vals last, None).
Proof.
  intros Hpos Hl Hlast Hlen.
  pose proof (Fmt_segments Sprintf getElement (plainSegments lits last)
                Complete vals (wellFormed_plain lits last Hl Hlast) eq_refl)
    as H.
  cbn [terminalText] in H. rewrite append_nil_r, assemble_plain in H.
  rewrite H.
  destruct (expand_plain Sprintf getElement (Error Sprintf getElement)
              (Must Sprintf getElement) Hpos lits last vals
              (newFormater vals) Hlen) as (f' & He & Hb).
  { intros j v Hj. cbn [newFormater args listPos Nat.add].
    now rewrite nthValue_nth_error. }
  rewrite He. cbn [finishWith bind]. rewrite Hb. reflexivity.
Qed.

Lemma Fmt_plain_fields_witness :
  Host.Fmt "a{}b{}c" [VInt 1; VString "x"; VInt 3]
  = Return ("a1bxc", None).
Proof.
  exact (Fmt_plain_fields Host.Sprintf Host.getElement ["a"; "b"] "c"
           [VInt 1; VString "x"; VInt 3] Host_positional eq_refl eq_refl
           ltac:(simpl; lia)).
Defined.

(** ** The directive of an accepted specification *)

Lemma isAlignByte_cases (c : ascii) :
  isAlignByte c = true ->
  c = "<"%char \/ c = ">"%char \/ c = "="%char \/ c = "^"%char.
Proof.
  destruct c as [[] [] [] [] [] [] [] []]; intros H; try discriminate H;
    auto.
Qed.

Lemma takeAlign_shape (s : string) :
  fst (Grammar.takeAlign s) = ""
  \/ (exists c, fst (Grammar.takeAlign s) = str1 c /\ isAlignByte c = true)
  \/ (exists c0 c1, fst (Grammar.takeAlign s) = String c0 (str1 c1)
                    /\ isAlignByte c1 = true).
Proof.
  destruct s as [|c0 [|c1 t]]; cbn [Grammar.takeAlign].
  - now left.
  - destruct (isAlignByte c0) eqn:E; cbn [fst]; [|now left].
    right. left. now exists c0.
  - destruct (isAlignByte c1) eqn:E1; cbn [fst].
    + right. right. now exists c0, c1.
    + destruct (isAlignByte c0) eqn:E0; cbn [fst]; [|now left].
      right. left. now exists c0.
Qed.

Lemma takeOne_shape (p : ascii -> bool) (s : string) :
  fst (Grammar.takeOne p s) = ""
  \/ exists c, fst (Grammar.takeOne p s) = str1 c /\ p c = true.
Proof.
  destruct s as [|c t]; cbn [Grammar.takeOne]; [now left|].
  destruct (p c) eqn:E; cbn [fst]; [|now left]. right. now exists c.
Qed.

(** The alignment token and the verb token of a specification. *)
Lemma parse_shape (spec : string) :
  (Grammar.t_align (Grammar.parse spec) = ""
   \/ (exists c, Grammar.t_align (Grammar.parse spec) = str1 c
                 /\ isAlignByte c = true)
   \/ (exists c0 c1, Grammar.t_align (Grammar.parse spec)
                     = String c0 (str1 c1)
                     /\ isAlignByte c1 = true))
  /\ (Grammar.t_verb (Grammar.parse spec) = ""
      \/ exists c, Grammar.t_verb (Grammar.parse spec) = str1 c
                   /\ validFlags c = true).
Proof.
  unfold Grammar.parse.
  pose proof (takeAlign_shape spec) as Ha.
  destruct (Grammar.takeAlign spec) as [al s1].
  destruct (Grammar.takeOne Grammar.isSignByte s1) as [sg s2].
  destruct (Grammar.takeOne (Ascii.eqb "#") s2) as [rd s3].
  destruct (Grammar.takeOne (Ascii.eqb "0") s3) as [zp s4].
  destruct (Grammar.takeDigits s4) as [mw s5].
  destruct (Grammar.takePrecision s5) as [pr s6].
  pose proof (takeOne_shape validFlags s6) as Hv.
  destruct (Grammar.takeOne validFlags s6) as [vb s7].
  cbn [fst Grammar.t_align Grammar.t_verb] in *. now split.
Qed.

(** The rune that [parseFlags] decodes from an alignment token of two
    bytes, and its size. *)
Lemma decode_fill (c0 c1 : ascii) :
  isAlignByte c1 = true ->
  utf8.DecodeRuneInString (String c0 (String c1 ""))
  = (fillOf (String c0 (String c1 "")), 1).
Proof.
  intros H. apply isAlignByte_cases in H.
  unfold utf8.DecodeRuneInString, fillOf, str1.
  destruct (byteZ c0 <? 128)%Z; [reflexivity|].
  unfold utf8.lead.
  repeat match goal with
         | |- context [if ?b then _ else _] =>
             match b with
             | context [byteZ c0] => destruct b
             end
         end; try reflexivity;
    destruct H as [-> | [-> | [-> | ->]]]; reflexivity.
Qed.

Lemma validFlags_cases (c : ascii) :
  validFlags c = true ->
  In (str1 c) ["b"; "d"; "o"; "x"; "X"; "e"; "E"; "f"; "F"; "g"; "G"; "r";
               "t"; "s"; "%"].
Proof.
  destruct c as [[] [] [] [] [] [] [] []]; intros H; try discriminate H;
    simpl; auto 20.
Qed.

Lemma eqb_empty (s : string) : (s =? "")%string = false -> s <> "".
Proof. intros H ->. discriminate. Qed.

Lemma parse_tokens (spec : string) :
  (Grammar.t_align (Grammar.parse spec) = ""
   \/ In (Grammar.t_align (Grammar.parse spec)) ["<"; ">"; "="; "^"]
   \/ exists c0 a, Grammar.t_align (Grammar.parse spec) = String c0 a
                   /\ In a ["<"; ">"; "="; "^"])
  /\ In (Grammar.t_verb (Grammar.parse spec))
       [""; "b"; "d"; "o"; "x"; "X"; "e"; "E"; "f"; "F"; "g"; "G"; "r"; "t";
        "s"; "%"].
Proof.
  destruct (parse_shape spec) as [Ha Hv]. split.
  - destruct Ha as [-> | [(c & -> & Hc) | (c0 & c1 & -> & Hc)]].
    + now left.
    + right. left. apply isAlignByte_cases in Hc.
      destruct Hc as [-> | [-> | [-> | ->]]]; simpl; auto.
    + right. right. exists c0, (str1 c1). split; [reflexivity|].
      apply isAlignByte_cases in Hc.
      destruct Hc as [-> | [-> | [-> | ->]]]; simpl; auto.
  - destruct Hv as [-> | (c & -> & Hc)]; [now left|].
    right. now apply validFlags_cases.
Qed.

Lemma by_cases {A : Type} (l : list A) (P : A -> Prop) :
  Forall P l -> forall x, In x l -> P x.
Proof. intros H x Hx. now apply (proj1 (Forall_forall P l) H). Qed.

Section Directive.

Variable ErrorRec : string -> list value -> call error.

(** On a specification that the grammar accepts, [parseFlags] returns
    without an error and has made the updates of [applyTokens]. *)
Lemma parseFlags_applies (r : renderer) (flags : string) :
  Grammar.leftover (Grammar.parse flags) = "" ->
  parseFlags ErrorRec r flags
  = Return (applyTokens (setRenderVerb r "v") (Grammar.parse flags), None).
Proof.
  intros Hl. unfold parseFlags.
  destruct (flags =? "") eqn:Hf.
  - apply String.eqb_eq in Hf. subst. reflexivity.
  - rewrite splitFlags_refines, bind_Return.
    unfold Grammar.result. rewrite Hl.
    change (("" =? "")%string) with true.
    cbv beta iota delta [ret_err ret_align ret_sign ret_radix ret_zeroPad
                         ret_minWidth ret_precision ret_verb].
    destruct (parse_tokens flags) as [Hal Hvb].
    unfold applyTokens.
    destruct (Grammar.parse flags) as [al sg rd zp mw pr vb lo].
    cbv beta iota delta [Grammar.t_align Grammar.t_sign Grammar.t_radix
      Grammar.t_zeroPad Grammar.t_minWidth Grammar.t_precision
      Grammar.t_verb] in *.
    clear Hl Hf. revert vb Hvb. apply by_cases.
    destruct Hal as [-> | [Hal | (c0 & a & -> & Hal)]].
    + repeat constructor.
    + revert al Hal. apply by_cases. repeat constructor.
    + revert a Hal. apply by_cases.
      repeat constructor; rewrite decode_fill by reflexivity; reflexivity.
Qed.

End Directive.

(** The stages of [applyTokens] on a renderer given by its fields. *)
Section Stages.

Variable v : value.
Variables (f : rune) (a : alignment) (s : string) (x : bool)
  (m p vb : string) (pc : bool).

Lemma sign_stage (sg : string) :
  (if negb (sg =? "")%string
   then
     if negb (sg =? "-")%string
     then setSign (mkRender v (mkFlags f a "" x m p vb pc)) sg
     else mkRender v (mkFlags f a "" x m p vb pc)
   else mkRender v (mkFlags f a "" x m p vb pc))
  = mkRender v
      (mkFlags f a (if (sg =? "-")%string then "" else sg) x m p vb pc).
Proof.
  destruct (sg =? "")%string eqn:H.
  - apply String.eqb_eq in H. subst. reflexivity.
  - destruct (sg =? "-")%string; reflexivity.
Qed.

Lemma radix_stage (rd : string) :
  (if (rd =? "#")%string
   then setShowRadix (mkRender v (mkFlags f a s false m p vb pc)) true
   else mkRender v (mkFlags f a s false m p vb pc))
  = mkRender v (mkFlags f a s (rd =? "#")%string m p vb pc).
Proof. destruct (rd =? "#")%string; reflexivity. Qed.

Lemma zero_stage (zp tok : string) :
  (if negb (zp =? "")%string
   then
     if (fillChar
           (fl (if (tok =? "")%string
                then setAlign (mkRender v (mkFlags f a s x m p vb pc))
                       padSign
                else mkRender v (mkFlags f a s x m p vb pc))) =? 0)%Z
     then setFillChar
            (if (tok =? "")%string
             then setAlign (mkRender v (mkFlags f a s x m p vb pc)) padSign
             else mkRender v (mkFlags f a s x m p vb pc))
            (byteZ "0")
     else if (tok =? "")%string
          then setAlign (mkRender v (mkFlags f a s x m p vb pc)) padSign
          else mkRender v (mkFlags f a s x m p vb pc)
   else mkRender v (mkFlags f a s x m p vb pc))
  = mkRender v
      (mkFlags
         (if negb (zp =? "")%string && (f =? 0)%Z then byteZ "0" else f)
         (if negb (zp =? "")%string && (tok =? "")%string
          then padSign else a)
         s x m p vb pc).
Proof.
  destruct (zp =? "")%string; [reflexivity|].
  destruct (tok =? "")%string; cbn [negb andb fl fillChar setAlign];
    destruct (f =? 0)%Z; reflexivity.
Qed.

Lemma width_stage (mw : string) :
  (if negb (mw =? "")%string
   then setMinWidth (mkRender v (mkFlags f a s x "" p vb pc)) mw
   else mkRender v (mkFlags f a s x "" p vb pc))
  = mkRender v (mkFlags f a s x mw p vb pc).
Proof.
  destruct (mw =? "")%string eqn:H; [|reflexivity].
  apply String.eqb_eq in H. subst. reflexivity.
Qed.

Lemma precision_stage (pr : string) :
  (if negb (pr =? "")%string
   then setPrecision (mkRender v (mkFlags f a s x m "" vb pc)) pr
   else mkRender v (mkFlags f a s x m "" vb pc))
  = mkRender v (mkFlags f a s x m pr vb pc).
Proof.
  destruct (pr =? "")%string eqn:H; [|reflexivity].
  apply String.eqb_eq in H. subst. reflexivity.
Qed.

Lemma verb_update (t : string) :
  (if (t =? "")%string then mkRender v (mkFlags f a s x m p "v" false)
   else if (t =? "d")%string
   then setShowRadix
          (setRenderVerb (mkRender v (mkFlags f a s x m p "v" false)) t)
          false
   else if (t =? "%")%string
   then setRenderVerb
          (setPercent (mkRender v (mkFlags f a s x m p "v" false)) true)
          "f"
   else if (t =? "r")%string
   then setRenderVerb (mkRender v (mkFlags f a s x m p "v" false)) "#v"
   else if (t =? "t")%string
   then setRenderVerb (mkRender v (mkFlags f a s x m p "v" false)) "T"
   else if (t =? "s")%string
   then setRenderVerb (mkRender v (mkFlags f a s x m p "v" false)) "+v"
   else setRenderVerb (mkRender v (mkFlags f a s x m p "v" false)) t)
  = mkRender v
      (mkFlags f a s (x && negb (t =? "d")%string) m p (verbOf t)
         (t =? "%")%string).
Proof.
  unfold verbOf.
  destruct (t =? "")%string eqn:H0;
    [apply String.eqb_eq in H0; subst; now rewrite andb_true_r|].
  destruct (t =? "d")%string eqn:H1;
    [apply String.eqb_eq in H1; subst; now rewrite andb_false_r|].
  rewrite andb_true_r.
  destruct (t =? "%")%string; [reflexivity|].
  destruct (t =? "r")%string; [reflexivity|].
  destruct (t =? "t")%string; [reflexivity|].
  destruct (t =? "s")%string; reflexivity.
Qed.

End Stages.

(** The updates of [applyTokens], started from the cleared flags, give the
    directive of the tokens. *)
Lemma applyTokens_directive (v : value) (tk : Grammar.tokens) :
  (Grammar.t_align tk = ""
   \/ In (Grammar.t_align tk) ["<"; ">"; "="; "^"]
   \/ exists c0 a, Grammar.t_align tk = String c0 a
                   /\ In a ["<"; ">"; "="; "^"]) ->
  applyTokens (setRenderVerb (mkRender v zeroFlags) "v") tk
  = mkRender v (directive tk).
Proof.
  destruct tk as [al sg rd zp mw pr vb lo].
  unfold applyTokens, directive.
  cbv beta iota delta [Grammar.t_align Grammar.t_sign Grammar.t_radix
    Grammar.t_zeroPad Grammar.t_minWidth Grammar.t_precision Grammar.t_verb].
  intros Hal.
  assert (Hstart :
    exists tok,
      (if (1 <? String.length al)%nat
       then (setFillChar (setRenderVerb (mkRender v zeroFlags) "v")
               (fst (utf8.DecodeRuneInString al)),
             drop (snd (utf8.DecodeRuneInString al)) al)
       else (setRenderVerb (mkRender v zeroFlags) "v", al))
      = (mkRender v (mkFlags (fillOf al) noAlign "" false "" "" "v" false),
         tok)
      /\ (tok =? "")%string = (al =? "")%string
      /\ (if negb (tok =? "")%string
          then setAlign
                 (mkRender v
                    (mkFlags (fillOf al) noAlign "" false "" "" "v" false))
                 (alignOf tok)
          else mkRender v
                 (mkFlags (fillOf al) noAlign "" false "" "" "v" false))
         = mkRender v
             (mkFlags (fillOf al) (alignOf al) "" false "" "" "v" false)).
  { destruct Hal as [-> | [Hal | (c0 & a & -> & Hal)]].
    - exists "". repeat split.
    - cbn [In] in Hal.
      repeat (destruct Hal as [<- | Hal]); try contradiction;
        eexists; repeat split.
    - cbn [In] in Hal.
      repeat (destruct Hal as [<- | Hal]); try contradiction;
        rewrite decode_fill by reflexivity; eexists; repeat split. }
  destruct Hstart as (tok & Hpair & Htok & Halign).
  rewrite Hpair. cbv beta iota zeta.
  rewrite Halign, sign_stage, radix_stage, zero_stage, width_stage,
    precision_stage, verb_update.
  rewrite Htok. reflexivity.
Qed.

(** X5. Every specification that the grammar accepts is parsed without
    an error and without a panic, and the renderer holds the directive of
    its tokens: the fill character and the alignment of the alignment token,
    with the zero flag giving the fill [0] and the pad-after-sign alignment
    where the token gives none; the sign unless it is [-]; the radix flag
    unless the verb is [d]; the width and the precision as written; the verb
    of the host formatter and the percent flag. *)
Theorem parseFlags_accepted
  (ErrorRec : string -> list value -> call error)
  (v : value) (flags : string) :
  Grammar.leftover (Grammar.parse flags) = "" ->
  parseFlags ErrorRec (mkRender v zeroFlags) flags
  = Return (mkRender v (directive (Grammar.parse flags)), None).
Proof.
  intros Hl. rewrite (parseFlags_applies ErrorRec _ flags Hl).
  rewrite applyTokens_directive; [reflexivity|].
  apply parse_tokens.
Qed.

Lemma parseFlags_accepted_witness :
  parseFlags (Error Host.Sprintf Host.getElement)
    (mkRender (VInt 7) zeroFlags) "*<+#010.3x"
  = Return (mkRender (VInt 7)
              (mkFlags 42%Z left "+" true "10" ".3" "x" false), None).
Proof.
  exact (parseFlags_accepted (Error Host.Sprintf Host.getElement) (VInt 7)
           "*<+#010.3x" eq_refl).
Defined.

(** ** The width written by the buffer writer *)

Lemma fillText_ascii (c : rune) :
  (0 <= c < 128)%Z -> String.length (fillText c) = 1.
Proof.
  intros H. unfold fillText. destruct (c =? 0)%Z; [reflexivity|].
  unfold utf8.string_of_rune, utf8.encode_valid.
  replace (c <? 0)%Z with false by (symmetry; apply Z.ltb_ge; lia).
  replace (1114111 <? c)%Z with false by (symmetry; apply Z.ltb_ge; lia).
  replace (55296 <=? c)%Z with false by (symmetry; apply Z.leb_gt; lia).
  cbn [orb andb].
  replace (c <? 128)%Z with true by (symmetry; apply Z.ltb_lt; lia).
  reflexivity.
Qed.

(** Padding with a fill character of one byte. *)
Lemma Repeat_ascii (c : rune) (n : Z) :
  (0 <= c < 128)%Z -> (0 <= n <= maxInt64)%Z ->
  exists pad, strings.Repeat (fillText c) n = Return pad
              /\ Z.of_nat (String.length pad) = n.
Proof.
  intros Hc Hn. unfold strings.Repeat.
  replace (n <? 0)%Z with false by (symmetry; apply Z.ltb_ge; lia).
  rewrite (fillText_ascii c Hc).
  replace (maxInt64 <? Z.of_nat 1 * n)%Z with false
    by (symmetry; apply Z.ltb_ge; lia).
  eexists. split; [reflexivity|].
  rewrite length_repeat_string, (fillText_ascii c Hc). lia.
Qed.

Lemma body_flat_exact self b s a w c :
  a <> padSign -> a <> noAlign ->
  (0 <= c < 128)%Z -> (w <= maxInt64)%Z ->
  (Z.of_nat (String.length s) < w)%Z ->
  exists out,
    WriteAlignedString_body self b s a w c = Return (b ++ out)
    /\ Z.of_nat (String.length out) = w.
Proof.
  intros Hps Hna Hc Hmax Hlt. unfold WriteAlignedString_body, WriteString.
  fold (fillText c).
  replace (w <=? Z.of_nat (String.length s))%Z with false
    by (symmetry; apply Z.leb_gt; lia).
  destruct a; try congruence; cbn [alignment_eqb orb].
  - destruct (Repeat_ascii c (w - Z.of_nat (String.length s)) Hc
                ltac:(lia)) as (pad & -> & Hl).
    cbn [bind]. exists (s ++ pad). rewrite append_assoc.
    split; [reflexivity|]. rewrite length_append. lia.
  - destruct (Repeat_ascii c (w - Z.of_nat (String.length s)) Hc
                ltac:(lia)) as (pad & -> & Hl).
    cbn [bind]. exists (pad ++ s). rewrite append_assoc.
    split; [reflexivity|]. rewrite length_append. lia.
  - assert (Hh : (0 <= (w - Z.of_nat (String.length s)) / 2
                  <= w - Z.of_nat (String.length s))%Z).
    { split; [apply Z.div_pos; lia|].
      apply Z.div_le_upper_bound; lia. }
    destruct (Repeat_ascii c ((w - Z.of_nat (String.length s)) / 2) Hc
                ltac:(lia)) as (pad & -> & Hl).
    destruct (Repeat_ascii c
                (w - Z.of_nat (String.length s)
                 - (w - Z.of_nat (String.length s)) / 2) Hc
                ltac:(lia)) as (pad' & -> & Hl').
    cbn [bind]. exists (pad ++ s ++ pad'). rewrite !append_assoc.
    split; [reflexivity|]. rewrite !length_append. lia.
Qed.

(** X6. [WriteAlignedString] pads to the width and never cuts the text:
    when the width is not greater than the length of the text, or there is
    no alignment, the text is appended as it is; otherwise, for a width up
    to [maxPadWidth], with a fill character of one byte (the default
    included) and, under pad-after-sign, a text that is not empty, exactly
    [width] bytes are appended. *)
Theorem WriteAlignedString_exact
  (b : buffer) (s : string) (a : alignment) (w : Z) (c : rune) :
  ((w <= Z.of_nat (String.length s))%Z \/ a = noAlign ->
   WriteAlignedString b s a w c = Return (b ++ s))
  /\ ((0 <= c < 128)%Z ->
      (Z.of_nat (String.length s) < w <= maxPadWidth)%Z ->
      a <> noAlign ->
      (a = padSign -> s <> "") ->
      exists out,
        WriteAlignedString b s a w c = Return (b ++ out)
        /\ Z.of_nat (String.length out) = w).
Proof.
  split.
  - intros H. unfold WriteAlignedString, WriteAlignedString_body.
    destruct H as [H | ->].
    + replace (w <=? Z.of_nat (String.length s))%Z with true
        by (symmetry; apply Z.leb_le; lia).
      reflexivity.
    + cbn [alignment_eqb]. now rewrite orb_true_r.
  - intros Hc [Hlt Hbound] Hna Hne.
    assert (Hmax : (w <= maxInt64)%Z)
      by (unfold maxPadWidth, maxInt64 in *; lia).
    destruct (alignment_eqb a padSign) eqn:Ha.
    + destruct a; try discriminate. clear Ha Hna.
      destruct s as [|c0 t]; [now specialize (Hne eq_refl)|].
      unfold WriteAlignedString.
      unfold WriteAlignedString_body at 1. unfold WriteString.
      replace (w <=? Z.of_nat (String.length (String c0 t)))%Z with false
        by (symmetry; apply Z.leb_gt; lia).
      cbn [alignment_eqb orb]. unfold byteAt at 1. cbn [get bind].
      cbn [String.length] in Hlt.
      destruct (_ || _).
      * rewrite sliceFrom_cons. cbn [bind].
        rewrite wrap64_id
          by (unfold isInt64, minInt64, maxInt64 in *; lia).
        destruct (body_flat_exact (fun _ _ _ _ _ => OutOfFuel)
                    (b ++ str1 c0) t right (w - 1) c) as (out & -> & Hl);
          try discriminate; try lia.
        exists (str1 c0 ++ out). rewrite append_assoc.
        split; [reflexivity|]. cbn [String.length append str1]. lia.
      * apply body_flat_exact; try discriminate; try lia. exact Hlt.
    + unfold WriteAlignedString. apply body_flat_exact; try assumption.
      intros ->. discriminate.
Qed.

Lemma WriteAlignedString_exact_witness :
  WriteAlignedString "x" "abc" center 2%Z 0%Z = Return ("x" ++ "abc")
  /\ exists out,
       WriteAlignedString "x" "-42" padSign 6%Z 48%Z = Return ("x" ++ out)
       /\ Z.of_nat (String.length out) = 6%Z.
Proof.
  split.
  - apply (proj1 (WriteAlignedString_exact "x" "abc" center 2%Z 0%Z)).
    left. simpl. lia.
  - apply (proj2 (WriteAlignedString_exact "x" "-42" padSign 6%Z 48%Z)).
    + lia.
    + unfold maxPadWidth. simpl. lia.
    + discriminate.
    + discriminate.
Defined.

(** ** Errors of the renderer *)

(** X7. A width that does not fit an [int64] is an error of the renderer:
    without the percent verb, when the width digits of the directive are not
    parsed, [render] returns the error "Can't convert width ... to int" with
    these digits and leaves the renderer and the buffer as they are. *)
Theorem render_width_error
  (Sprintf : string -> value -> string)
  (getElement : string -> nat -> list value -> value * option error)
  (r : renderer) (b : buffer) (e : error) :
  plainText Sprintf -> positional getElement ->
  percent (fl r) = false ->
  minWidth (fl r) <> "" ->
  strconv.ParseInt (minWidth (fl r)) = Err e ->
  render Sprintf (Error Sprintf getElement) (Must Sprintf getElement) r b
  = Return (r, b,
            Some ("Can't convert width " ++ minWidth (fl r) ++ " to int")).
Proof.
  intros [Hplain _] Hpos Hpc Hne Hp. unfold render, renderText.
  rewrite Hpc, bind_Return. cbv beta iota.
  destruct (if showRadix (fl r) then _ else _) as [prefix radix].
  destruct (minWidth (fl r) =? "") eqn:Hm;
    [apply String.eqb_eq in Hm; contradiction|].
  rewrite Hp, (Error_bad_width Sprintf getElement Hpos), Hplain.
  reflexivity.
Qed.

Lemma render_width_error_witness :
  Host.Fmt "{:9223372036854775808}" [VInt 1]
  = Return ("", Some "Can't convert width 9223372036854775808 to int")
  /\ render Host.Sprintf (Error Host.Sprintf Host.getElement)
       (Must Host.Sprintf Host.getElement)
       (mkRender (VInt 1)
          (mkFlags 0%Z noAlign "" false "9223372036854775808" "" "v" false))
       "ab"
     = Return (mkRender (VInt 1)
                 (mkFlags 0%Z noAlign "" false "9223372036854775808" "" "v"
                    false),
               "ab",
               Some "Can't convert width 9223372036854775808 to int").
Proof.
  split; [reflexivity|].
  apply (render_width_error Host.Sprintf Host.getElement
           (mkRender (VInt 1)
              (mkFlags 0%Z noAlign "" false "9223372036854775808" "" "v"
                 false)) "ab"
           (strconv.numErrorText "ParseInt" "9223372036854775808"
              strconv.ErrRange)
           Host_plainText Host_positional).
  - reflexivity.
  - discriminate.
  - reflexivity.
Defined.

(** X8. Under the percent verb a precision whose digits are not parsed (a
    point without digits, or digits beyond [int64]) is an error: [render]
    returns the error of [strconv.ParseInt] and leaves the renderer and the
    buffer as they are. *)
Theorem render_percent_error
  (Sprintf : string -> value -> string)
  (ErrorRec : string -> list value -> call error)
  (MustRec : string -> list value -> call string)
  (r : renderer) (b : buffer) (ds : string) (e : error) :
  percent (fl r) = true ->
  precision (fl r) = String "." ds ->
  strconv.ParseInt ds = Err e ->
  render Sprintf ErrorRec MustRec r b = Return (r, b, Some e).
Proof.
  intros Hpc Hpr Hp. unfold render, renderText, setupPercent.
  rewrite Hpc, Hpr. cbn [String.eqb]. rewrite sliceFrom_cons, bind_Return, Hp.
  reflexivity.
Qed.

Lemma render_percent_error_witness :
  render Host.Sprintf (Error Host.Sprintf Host.getElement)
    (Must Host.Sprintf Host.getElement)
    (mkRender (VFloat float_half)
       (mkFlags 0%Z noAlign "" false "" "." "f" true)) "ab"
  = Return (mkRender (VFloat float_half)
              (mkFlags 0%Z noAlign "" false "" "." "f" true), "ab",
            Some (strconv.numErrorText "ParseInt" "" strconv.ErrSyntax)).
Proof.
  apply (render_percent_error Host.Sprintf _ _
           (mkRender (VFloat float_half)
              (mkFlags 0%Z noAlign "" false "" "." "f" true)) "ab" "");
    reflexivity.
Defined.

(** ** The percent verb on a text without a decimal point *)

(** X9. When the host prints the value under [%.8f] without a decimal point
    (an infinity or a NaN), the field [{:%}] gives this text followed by
    [%] (by [00%] when the text is an integer), and a minus sign in front
    of it is lost: negative infinity is rendered as [Inf%]. *)
Theorem percent_without_point
  (Sprintf : string -> value -> string)
  (getElement : string -> nat -> list value -> value * option error)
  (v : value) (p : string) :
  positional getElement ->
  strings.TrimSpace (Sprintf "%.8f" v) = p
  \/ strings.TrimSpace (Sprintf "%.8f" v) = String "-" p ->
  startsWith p "-" = false ->
  strings.indexByte "." p = None ->
  p <> "" ->
  Fmt Sprintf getElement "{:%}" [v]
  = Return (match strconv.ParseInt p with
            | Ok _ => p ++ "00%"
            | Err _ => p ++ "%"
            end, None).
Proof.
  intros Hpos Hs Hm Hd Hne.
  destruct (transformPercent_no_point (Error Sprintf getElement) p Hm Hd Hne)
    as [Hplain Hminus].
  assert (Ht : exists s, strings.TrimSpace (Sprintf "%.8f" v) = s
                         /\ s <> ""
                         /\ transformPercent (Error Sprintf getElement) s
                            = Return (Ok (match strconv.ParseInt p with
                                          | Ok _ => p ++ "00%"
                                          | Err _ => p ++ "%"
                                          end))).
  { destruct Hs as [Hs | Hs]; eexists; (split; [exact Hs|]); split;
      try assumption. discriminate. }
  destruct Ht as (s & Hs' & Hsne & Ht).
  clear Hplain Hminus Hs.
  assert (Hres : exists c0 t0,
             match strconv.ParseInt p with
             | Ok _ => p ++ "00%"
             | Err _ => p ++ "%"
             end = String c0 t0).
  { destruct p as [|c0 t0]; [congruence|].
    exists c0. destruct (strconv.ParseInt _); eexists; reflexivity. }
  destruct Hres as (c0 & t0 & Hres). rewrite Hres in *.
  unfold Fmt, Fmt_body, doFormat.
  cbv -[parseFlags render append Error Must].
  rewrite (Hpos [v] 0 _ eq_refl).
  cbv -[render append Error Must].
  unfold render, renderText, setupPercent.
  cbn [percent fl precision String.eqb]. rewrite bind_Return.
  cbv beta iota zeta.
  cbv beta iota zeta delta
    [setPrecision fl showRadix minWidth sign renderVerb precision percent
     val fillChar align].
  replace (isFloatVerb "f") with true by reflexivity.
  cbn [String.eqb negb append]. cbv iota.
  cbv beta iota zeta delta
    [fl showRadix minWidth sign renderVerb precision percent val fillChar
     align].
  replace (isFloatVerb "f") with true by reflexivity.
  rewrite !bind_Return. cbv iota.
  rewrite Hs', ?bind_Return, Ht, ?bind_Return. cbv beta iota.
  unfold renderWrite.
  cbn [fl align showRadix alignment_eqb andb orb fillChar].
  assert (Hw : forall b out, WriteAlignedString b out noAlign 0%Z 0%Z = Return (b ++ out)).
  { intros b out. rewrite WriteAlignedString_unfold.
    unfold WriteAlignedString_body. cbn [alignment_eqb].
    rewrite Bool.orb_true_r. reflexivity. }
  rewrite Bool.andb_false_r.
  cbv beta iota zeta delta [showRadix align fillChar andb].
  rewrite Hw. reflexivity.
Qed.

Lemma percent_without_point_witness :
  Host.Fmt "{:%}" [VFloat (S754_infinity true)] = Return ("Inf%", None).
Proof.
  apply (percent_without_point Host.Sprintf Host.getElement
           (VFloat (S754_infinity true)) "Inf" Host_positional).
  - right. reflexivity.
  - reflexivity.
  - reflexivity.
  - discriminate.
Defined.

(** ** The older formatter reads a template by its segments *)

Lemma Legacy_setBuf_buf (f : Legacy.ff) : Legacy.setBuf f (Legacy.buf f) = f.
Proof. now destruct f. Qed.

Section LegacyDriver.

Variable clearflags : renderer -> renderer.
Variable render_ : renderer -> buffer
                   -> call (renderer * buffer * option error).

Lemma Legacy_expand_litRun (segs : list segment) : forall f,
  LegacySegments.expand clearflags render_ segs f
  = LegacySegments.expand clearflags render_ (afterLit segs)
      (Legacy.setBuf f (Legacy.buf f ++ litText segs)).
Proof.
  induction segs as [|[s| | |body] segs IH]; intros f;
    cbn [afterLit litText].
  - now rewrite append_nil_r, Legacy_setBuf_buf.
  - cbn [LegacySegments.expand]. rewrite IH. unfold WriteString.
    cbn [Legacy.buf Legacy.setBuf]. now rewrite append_assoc.
  - now rewrite append_nil_r, Legacy_setBuf_buf.
  - cbn [LegacySegments.expand]. rewrite IH. unfold WriteString.
    cbn [Legacy.buf Legacy.setBuf]. now rewrite append_assoc.
  - now rewrite append_nil_r, Legacy_setBuf_buf.
Qed.

Lemma Legacy_loop_segments : forall (fuel : nat) (segs : list segment)
    (t : terminal) (format D : string) (f : Legacy.ff),
  forallb wellFormed segs = true ->
  wellFormedEnd t = true ->
  format = D ++ assemble segs ++ terminalText t ->
  String.length (assemble segs ++ terminalText t) < fuel ->
  Legacy.finish
    (Legacy.doFormat_loop clearflags render_ fuel format (String.length D) f)
  = LegacySegments.finishWith t
      (LegacySegments.expand clearflags render_ segs f).
Proof.
  induction fuel as [|fuel IH];
    intros segs t format D f Hwf Hend Hfmt Hfuel; [lia|].
  assert (Hl : String.length format
               = String.length D + String.length (assemble segs)
                 + String.length (terminalText t)).
  { rewrite Hfmt, !length_append. lia. }
  cbn [Legacy.doFormat_loop].
  destruct (String.length D <? String.length format)%nat eqn:Hi.
  2: { (* the template is at its end *)
    apply Nat.ltb_ge in Hi.
    destruct (assemble_empty segs ltac:(lia)) as [Ha Ht].
    destruct t; cbn [terminalText append String.length] in Hl; try lia.
    rewrite Legacy_expand_litRun, Ha, Ht, append_nil_r, Legacy_setBuf_buf.
    reflexivity. }
  rewrite Legacy_expand_litRun.
  destruct (scanOpen_run segs Hwf format D "" (terminalText t) (Legacy.buf f)
              (String.length format - String.length D) Hfmt)
    as (D' & P' & b' & fuel' & Hf1 & Hs1 & Hb1 & Hfu1).
  { lia. }
  cbn [String.length] in Hs1. rewrite Nat.add_0_r in Hs1.
  cbn [append] in Hb1. rewrite <- Hb1. clear Hb1.
  pose proof (afterLit_head segs) as Hhead.
  pose proof (length_afterLit segs) as Hlen.
  assert (Hl' : String.length format
                = String.length D' + String.length P'
                  + String.length (assemble (afterLit segs))
                  + String.length (terminalText t)).
  { rewrite Hf1 at 1. rewrite !length_append. lia. }
  rewrite Hs1. clear Hs1.
  assert (Hsl : slice format (String.length D')
                  (String.length D' + String.length P') = Return P').
  { now apply (slice_at format D' P'
                 (assemble (afterLit segs) ++ terminalText t)). }
  assert (Hwf' := wellFormed_afterLit segs Hwf).
  assert (Hpend : String.length D' + String.length P' <= String.length D'
                  -> P' = "").
  { intros H. destruct P'; [reflexivity|]. simpl in H. lia. }
  destruct (afterLit segs) as [|[s| | |body] rest] eqn:Ha;
    try contradiction.
  - (* no segment is left *)
    cbn [assemble append] in Hf1, Hl'.
    destruct t as [|tail|body];
      cbn [terminalText append String.length] in Hf1, Hl', Hl.
    + (* the end of the template *)
      rewrite at_end by (cbn [String.length] in Hl'; lia).
      rewrite bind_Return. cbv beta iota zeta.
      replace (String.length format <=? _)%nat with true
        by (symmetry; apply Nat.leb_le; cbn [String.length] in Hl'; lia).
      destruct (String.length D' <? String.length D' + String.length P')%nat
        eqn:Hlt.
      * rewrite Hsl. reflexivity.
      * apply Nat.ltb_ge in Hlt.
        rewrite (Hpend Hlt), append_nil_r. reflexivity.
    + (* a closing brace that stands alone *)
      cbn [wellFormedEnd] in Hend. apply negb_true_iff in Hend.
      rewrite (at_stray format (D' ++ P') tail);
        [reflexivity | now rewrite Hf1, append_assoc
        | now rewrite length_append | exact Hend | ].
      cbn [assemble String.length] in Hfu1, Hl'. lia.
    + (* an opening brace that is never closed *)
      cbn [wellFormedEnd] in Hend. apply andb_true_iff in Hend.
      destruct Hend as [Hc Ho].
      apply negb_true_iff, memBytes_false in Hc.
      apply negb_true_iff in Ho.
      rewrite (at_stop format (D' ++ P') body)
        by (rewrite ?length_append, ?append_assoc; auto).
      rewrite bind_Return. cbv beta iota zeta.
      replace (String.length format <=? _)%nat with false
        by (symmetry; apply Nat.leb_gt; lia).
      destruct (String.length D' <? String.length D' + String.length P')%nat;
        [rewrite Hsl|]; rewrite bind_Return; cbv beta iota zeta.
      all: destruct body as [|c body]; cbn [String.length] in Hl';
        [ rewrite byteAt_past by lia; reflexivity | ].
      all: rewrite (byteAt_at format (D' ++ P' ++ "{") body c)
          by (rewrite ?length_append, ?append_assoc;
              cbn [String.length]; auto; lia).
      all: simpl in Ho; rewrite bind_Return, Ho.
      all: rewrite (close_to_end format (D' ++ P' ++ "{") (String c body))
          by (rewrite ?length_append, ?append_assoc;
              cbn [String.length]; auto; lia).
      all: rewrite bind_Return, byteAt_past by lia; reflexivity.
  - (* the escape of an opening brace *)
    cbn [assemble segmentText] in Hf1, Hl', Hlen.
    rewrite length_append in Hl', Hlen, Hfuel.
    cbn [String.length] in Hl', Hlen.
    rewrite (at_stop format (D' ++ P') ("{" ++ assemble rest ++ terminalText t))
      by (rewrite ?length_append, ?append_assoc; auto).
    rewrite bind_Return. cbv beta iota zeta.
    replace (String.length format <=? _)%nat with false
      by (symmetry; apply Nat.leb_gt; lia).
    rewrite (byteAt_at format (D' ++ P' ++ "{")
               (assemble rest ++ terminalText t) "{")
      by (rewrite ?length_append, ?append_assoc;
          cbn [String.length]; auto; lia).
    cbn [LegacySegments.expand].
    replace (String.length D' + String.length P' + 1 + 1)
      with (String.length (D' ++ P' ++ "{{"))
      by (rewrite !length_append; cbn [String.length]; lia).
    destruct (String.length D' <? String.length D' + String.length P')%nat
      eqn:Hlt;
      [rewrite Hsl
      |apply Nat.ltb_ge in Hlt; rewrite (Hpend Hlt), ?append_nil_r];
      rewrite !bind_Return; cbv beta iota zeta;
      cbn [Ascii.eqb Bool.eqb]; cbv iota.
    all: apply IH;
      [ now apply andb_true_iff in Hwf'
      | exact Hend
      | rewrite Hf1 at 1; rewrite ?(Hpend Hlt), ?append_assoc; reflexivity
      | rewrite length_append; lia ].
  - (* a field *)
    cbn [assemble segmentText] in Hf1, Hl', Hlen.
    rewrite length_append in Hfuel.
    repeat (rewrite ?length_append in Hl', Hlen;
            cbn [append String.length] in Hl', Hlen).
    cbn [forallb wellFormed] in Hwf'.
    apply andb_true_iff in Hwf'. destruct Hwf' as [Hb Hwf'].
    apply andb_true_iff in Hb. destruct Hb as [Hc Ho].
    apply negb_true_iff, memBytes_false in Hc.
    apply negb_true_iff in Ho.
    assert (Hf2 : format
                  = (D' ++ P' ++ "{") ++ body
                    ++ String "}" (assemble rest ++ terminalText t)).
    { rewrite Hf1. cbn [append]. rewrite !append_assoc. reflexivity. }
    assert (Hf3 : format
                  = (D' ++ P')
                    ++ String "{" (body ++ String "}"
                                     (assemble rest ++ terminalText t))).
    { rewrite Hf2. rewrite !append_assoc. reflexivity. }
    assert (Hf4 : format
                  = ((D' ++ P' ++ "{") ++ body)
                    ++ String "}" (assemble rest ++ terminalText t)).
    { rewrite Hf2. rewrite !append_assoc. reflexivity. }
    assert (Hf5 : format
                  = ((D' ++ P' ++ "{") ++ body ++ "}")
                    ++ assemble rest ++ terminalText t).
    { rewrite Hf2. rewrite !append_assoc. reflexivity. }
    assert (Hx : String.length (D' ++ P' ++ "{")
                 = String.length D' + String.length P' + 1).
    { rewrite !length_append. cbn [String.length]. lia. }
    rewrite (at_stop format (D' ++ P') _ _ _ _ _ Hf3)
      by now rewrite length_append.
    rewrite bind_Return. cbv beta iota zeta.
    replace (String.length format <=? _)%nat with false
      by (symmetry; apply Nat.leb_gt; lia).
    assert (Hfirst : exists c, byteAt format
                       (String.length D' + String.length P' + 1)
                     = Return c /\ Ascii.eqb c "{" = false).
    { destruct body as [|c body].
      - exists "}"%char. split; [|reflexivity].
        apply (byteAt_at format (D' ++ P' ++ "{")
                 (assemble rest ++ terminalText t)); auto.
      - exists c. split; [|exact Ho].
        apply (byteAt_at format (D' ++ P' ++ "{")
                 (body ++ String "}" (assemble rest ++ terminalText t)));
          auto. }
    destruct Hfirst as (c & Hc0 & Hc1).
    cbn [LegacySegments.expand]. unfold LegacySegments.fieldStep.
    destruct (String.length D' <? String.length D' + String.length P')%nat
      eqn:Hlt;
      [rewrite Hsl
      |apply Nat.ltb_ge in Hlt; pose proof (Hpend Hlt) as HP; subst P';
       rewrite ?append_nil_r];
      rewrite !bind_Return; cbv beta iota zeta.
    1: change (Legacy.setBuf (Legacy.setBuf f b')
                 (WriteString (Legacy.buf (Legacy.setBuf f b')) P'))
         with (Legacy.setBuf f (b' ++ P')).
    all: rewrite Hc0, bind_Return, Hc1.
    all: rewrite (close_at format _ body _ _ _ Hf2) by (auto; lia).
    all: rewrite bind_Return.
    all: rewrite (byteAt_at format _ _ "}" _ Hf4)
      by (rewrite length_append; lia).
    all: rewrite bind_Return; cbn [Ascii.eqb Bool.eqb negb]; cbv iota.
    all: rewrite (slice_at format _ body _ _ _ Hf2) by lia.
    all: rewrite bind_Return.
    all: match type of Hf5 with
         | _ = ?X ++ _ =>
             match goal with
             | |- context [Legacy.doFormat_loop _ _ _ _ ?n] =>
                 replace n with (String.length X)
                   by (rewrite !length_append; cbn [String.length]; lia)
             end
         end.
    all: match goal with
         | |- context [Legacy.getArg ?st ?n] =>
             destruct (Legacy.getArg st n) as [[f0 [v [e|]]]|msg|]
         end; cbn [bind]; try reflexivity.
    all: match goal with
         | |- context [render_ ?x ?y] =>
             destruct (render_ x y) as [[[r2 b2] [e|]]|msg|]
         end; cbn [bind]; try reflexivity.
    all: apply IH;
      [ exact Hwf' | exact Hend | exact Hf5 | rewrite length_append; lia ].
Qed.

(** [doFormat] of the older file on a template given by its segments. *)
Lemma Legacy_run_segments (segs : list segment) (t : terminal)
  (f : Legacy.ff) :
  forallb wellFormed segs = true ->
  wellFormedEnd t = true ->
  Legacy.finish
    (Legacy.doFormat clearflags render_ f (assemble segs ++ terminalText t))
  = LegacySegments.finishWith t
      (LegacySegments.expand clearflags render_ segs f).
Proof.
  intros Hwf Hend. unfold Legacy.doFormat.
  change (Legacy.doFormat_loop clearflags render_
            (String.length (assemble segs ++ terminalText t) + 1)
            (assemble segs ++ terminalText t) 0 f)
    with (Legacy.doFormat_loop clearflags render_
            (String.length (assemble segs ++ terminalText t) + 1)
            (assemble segs ++ terminalText t) (String.length "") f).
  apply Legacy_loop_segments; [exact Hwf | exact Hend | reflexivity | lia].
Qed.

Lemma Legacy_run_tokenize (format : string) (f : Legacy.ff) :
  Legacy.finish (Legacy.doFormat clearflags render_ f format)
  = LegacySegments.finishWith
      (snd (tokenize (String.length format) format))
      (LegacySegments.expand clearflags render_
         (fst (tokenize (String.length format) format)) f).
Proof.
  destruct (tokenize_sound (String.length format) format (le_n _))
    as (Hwf & Hend & Hs).
  rewrite <- Hs at 1. now apply Legacy_run_segments.
Qed.

(** The segments of an escaped text in front of other segments. *)
Lemma Legacy_escape_segments (s : string) :
  exists segs : list segment,
    forallb wellFormed segs = true
    /\ assemble segs = escape s
    /\ forall rest f,
         LegacySegments.expand clearflags render_ (segs ++ rest) f
         = LegacySegments.expand clearflags render_ rest
             (Legacy.setBuf f (Legacy.buf f ++ s)).
Proof.
  induction s as [|c s (segs & Hwf & Ha & He)].
  - exists []. repeat split. intros. cbn [List.app].
    now rewrite append_nil_r, Legacy_setBuf_buf.
  - cbn [escape].
    destruct (Ascii.eqb c "{") eqn:Eo; [|destruct (Ascii.eqb c "}") eqn:Ec].
    + apply Ascii.eqb_eq in Eo. subst c.
      exists (OpenEsc :: segs).
      cbn [forallb wellFormed assemble segmentText].
      rewrite Ha. repeat split; [exact Hwf|]. intros.
      cbn [List.app LegacySegments.expand].
      rewrite He. unfold WriteString. cbn [Legacy.buf Legacy.setBuf].
      now rewrite append_assoc.
    + apply Ascii.eqb_eq in Ec. subst c.
      exists (CloseEsc :: segs).
      cbn [forallb wellFormed assemble segmentText].
      rewrite Ha. repeat split; [exact Hwf|]. intros.
      cbn [List.app LegacySegments.expand].
      rewrite He. unfold WriteString. cbn [Legacy.buf Legacy.setBuf].
      now rewrite append_assoc.
    + exists (Lit (str1 c) :: segs).
      cbn [forallb wellFormed assemble segmentText].
      unfold memBytes. cbn [strings.indexByte str1 option_map].
      rewrite Eo, Ec, Ha. repeat split; [exact Hwf|]. intros.
      cbn [List.app LegacySegments.expand].
      rewrite He. unfold WriteString. cbn [Legacy.buf Legacy.setBuf].
      now rewrite append_assoc.
Qed.

Lemma assemble_app (xs ys : list segment) :
  assemble (xs ++ ys) = assemble xs ++ assemble ys.
Proof.
  induction xs as [|g xs IH]; [reflexivity|].
  cbn [List.app assemble]. now rewrite IH, append_assoc.
Qed.

(** The first field after an escaped text: the template is read up to
    it, whatever follows. *)
Lemma Legacy_first_field (f : Legacy.ff) (s name rest : string) :
  memBytes "}" name = false ->
  startsWith name "{" = false ->
  exists (segs : list segment) (t : terminal),
    Legacy.finish
      (Legacy.doFormat clearflags render_ f
         (escape s ++ "{" ++ name ++ "}" ++ rest))
    = LegacySegments.finishWith t
        ('(f, e) <-
           LegacySegments.fieldStep clearflags render_
             (Legacy.setBuf f (Legacy.buf f ++ s)) name ;;
         match e with
         | Some err => Return (f, Some err)
         | None => LegacySegments.expand clearflags render_ segs f
         end).
Proof.
  intros Hc Ho.
  destruct (Legacy_escape_segments s) as (pre & Hwf & Ha & He).
  destruct (tokenize_sound (String.length rest) rest (le_n _))
    as (Hwr & Hend & Hs).
  exists (fst (tokenize (String.length rest) rest)),
         (snd (tokenize (String.length rest) rest)).
  set (segs := fst (tokenize (String.length rest) rest)) in *.
  set (t := snd (tokenize (String.length rest) rest)) in *.
  replace (escape s ++ "{" ++ name ++ "}" ++ rest)
    with (assemble (pre ++ Field name :: segs) ++ terminalText t).
  - rewrite Legacy_run_segments.
    + rewrite He. reflexivity.
    + rewrite forallb_app, Hwf. cbn [forallb wellFormed andb].
      now rewrite Hc, Ho, Hwr.
    + exact Hend.
  - rewrite assemble_app, Ha. cbn [assemble segmentText].
    rewrite <- Hs at 1. rewrite !append_assoc. reflexivity.
Qed.

End LegacyDriver.

(** X10. The three entry points of the older file read a template as [Fmt]
    does: each returns what the expansion of the segments of the template
    returns from its own starting state, where a field resolves the whole
    text between its braces as the name of the argument and renders it; the
    first error ends the expansion with the empty string, a closing brace
    that stands alone is the error "Single '}' encountered in format
    string", and an opening brace that is never closed is a panic. *)
Theorem Format_tokenize
  (clearflags : renderer -> renderer)
  (render_ : renderer -> buffer -> call (renderer * buffer * option error))
  (format : string) :
  (forall a,
     Legacy.Format clearflags render_ format a
     = LegacySegments.finishWith
         (snd (tokenize (String.length format) format))
         (LegacySegments.expand clearflags render_
            (fst (tokenize (String.length format) format))
            (LegacySegments.listState a)))
  /\ (forall m,
        Legacy.FormatMap clearflags render_ format m
        = LegacySegments.finishWith
            (snd (tokenize (String.length format) format))
            (LegacySegments.expand clearflags render_
               (fst (tokenize (String.length format) format))
               (LegacySegments.mapState m)))
  /\ (forall fields,
        Legacy.FormatStruct clearflags render_ format (VStruct fields)
        = LegacySegments.finishWith
            (snd (tokenize (String.length format) format))
            (LegacySegments.expand clearflags render_
               (fst (tokenize (String.length format) format))
               (LegacySegments.structState (VStruct fields)))).
Proof.
  repeat split; intros; apply Legacy_run_tokenize.
Qed.

(** X11. A text in which every brace is doubled is a template of the older
    file for this text: [Format], [FormatMap] and [FormatStruct] return it
    without an error, whatever the arguments are. *)
Theorem Format_escape
  (clearflags : renderer -> renderer)
  (render_ : renderer -> buffer -> call (renderer * buffer * option error))
  (s : string) :
  (forall a, Legacy.Format clearflags render_ (escape s) a = Return (s, None))
  /\ (forall m,
        Legacy.FormatMap clearflags render_ (escape s) m = Return (s, None))
  /\ (forall fields,
        Legacy.FormatStruct clearflags render_ (escape s) (VStruct fields)
        = Return (s, None)).
Proof.
  destruct (Legacy_escape_segments clearflags render_ s)
    as (segs & Hwf & Ha & He).
  assert (H : forall f, Legacy.buf f = "" ->
            Legacy.finish (Legacy.doFormat clearflags render_ f (escape s))
            = Return (s, None)).
  { intros f Hb. rewrite <- Ha.
    rewrite <- (append_nil_r (assemble segs)).
    change "" with (terminalText Complete) at 1.
    rewrite Legacy_run_segments by (auto; reflexivity).
    rewrite <- (app_nil_r segs), He. cbn [LegacySegments.expand].
    unfold LegacySegments.finishWith. cbn [bind Legacy.buf Legacy.setBuf].
    now rewrite Hb. }
  repeat split; intros; apply H; reflexivity.
Qed.

(** ** Lookup failures of the older file *)

(** X12. A field whose name is not a key of the map, or not a field of the
    record, ends [FormatMap] and [FormatStruct] with the error "KeyError: "
    and the name, when only text with doubled braces stands in front of the
    field.  What follows the field is not read: a brace that stands alone
    behind it is not reported. *)
Theorem missing_key_is_KeyError
  (clearflags : renderer -> renderer)
  (render_ : renderer -> buffer -> call (renderer * buffer * option error))
  (s name rest : string) :
  memBytes "}" name = false ->
  startsWith name "{" = false ->
  (forall m, m name = None ->
     Legacy.FormatMap clearflags render_
       (escape s ++ "{" ++ name ++ "}" ++ rest) m
     = Return ("", Some ("KeyError: " ++ name)))
  /\ (forall fields, Legacy.fieldByName fields name = None ->
        Legacy.FormatStruct clearflags render_
          (escape s ++ "{" ++ name ++ "}" ++ rest) (VStruct fields)
        = Return ("", Some ("KeyError: " ++ name))).
Proof.
  intros Hc Ho. split.
  - intros m Hm.
    destruct (Legacy_first_field clearflags render_
                (LegacySegments.mapState m) s name rest Hc Ho)
      as (segs & t & H).
    change (Legacy.FormatMap clearflags render_
              (escape s ++ "{" ++ name ++ "}" ++ rest) m)
      with (Legacy.finish
              (Legacy.doFormat clearflags render_ (LegacySegments.mapState m)
                 (escape s ++ "{" ++ name ++ "}" ++ rest))).
    rewrite H. unfold LegacySegments.fieldStep, Legacy.getArg.
    cbn [LegacySegments.mapState Legacy.setBuf Legacy.setR Legacy.argSrc
         Legacy.argMap Legacy.buf Legacy.r].
    rewrite Hm. reflexivity.
  - intros fields Hm.
    destruct (Legacy_first_field clearflags render_
                (LegacySegments.structState (VStruct fields)) s name rest
                Hc Ho)
      as (segs & t & H).
    change (Legacy.FormatStruct clearflags render_
              (escape s ++ "{" ++ name ++ "}" ++ rest) (VStruct fields))
      with (Legacy.finish
              (Legacy.doFormat clearflags render_
                 (LegacySegments.structState (VStruct fields))
                 (escape s ++ "{" ++ name ++ "}" ++ rest))).
    rewrite H. unfold LegacySegments.fieldStep, Legacy.getArg.
    cbn [LegacySegments.structState Legacy.setBuf Legacy.setR Legacy.argSrc
         Legacy.argStruct Legacy.buf Legacy.r].
    rewrite Hm. reflexivity.
Qed.

Lemma missing_key_is_KeyError_witness :
  Legacy.FormatMap clearFlags
    (render Host.Sprintf (Error Host.Sprintf Host.getElement)
       (Must Host.Sprintf Host.getElement))
    "a{{b{key}x}" (fun k => if (k =? "other")%string then Some (VInt 1)
                            else None)
  = Return ("", Some "KeyError: key")
  /\ Legacy.FormatStruct clearFlags
       (render Host.Sprintf (Error Host.Sprintf Host.getElement)
          (Must Host.Sprintf Host.getElement))
       "{Name}" (VStruct [("Other", VInt 1)])
     = Return ("", Some "KeyError: Name").
Proof.
  split.
  - exact (proj1 (missing_key_is_KeyError clearFlags
                    (render Host.Sprintf (Error Host.Sprintf Host.getElement)
                       (Must Host.Sprintf Host.getElement))
                    "a{b" "key" "x}" eq_refl eq_refl)
             (fun k => if (k =? "other")%string then Some (VInt 1) else None)
             eq_refl).
  - exact (proj2 (missing_key_is_KeyError clearFlags
                    (render Host.Sprintf (Error Host.Sprintf Host.getElement)
                       (Must Host.Sprintf Host.getElement))
                    "" "Name" "" eq_refl eq_refl)
             [("Other", VInt 1)] eq_refl).
Defined.

(** X13. The lookups of [Format] in the argument list, for a field behind
    text with doubled braces: an empty name with no argument left and an
    index at or beyond the length of the list give the error "Format index
    (i) out of range (n)", a name that is not a number gives "Invalid
    index: " with the name and the error of [strconv.Atoi], and a negative
    index is a panic, not an error. *)
Theorem Format_list_lookup
  (clearflags : renderer -> renderer)
  (render_ : renderer -> buffer -> call (renderer * buffer * option error))
  (s name rest : string) (a : list value) :
  memBytes "}" name = false ->
  startsWith name "{" = false ->
  (name = "" -> a = [] ->
   Legacy.Format clearflags render_
     (escape s ++ "{" ++ name ++ "}" ++ rest) a
   = Return ("", Some "Format index (0) out of range (0)"))
  /\ (forall pos, strconv.Atoi name = Ok pos ->
        (Z.of_nat (List.length a) <= pos)%Z ->
        Legacy.Format clearflags render_
          (escape s ++ "{" ++ name ++ "}" ++ rest) a
        = Return ("", Some ("Format index (" ++ strconv.Itoa pos
                            ++ ") out of range ("
                            ++ strconv.Itoa (Z.of_nat (List.length a))
                            ++ ")")))
  /\ (forall err, name <> "" -> strconv.Atoi name = Err err ->
        Legacy.Format clearflags render_
          (escape s ++ "{" ++ name ++ "}" ++ rest) a
        = Return ("", Some ("Invalid index: " ++ name ++ ": " ++ err)))
  /\ (forall pos, strconv.Atoi name = Ok pos -> (pos < 0)%Z ->
        Legacy.Format clearflags render_
          (escape s ++ "{" ++ name ++ "}" ++ rest) a
        = Panics "index out of range").
Proof.
  intros Hc Ho.
  destruct (Legacy_first_field clearflags render_
              (LegacySegments.listState a) s name rest Hc Ho)
    as (segs & t & H).
  change (Legacy.Format clearflags render_
            (escape s ++ "{" ++ name ++ "}" ++ rest) a)
    with (Legacy.finish
            (Legacy.doFormat clearflags render_ (LegacySegments.listState a)
               (escape s ++ "{" ++ name ++ "}" ++ rest))).
  rewrite H. clear H. unfold LegacySegments.fieldStep, Legacy.getArg.
  cbn [LegacySegments.listState Legacy.setBuf Legacy.setR Legacy.argSrc
       Legacy.argList Legacy.listPos Legacy.buf Legacy.r].
  assert (Hne : forall pos, strconv.Atoi name = Ok pos ->
                            (name =? "")%string = false).
  { intros pos Hp. destruct name; [discriminate Hp|reflexivity]. }
  repeat split.
  - intros Hn Ha. subst name a. reflexivity.
  - intros pos Hp Hle. rewrite (Hne pos Hp), Hp.
    replace (pos <? Z.of_nat (List.length a))%Z with false
      by (symmetry; apply Z.ltb_ge; lia).
    reflexivity.
  - intros err Hn Hp.
    replace (name =? "")%string with false
      by (symmetry; now apply String.eqb_neq).
    rewrite Hp. reflexivity.
  - intros pos Hp Hneg. rewrite (Hne pos Hp), Hp.
    replace (pos <? Z.of_nat (List.length a))%Z with true
      by (symmetry; apply Z.ltb_lt; lia).
    replace (pos <? 0)%Z with true by (symmetry; apply Z.ltb_lt; lia).
    reflexivity.
Qed.

Lemma Format_list_lookup_witness :
  Legacy.Format clearFlags
    (render Host.Sprintf (Error Host.Sprintf Host.getElement)
         (Must Host.Sprintf Host.getElement))
    "a}}{}" []
  = Return ("", Some "Format index (0) out of range (0)")
  /\ Legacy.Format clearFlags
       (render Host.Sprintf (Error Host.Sprintf Host.getElement)
         (Must Host.Sprintf Host.getElement))
       "{5}b" [VInt 1]
     = Return ("", Some "Format index (5) out of range (1)")
  /\ Legacy.Format clearFlags
       (render Host.Sprintf (Error Host.Sprintf Host.getElement)
         (Must Host.Sprintf Host.getElement))
       "{x}" [VInt 1]
     = Return ("", Some ("Invalid index: x: "
                         ++ strconv.numErrorText "Atoi" "x"
                              strconv.ErrSyntax))
  /\ Legacy.Format clearFlags
       (render Host.Sprintf (Error Host.Sprintf Host.getElement)
         (Must Host.Sprintf Host.getElement))
       "ab{-1}" [VInt 1]
     = Panics "index out of range".
Proof.
  split; [|split; [|split]].
  - exact (proj1 (Format_list_lookup clearFlags _ "a}" "" "" []
                    eq_refl eq_refl) eq_refl eq_refl).
  - exact (proj1 (proj2 (Format_list_lookup clearFlags _ "" "5" "b"
                           [VInt 1] eq_refl eq_refl))
             5%Z eq_refl ltac:(simpl; lia)).
  - refine (proj1 (proj2 (proj2 (Format_list_lookup clearFlags _ "" "x" ""
                                   [VInt 1] eq_refl eq_refl)))
              _ _ eq_refl).
    discriminate.
  - exact (proj2 (proj2 (proj2 (Format_list_lookup clearFlags _ "ab" "-1" ""
                                  [VInt 1] eq_refl eq_refl)))
             (-1)%Z eq_refl ltac:(lia)).
Defined.

(** ** Text in front of a template

    Everything the formatter writes is appended to its buffer, and nothing
    it does depends on what the buffer holds. *)

Lemma WriteAlignedString_body_frame
  (self : buffer -> string -> alignment -> Z -> rune -> call buffer)
  (p : string) :
  (forall b s a w c,
     self (p ++ b) s a w c = (x <- self b s a w c ;; Return (p ++ x))) ->
  forall b s a w c,
    WriteAlignedString_body self (p ++ b) s a w c
    = (x <- WriteAlignedString_body self b s a w c ;; Return (p ++ x)).
Proof.
  intros Hself b s a w c. unfold WriteAlignedString_body, WriteString.
  destruct (_ || _).
  - cbn [bind]. now rewrite append_assoc.
  - destruct a.
    + reflexivity.
    + destruct (strings.Repeat _ _); cbn [bind]; try reflexivity.
      now rewrite !append_assoc.
    + destruct (strings.Repeat _ _); cbn [bind]; try reflexivity.
      now rewrite !append_assoc.
    + destruct (byteAt s 0) as [s0| |]; cbn [bind]; try reflexivity.
      destruct (_ || _).
      * destruct (sliceFrom s 1); cbn [bind]; try reflexivity.
        rewrite append_assoc. apply Hself.
      * apply Hself.
    + destruct (strings.Repeat _ _); cbn [bind]; try reflexivity.
      destruct (strings.Repeat _ _); cbn [bind]; try reflexivity.
      now rewrite !append_assoc.
Qed.

Lemma WriteAlignedString_frame (p : string) b s a w c :
  WriteAlignedString (p ++ b) s a w c
  = (x <- WriteAlignedString b s a w c ;; Return (p ++ x)).
Proof.
  unfold WriteAlignedString.
  apply WriteAlignedString_body_frame. intros.
  apply WriteAlignedString_body_frame. reflexivity.
Qed.

Lemma renderWrite_frame (p : string) r str w b :
  renderWrite r str w (p ++ b)
  = (x <- renderWrite r str w b ;; Return (p ++ x)).
Proof.
  unfold renderWrite, WriteString.
  assert (H : forall b' str' w',
            (if showRadix (fl r) && alignment_eqb (align (fl r)) padSign
             then
               q <- slice str' 0 2 ;;
               rest <- sliceFrom str' 2 ;;
               WriteAlignedString ((p ++ b') ++ q) rest (align (fl r))
                 (wrap64 (w' - 2)) (fillChar (fl r))
             else WriteAlignedString (p ++ b') str' (align (fl r)) w'
                    (fillChar (fl r)))
            = (x <-
                 (if showRadix (fl r) && alignment_eqb (align (fl r)) padSign
                  then
                    q <- slice str' 0 2 ;;
                    rest <- sliceFrom str' 2 ;;
                    WriteAlignedString (b' ++ q) rest (align (fl r))
                      (wrap64 (w' - 2)) (fillChar (fl r))
                  else WriteAlignedString b' str' (align (fl r)) w'
                         (fillChar (fl r))) ;;
               Return (p ++ x))).
  { intros b' str' w'. destruct (_ && _).
    - destruct (slice str' 0 2); cbn [bind]; try reflexivity.
      destruct (sliceFrom str' 2); cbn [bind]; try reflexivity.
      rewrite append_assoc. apply WriteAlignedString_frame.
    - apply WriteAlignedString_frame. }
  destruct str as [|c t].
  - apply H.
  - destruct (negb _ && _).
    + destruct (Ascii.eqb c "-"); [rewrite append_assoc; apply H|].
      destruct (Ascii.eqb c "+"); [rewrite append_assoc; apply H|].
      destruct (Ascii.eqb c " "); rewrite append_assoc; apply H.
    + apply H.
Qed.

Section Frame.

Variable Sprintf : string -> value -> string.
Variable getElement : string -> nat -> list value -> value * option error.
Variable ErrorRec : string -> list value -> call error.
Variable MustRec : string -> list value -> call string.

Lemma render_frame (p : string) r b :
  render Sprintf ErrorRec MustRec r (p ++ b)
  = ('(r', b', e) <- render Sprintf ErrorRec MustRec r b ;;
     Return (r', p ++ b', e)).
Proof.
  unfold render.
  destruct (renderText Sprintf ErrorRec MustRec r)
    as [[r' [[str w]|err]]| |]; cbn [bind]; try reflexivity.
  rewrite renderWrite_frame.
  destruct (renderWrite r' str w b); reflexivity.
Qed.

Lemma fieldStep_frame (p : string) (f : ff) (field : string) :
  fieldStep Sprintf getElement ErrorRec MustRec (inFront p f) field
  = ('(f', e) <- fieldStep Sprintf getElement ErrorRec MustRec f field ;;
     Return (inFront p f', e)).
Proof.
  unfold fieldStep, inFront. destruct (splitFormat field) as [name spec].
  unfold getArg. cbn [setBuf buf args listPos r].
  destruct (getElement name (listPos f) (args f)) as [v [e|]].
  - destruct (name =? ""); reflexivity.
  - destruct (name =? ""); cbn [setR setBuf r buf args listPos];
      match goal with
      | |- context [parseFlags ErrorRec ?x spec] =>
          destruct (parseFlags ErrorRec x spec) as [[r1 [e|]]| |]
      end;
      cbn [bind setR setBuf r buf args listPos]; try reflexivity;
      rewrite render_frame;
      match goal with
      | |- context [render Sprintf ErrorRec MustRec ?x ?y] =>
          destruct (render Sprintf ErrorRec MustRec x y)
            as [[[r2 b2] e2]| |]
      end; reflexivity.
Qed.

Lemma expand_frame (p : string) (segs : list segment) : forall f,
  expand Sprintf getElement ErrorRec MustRec segs (inFront p f)
  = ('(f', e) <- expand Sprintf getElement ErrorRec MustRec segs f ;;
     Return (inFront p f', e)).
Proof.
  assert (Hw : forall f x,
            setBuf (inFront p f) (WriteString (buf (inFront p f)) x)
            = inFront p (setBuf f (WriteString (buf f) x))).
  { intros f x. unfold inFront, WriteString. cbn [setBuf buf].
    now rewrite append_assoc. }
  induction segs as [|[s| | |body] segs IH]; intros f; cbn [expand].
  - reflexivity.
  - rewrite Hw. apply IH.
  - rewrite Hw. apply IH.
  - rewrite Hw. apply IH.
  - rewrite fieldStep_frame.
    destruct (fieldStep Sprintf getElement ErrorRec MustRec f body)
      as [[f' [e|]]| |]; cbn [bind]; try reflexivity.
    apply IH.
Qed.

Lemma expand_app (xs ys : list segment) : forall f,
  expand Sprintf getElement ErrorRec MustRec (xs ++ ys) f
  = ('(f', e) <- expand Sprintf getElement ErrorRec MustRec xs f ;;
     match e with
     | Some err => Return (f', Some err)
     | None => expand Sprintf getElement ErrorRec MustRec ys f'
     end).
Proof.
  induction xs as [|[s| | |body] xs IH]; intros f;
    cbn [List.app expand]; try apply IH.
  - reflexivity.
  - destruct (fieldStep Sprintf getElement ErrorRec MustRec f body)
      as [[f' [e|]]| |]; cbn [bind]; try reflexivity.
    apply IH.
Qed.

End Frame.

(** X14. Text in front of a template goes in front of the output: [Fmt] on
    a text with every brace doubled followed by a template returns this
    text followed by the output of the template, and the error or the panic
    of the template when it has one. *)
Theorem Fmt_escape_prefix
  (Sprintf : string -> value -> string)
  (getElement : string -> nat -> list value -> value * option error)
  (s format : string) (a : list value) :
  Fmt Sprintf getElement (escape s ++ format) a
  = match Fmt Sprintf getElement format a with
    | Return (out, None) => Return (s ++ out, None)
    | other => other
    end.
Proof.
  destruct (escape_segments s) as (pre & Hwf & Ha & He).
  destruct (tokenize_sound (String.length format) format (le_n _))
    as (Hwr & Hend & Hs).
  set (segs := fst (tokenize (String.length format) format)) in *.
  set (t := snd (tokenize (String.length format) format)) in *.
  rewrite <- Hs.
  replace (escape s ++ assemble segs ++ terminalText t)
    with (assemble (pre ++ segs) ++ terminalText t)
    by (rewrite assemble_app, Ha, append_assoc; reflexivity).
  rewrite !Fmt_segments by (rewrite ?forallb_app, ?Hwf; auto).
  rewrite expand_app, He. cbn [bind].
  replace (setBuf (newFormater a) (buf (newFormater a) ++ s))
    with (inFront s (newFormater a))
    by (unfold inFront, newFormater; cbn [buf setBuf append];
        now rewrite append_nil_r).
  rewrite expand_frame.
  destruct (expand Sprintf getElement _ _ segs (newFormater a))
    as [[f' [e|]]| |]; cbn [bind finishWith]; try reflexivity.
  destruct t; reflexivity.
Qed.

(** X15. A field is split at its first colon: the name is the text in
    front of it and the specification is all that follows, later colons
    included; a field without a colon is a name with an empty
    specification. *)
Theorem splitFormat_first_colon (name spec : string) :
  strings.indexByte ":" name = None ->
  splitFormat (name ++ ":" ++ spec) = (name, spec)
  /\ splitFormat name = (name, "").
Proof.
  intros H. unfold splitFormat. split.
  - cbn [append]. now rewrite (SplitN2_at ":" name spec H).
  - unfold strings.SplitN2. now rewrite H.
Qed.

Lemma splitFormat_first_colon_witness :
  splitFormat "0:a:b" = ("0", "a:b") /\ splitFormat "0" = ("0", "").
Proof.
  exact (splitFormat_first_colon "0" "a:b" eq_refl).
Defined.

(** X16. The renderer only appends: what [render] returns on a buffer is
    what it returns on the empty buffer, with the text written there put
    behind the buffer; its error, its panic and the flags it leaves do not
    depend on what the buffer holds. *)
Theorem render_appends
  (Sprintf : string -> value -> string)
  (ErrorRec : string -> list value -> call error)
  (MustRec : string -> list value -> call string)
  (r : renderer) (b : buffer) :
  render Sprintf ErrorRec MustRec r b
  = ('(r', out, e) <- render Sprintf ErrorRec MustRec r "" ;;
     Return (r', b ++ out, e)).
Proof.
  rewrite <- (append_nil_r b) at 1. apply render_frame.
Qed.
